(** * teeproxy: request duplication, session affinity and dual dispatch

    A shallow embedding of [teeproxy.go].  The Go program is a handler
    that duplicates an inbound HTTP request, sends one copy to the
    production target and relays its answer, and sends the other copy to
    the alternative target from a goroutine, remembering in a cache which
    alternative session belongs to which production session.

    Go values with reference semantics (header maps, string slices, byte
    buffers, URL pointers) live in an explicit heap; the handler and the
    goroutine are state-passing programs over a [World] that also holds
    the session cache, standard output, the caller-facing response writer
    and a trace of network and cache events.  The functions of [net/http],
    [strings], [io] and [go-cache] that the program calls are modelled
    after their documented behaviour. *)

From Stdlib Require Import ZArith Ascii String List Lia.
From Stdlib Require Import Init.Byte.
From Stdlib Require Import DecimalString.
From stdpp Require Import base option list strings gmap fin_maps.

Set Default Proof Using "Type".
Local Open Scope string_scope.
Local Open Scope list_scope.

(** ** Strings: the parts of [strings] and [net/textproto] that are used *)

Module Strings.

Definition code (c : ascii) : N := N_of_ascii c.

(** The double quote, byte 34. *)
Definition dquote : ascii := "034"%char.

Definition between (lo hi : N) (c : ascii) : bool :=
  ((lo <=? code c) && (code c <=? hi))%N.

Definition is_upper : ascii -> bool := between 65 90.
Definition is_lower : ascii -> bool := between 97 122.
Definition is_digit : ascii -> bool := between 48 57.

Definition to_lower (c : ascii) : ascii :=
  if is_upper c then ascii_of_N (code c + 32) else c.

Definition to_upper (c : ascii) : ascii :=
  if is_lower c then ascii_of_N (code c - 32) else c.

Fixpoint ToLower (s : string) : string :=
  match s with
  | EmptyString => EmptyString
  | String a s' => String (to_lower a) (ToLower s')
  end.

Fixpoint ToUpper (s : string) : string :=
  match s with
  | EmptyString => EmptyString
  | String a s' => String (to_upper a) (ToUpper s')
  end.

(** [textproto.TrimString]: strips leading and trailing space, tab, CR, LF. *)
Definition is_space (c : ascii) : bool :=
  match code c with
  | 32%N | 9%N | 10%N | 13%N => true
  | _ => false
  end.

Fixpoint trim_left (s : string) : string :=
  match s with
  | String a s' => if is_space a then trim_left s' else s
  | EmptyString => EmptyString
  end.

Fixpoint trim_right (s : string) : string :=
  match s with
  | EmptyString => EmptyString
  | String a s' =>
      match trim_right s' with
      | EmptyString => if is_space a then EmptyString else String a EmptyString
      | r => String a r
      end
  end.

Definition TrimString (s : string) : string := trim_right (trim_left s).

(** [strings.Cut(s, sep)] for a one-byte separator: text before the first
    separator, text after it, and whether the separator occurs. *)
Fixpoint Cut (s : string) (sep : ascii) : string * string * bool :=
  match s with
  | EmptyString => (EmptyString, EmptyString, false)
  | String a s' =>
      if Ascii.eqb a sep then (EmptyString, s', true)
      else let '(before, after, found) := Cut s' sep in
           (String a before, after, found)
  end.

(** [strings.Split(s, sep)] for a one-byte separator. *)
Fixpoint Split (s : string) (sep : ascii) : list string :=
  match s with
  | EmptyString => [EmptyString]
  | String a s' =>
      if Ascii.eqb a sep then EmptyString :: Split s' sep
      else match Split s' sep with
           | p :: ps => String a p :: ps
           | [] => [String a EmptyString]
           end
  end.

Fixpoint all_bytes (p : ascii -> bool) (s : string) : bool :=
  match s with
  | EmptyString => true
  | String a s' => p a && all_bytes p s'
  end.

Fixpoint any_byte (p : ascii -> bool) (s : string) : bool :=
  match s with
  | EmptyString => false
  | String a s' => p a || any_byte p s'
  end.

Fixpoint filter_bytes (p : ascii -> bool) (s : string) : string :=
  match s with
  | EmptyString => EmptyString
  | String a s' => if p a then String a (filter_bytes p s') else filter_bytes p s'
  end.

Fixpoint map_bytes (f : ascii -> ascii) (s : string) : string :=
  match s with
  | EmptyString => EmptyString
  | String a s' => String (f a) (map_bytes f s')
  end.

Fixpoint last_byte (s : string) : option ascii :=
  match s with
  | EmptyString => None
  | String a EmptyString => Some a
  | String _ s' => last_byte s'
  end.

Fixpoint drop_last (s : string) : string :=
  match s with
  | EmptyString => EmptyString
  | String _ EmptyString => EmptyString
  | String a s' => String a (drop_last s')
  end.

(** HTTP token bytes (RFC 7230 tchar), the table behind [isToken]. *)
Definition is_token (c : ascii) : bool :=
  is_upper c || is_lower c || is_digit c ||
  any_byte (Ascii.eqb c) "!#$%&'*+-.^_`|~".

(** Bytes below 128 are the ASCII runes; the printable ones are those
    from the space to the tilde. *)
Definition is_ascii (c : ascii) : bool := (code c <? 128)%N.
Definition is_print (c : ascii) : bool := between 32 126 c.

(** The UTF-8 bytes of the Kelvin sign U+212A and of the long s U+017F,
    the two runes outside ASCII that simple case folding puts with an
    ASCII letter: the first with [k], the second with [s]. *)
Definition kelvin_sign : string :=
  String "226"%char (String "132"%char (String "170"%char EmptyString)).
Definition long_s : string := String "197"%char (String "191"%char EmptyString).

Fixpoint strip_prefix (p s : string) : option string :=
  match p with
  | EmptyString => Some s
  | String a p' =>
      match s with
      | String b s' => if Ascii.eqb a b then strip_prefix p' s' else None
      | EmptyString => None
      end
  end.

(** [strings.EqualFold s t] for a string [s] of ASCII bytes: the runes
    of [t] are taken one for each byte of [s].  An ASCII rune of [t]
    must be the same byte up to letter case; the Kelvin sign goes with
    [k] and [K], the long s with [s] and [S]; any other rune outside
    ASCII, and any byte that is not UTF-8, goes with no ASCII rune. *)
Fixpoint fold_ascii (s t : string) : bool :=
  match s with
  | EmptyString => match t with EmptyString => true | _ => false end
  | String a s' =>
      match t with
      | EmptyString => false
      | String b t' =>
          if is_ascii b then Ascii.eqb (to_lower a) (to_lower b) && fold_ascii s' t'
          else
            match strip_prefix kelvin_sign t with
            | Some rest => Ascii.eqb (to_lower a) "k"%char && fold_ascii s' rest
            | None =>
                match strip_prefix long_s t with
                | Some rest => Ascii.eqb (to_lower a) "s"%char && fold_ascii s' rest
                | None => false
                end
            end
      end
  end.

(** [strings.EqualFold]: equality under Unicode simple case folding.
    The comparison is symmetric, and [fold_ascii] gives it whenever one
    of the strings is ASCII, which is how [FindCookie] uses it: the name
    of a cookie that [readSetCookies] accepted is an HTTP token.  When
    both strings hold runes outside ASCII the folding of those runes
    among themselves is in the tables of package [unicode], which are
    not part of this development; such strings are compared as they
    are, byte by byte. *)
Definition EqualFold (s t : string) : bool :=
  if all_bytes is_ascii s then fold_ascii s t
  else if all_bytes is_ascii t then fold_ascii t s
  else String.eqb s t.

End Strings.

(** ** Cookies: [http.Cookie] and the parsers and printers of [net/http] *)

(** A [time.Time] as the proxy meets one: the zero time, or the time
    that the text of an [Expires] attribute stands for.  The proxy only
    copies times, so the text is kept in place of the time that
    [time.Parse] reads from it (in the layout of RFC 1123, else in the
    layout with dashes, taken to UTC), which is the zero time when the
    text fits neither layout. *)
Inductive Time :=
| time_zero
| time_of_text (raw : string).

(** The fields of [http.Cookie] that the handler reads or writes. *)
Record Cookie := mkCookie {
  Name : string;
  Value : string;
  Path : string;
  Domain : string;
  Expires : Time;
  MaxAge : Z;
  Secure : bool;
  HttpOnly : bool;
}.

(** [strconv.Atoi] with a 64-bit [int]: an optional sign, then decimal
    digits, at least one; [None] stands for an error (bad syntax or a
    value out of range). *)
Module Strconv.
Import Strings.

Fixpoint digits (acc : Z) (s : string) : option Z :=
  match s with
  | EmptyString => Some acc
  | String c s' =>
      if is_digit c then digits (acc * 10 + (Z.of_N (code c) - 48)) s' else None
  end.

Definition Atoi (s : string) : option Z :=
  let '(neg, body) :=
    match s with
    | String c r =>
        if Ascii.eqb c "-"%char then (true, r)
        else if Ascii.eqb c "+"%char then (false, r)
        else (false, s)
    | EmptyString => (false, s)
    end in
  match body with
  | EmptyString => None
  | _ =>
      match digits 0 body with
      | Some n =>
          let v := if neg then (- n)%Z else n in
          if ((- 2 ^ 63 <=? v) && (v <=? 2 ^ 63 - 1))%Z then Some v else None
      | None => None
      end
  end.

End Strconv.

Module CookieLib.
Import Strings.

(** A cookie as the parsers create it: name and value, everything else zero. *)
Definition bare (name value : string) : Cookie :=
  {| Name := name; Value := value; Path := EmptyString; Domain := EmptyString;
     Expires := time_zero; MaxAge := 0; Secure := false; HttpOnly := false |}.

Definition isCookieNameValid (raw : string) : bool :=
  match raw with
  | EmptyString => false
  | _ => all_bytes is_token raw
  end.

Definition validCookieValueByte (b : ascii) : bool :=
  ((32 <=? code b) && (code b <? 127))%N &&
  negb (Ascii.eqb b dquote) && negb (Ascii.eqb b ";"%char) &&
  negb (Ascii.eqb b "\"%char).

Definition strip_quotes (raw : string) : string :=
  match raw with
  | String q rest =>
      if Ascii.eqb q dquote then
        match last_byte rest with
        | Some q' => if Ascii.eqb q' dquote then drop_last rest else raw
        | None => raw
        end
      else raw
  | EmptyString => raw
  end.

(** [parseCookieValue(raw, allowDoubleQuote)] *)
Definition parseCookieValue (raw : string) (allowDoubleQuote : bool) : option string :=
  let raw := if allowDoubleQuote then strip_quotes raw else raw in
  if all_bytes validCookieValueByte raw then Some raw else None.

(** One [name=value] part of a [Cookie] request header line. *)
Definition readCookiePart (filter part : string) : option Cookie :=
  let part := TrimString part in
  match part with
  | EmptyString => None
  | _ =>
      let '(name, val, _) := Cut part "="%char in
      let name := TrimString name in
      if negb (isCookieNameValid name) then None
      else if negb (String.eqb filter EmptyString) && negb (String.eqb filter name) then None
      else match parseCookieValue val true with
           | Some val => Some (bare name val)
           | None => None
           end
  end.

(** [readCookies(h, filter)] applied to the lines of the [Cookie] header:
    every line is cut at semicolons and the well-formed parts whose name
    is exactly [filter] (any name when [filter] is empty) are kept. *)
Definition readCookies (lines : list string) (filter : string) : list Cookie :=
  flat_map (fun line => omap (readCookiePart filter) (Split (TrimString line) ";"%char)) lines.

(** One attribute of a [Set-Cookie] line, applied to the cookie read so
    far.  The part is trimmed and cut at its first [=]; the attribute
    name counts when it is printable ASCII, in any letter case, and the
    value when it is made of cookie value bytes (no quotes are taken
    off).  [Secure] and [HttpOnly] are set whatever their value;
    [Max-Age] must be a number without a leading zero (unless it is
    zero), and a number that is not positive gives [-1].  An attribute
    that is not understood changes none of these fields. *)
Definition set_attribute (c : Cookie) (part : string) : Cookie :=
  let part := TrimString part in
  match part with
  | EmptyString => c
  | _ =>
      let '(attr, val, _) := Cut part "="%char in
      if negb (all_bytes is_print attr) then c
      else
        let lowerAttr := ToLower attr in
        match parseCookieValue val false with
        | None => c
        | Some val =>
            if String.eqb lowerAttr "secure" then
              mkCookie (Name c) (Value c) (Path c) (Domain c) (Expires c) (MaxAge c) true
                (HttpOnly c)
            else if String.eqb lowerAttr "httponly" then
              mkCookie (Name c) (Value c) (Path c) (Domain c) (Expires c) (MaxAge c) (Secure c)
                true
            else if String.eqb lowerAttr "domain" then
              mkCookie (Name c) (Value c) (Path c) val (Expires c) (MaxAge c) (Secure c)
                (HttpOnly c)
            else if String.eqb lowerAttr "max-age" then
              match Strconv.Atoi val with
              | Some secs =>
                  match val with
                  | String d _ =>
                      if negb (secs =? 0)%Z && Ascii.eqb d "0"%char then c
                      else
                        mkCookie (Name c) (Value c) (Path c) (Domain c) (Expires c)
                          (if (secs <=? 0)%Z then (-1)%Z else secs) (Secure c) (HttpOnly c)
                  | EmptyString => c
                  end
              | None => c
              end
            else if String.eqb lowerAttr "expires" then
              mkCookie (Name c) (Value c) (Path c) (Domain c) (time_of_text val) (MaxAge c)
                (Secure c) (HttpOnly c)
            else if String.eqb lowerAttr "path" then
              mkCookie (Name c) (Value c) val (Domain c) (Expires c) (MaxAge c) (Secure c)
                (HttpOnly c)
            else c
        end
  end.

(** One [Set-Cookie] response header line, as [readSetCookies] reads it:
    the name and the value from the part before the first semicolon,
    then the attributes in the order of the line, a later one replacing
    an earlier one of the same kind. *)
Definition readSetCookie (line : string) : option Cookie :=
  match Split (TrimString line) ";"%char with
  | first :: attributes =>
      let '(name, value, ok) := Cut (TrimString first) "="%char in
      if negb ok then None
      else
        let name := TrimString name in
        if negb (isCookieNameValid name) then None
        else match parseCookieValue value true with
             | Some value => Some (fold_left set_attribute attributes (bare name value))
             | None => None
             end
  | [] => None
  end.

Definition readSetCookies (lines : list string) : list Cookie :=
  omap readSetCookie lines.

(** [sanitizeCookieName]: CR and LF become dashes. *)
Definition sanitizeCookieName (n : string) : string :=
  map_bytes (fun c => if Ascii.eqb c "010"%char || Ascii.eqb c "013"%char
                      then "-"%char else c) n.

(** [sanitizeCookieValue]: invalid bytes are dropped, and a value with a
    space or a comma is wrapped in double quotes. *)
Definition sanitizeCookieValue (v : string) : string :=
  let v := filter_bytes validCookieValueByte v in
  match v with
  | EmptyString => v
  | _ =>
      if any_byte (fun c => Ascii.eqb c " "%char || Ascii.eqb c ","%char) v
      then String dquote (v +:+ String dquote EmptyString)
      else v
  end.

(** The text [AddCookie] puts on the wire for a cookie. *)
Definition cookie_pair (c : Cookie) : string :=
  sanitizeCookieName (Name c) +:+ "=" +:+ sanitizeCookieValue (Value c).

End CookieLib.

(** [textproto.CanonicalMIMEHeaderKey]: [Cookie], [Set-Cookie],
    [Content-Type]; a key with a byte that is not a token byte is returned
    as it is. *)
Module Textproto.
Import Strings.

Fixpoint canon (upper : bool) (s : string) : string :=
  match s with
  | EmptyString => EmptyString
  | String c s' =>
      let c' := if upper then to_upper c else to_lower c in
      String c' (canon (Ascii.eqb c' "-"%char) s')
  end.

Definition CanonicalMIMEHeaderKey (s : string) : string :=
  if all_bytes is_token s then canon true s else s.

End Textproto.

(** ** The heap: Go objects that are shared by reference *)

(** References are indices into the stores of the heap. *)
Abbreviation loc := nat (only parsing).

(** A [[]string] is a reference to its backing array.  The proxy never
    reslices, so offset and capacity are not modelled: the slice spans
    the whole array. *)
Abbreviation slice := nat (only parsing).

(** A [url.URL] object; requests hold a pointer to one. *)
Record Url := mkUrl {
  url_Scheme : string;
  url_Host : string;
  url_Path : string;
  url_RawQuery : string;
}.

(** The body of a request or response as it arrives from a connection:
    the chunks successive reads will return, then end of file or an error. *)
Record ConnStream := mkConnStream {
  pending : list (list Byte.byte);
  failure : option string;
  closed : bool;
}.

Record Heap := mkHeap {
  arrays : list (list string);          (* backing arrays of []string *)
  hmaps : list (gmap string slice);     (* http.Header map objects *)
  buffers : list (list Byte.byte);           (* bytes.Buffer contents *)
  urls : list Url;                      (* url.URL objects *)
  streams : list ConnStream;            (* connection body streams *)
}.

(** State passing over the heap. *)
Definition HeapM (A : Type) : Type := Heap -> A * Heap.

Definition hret {A} (a : A) : HeapM A := fun h => (a, h).
Definition hbind {A B} (m : HeapM A) (f : A -> HeapM B) : HeapM B :=
  fun h => let '(a, h') := m h in f a h'.

Declare Scope heap_scope.
Delimit Scope heap_scope with heap.
Notation "x <- m ;; k" := (hbind m (fun x => k))
  (at level 100, m at next level, right associativity) : heap_scope.
Notation "m ;;; k" := (hbind m (fun _ => k))
  (at level 100, right associativity) : heap_scope.

Fixpoint forM_ {A} (l : list A) (body : A -> HeapM unit) : HeapM unit :=
  match l with
  | [] => hret tt
  | x :: l' => hbind (body x) (fun _ => forM_ l' body)
  end.

Module Mem.

Definition set_arrays (f : list (list string) -> list (list string)) (h : Heap) : Heap :=
  mkHeap (f (arrays h)) (hmaps h) (buffers h) (urls h) (streams h).
Definition set_hmaps (f : list (gmap string slice) -> list (gmap string slice)) (h : Heap) : Heap :=
  mkHeap (arrays h) (f (hmaps h)) (buffers h) (urls h) (streams h).
Definition set_buffers (f : list (list Byte.byte) -> list (list Byte.byte)) (h : Heap) : Heap :=
  mkHeap (arrays h) (hmaps h) (f (buffers h)) (urls h) (streams h).
Definition set_urls (f : list Url -> list Url) (h : Heap) : Heap :=
  mkHeap (arrays h) (hmaps h) (buffers h) (f (urls h)) (streams h).
Definition set_streams (f : list ConnStream -> list ConnStream) (h : Heap) : Heap :=
  mkHeap (arrays h) (hmaps h) (buffers h) (urls h) (f (streams h)).

(** [make([]string, n)]: a new array of [n] empty strings. *)
Definition make_slice (n : nat) : HeapM slice :=
  fun h => (length (arrays h), set_arrays (fun a => a ++ [replicate n EmptyString]) h).

(** A slice literal [[]string{...}]. *)
Definition slice_lit (xs : list string) : HeapM slice :=
  fun h => (length (arrays h), set_arrays (fun a => a ++ [xs]) h).

(** The elements of a slice; a nil slice has none. *)
Definition elems (h : Heap) (s : slice) : list string :=
  default [] (arrays h !! s).

(** [copy(dst, src)]: the first [min(len(dst), len(src))] elements. *)
Definition copy (dst src : slice) : HeapM unit :=
  fun h =>
    let xs := elems h src in
    (tt, set_arrays (alter (fun d => take (length d) xs ++ drop (length xs) d) dst) h).

(** [s[i] = x]; out of range Go panics and nothing is stored. *)
Definition store (s : slice) (i : nat) (x : string) : HeapM unit :=
  fun h => (tt, set_arrays (alter (fun d => <[i:=x]> d) s) h).

(** [http.Header{}] or [make(http.Header)]: a new, empty map object. *)
Definition make_map : HeapM loc :=
  fun h => (length (hmaps h), set_hmaps (fun m => m ++ [∅]) h).

(** The entries of a map object; a nil map has none. *)
Definition entries (h : Heap) (m : loc) : gmap string slice :=
  default ∅ (hmaps h !! m).

(** [m[k] = v] *)
Definition map_assign (m : loc) (k : string) (v : slice) : HeapM unit :=
  fun h => (tt, set_hmaps (alter (fun e => <[k:=v]> e) m) h).

(** [delete(m, k)] *)
Definition map_delete (m : loc) (k : string) : HeapM unit :=
  fun h => (tt, set_hmaps (alter (fun e => delete k e) m) h).

(** [new(bytes.Buffer)] *)
Definition new_Buffer : HeapM loc :=
  fun h => (length (buffers h), set_buffers (fun b => b ++ [[]]) h).

Definition contents (h : Heap) (b : loc) : list Byte.byte :=
  default [] (buffers h !! b).

(** [Write(p)] on a [bytes.Buffer] appends and never fails. *)
Definition Buffer_Write (b : loc) (p : list Byte.byte) : HeapM unit :=
  fun h => (tt, set_buffers (alter (fun c => c ++ p) b) h).

(** Reading a buffer to its end empties it. *)
Definition Buffer_drain (b : loc) : HeapM (list Byte.byte) :=
  fun h => (contents h b, set_buffers (alter (fun _ => []) b) h).

Definition stream_of (h : Heap) (s : loc) : ConnStream :=
  default (mkConnStream [] None false) (streams h !! s).

(** What a map object denotes: for every key, the strings of its slice. *)
Definition header_view (h : Heap) (m : loc) : gmap string (list string) :=
  elems h <$> entries h m.

End Mem.

(** ** Requests and their bodies *)

(** An [io.ReadCloser] held in a request's [Body]. *)
Inductive ReadCloser :=
| connBody (s : loc)     (* the body of a message read from a connection *)
| nopCloser (r : loc).   (* [nopCloser{b}], with [b] a [bytes.Buffer] *)

(** [http.Request]: the fields [DuplicateRequest] fills in.  [URL] is a
    pointer, [Header] a map reference. *)
Record Request := mkRequest {
  Method : string;
  URL : loc;
  Proto : string;
  ProtoMajor : Z;
  ProtoMinor : Z;
  Header : loc;
  Body : ReadCloser;
  Host : string;
  ContentLength : Z;
}.

Module IO.
Import Mem.

Definition ErrBodyReadAfterClose : string := "http: invalid Read on closed Body".

(** Reads a body until end of file or error: the chunks obtained and the
    error, if any.  The source is left drained. *)
Definition read_to_end (src : ReadCloser) : HeapM (list (list Byte.byte) * option string) :=
  match src with
  | connBody s => fun h =>
      let st := stream_of h s in
      if closed st then (([], Some ErrBodyReadAfterClose), h)
      else ((pending st, failure st),
            set_streams (alter (fun st => mkConnStream [] (failure st) (closed st)) s) h)
  | nopCloser b => fun h =>
      let '(c, h') := Buffer_drain b h in (([c], None), h')
  end.

(** The bytes a body delivers when read to its end. *)
Definition body_bytes (h : Heap) (src : ReadCloser) : list Byte.byte :=
  concat (fst (fst (read_to_end src h))).

(** The error, if any, that ends the reading of a body. *)
Definition body_error (h : Heap) (src : ReadCloser) : option string :=
  snd (fst (read_to_end src h)).

(** [io.MultiWriter(ws...).Write(p)]: [p] goes to each writer in turn. *)
Definition MultiWriter_Write (ws : list loc) (p : list Byte.byte) : HeapM unit :=
  forM_ ws (fun w => Buffer_Write w p).

(** [io.Copy(dst, src)] with [dst] a multi-writer over buffers: every
    chunk read is written to [dst]; returns the byte count and the read
    error. *)
Definition Copy (dst : list loc) (src : ReadCloser) : HeapM (Z * option string) :=
  (r <- read_to_end src ;;
   forM_ (fst r) (MultiWriter_Write dst) ;;;
   hret (Z.of_nat (length (concat (fst r))), snd r))%heap.

(** [ioutil.ReadAll(r)]: the bytes read and the read error. *)
Definition ReadAll (src : ReadCloser) : HeapM (list Byte.byte * option string) :=
  (r <- read_to_end src ;; hret (concat (fst r), snd r))%heap.

(** [Body.Close()] *)
Definition Close (src : ReadCloser) : HeapM unit :=
  match src with
  | connBody s => fun h =>
      (tt, set_streams (alter (fun st => mkConnStream (pending st) (failure st) true) s) h)
  | nopCloser _ => hret tt
  end.

End IO.

(** ** [DuplicateRequest] *)

Definition len (v : slice) : HeapM nat := fun h => (length (Mem.elems h v), h).

(** The body of the loop [for k, v := range request.Header]. *)
Definition copy_header_entry (header1 header2 : loc) (kv : string * slice) : HeapM unit :=
  (let '(k, v) := kv in
   n <- len v ;;
   values1 <- Mem.make_slice n ;;
   Mem.copy values1 v ;;;
   Mem.map_assign header1 k values1 ;;;
   values2 <- Mem.make_slice n ;;
   Mem.copy values2 v ;;;
   Mem.map_assign header2 k values2)%heap.

(** Go leaves the order of [range] over a map open; the entries are
    visited here in the order of [map_to_list]. *)
Definition DuplicateRequest (request : Request) : HeapM (Request * Request) :=
  (b1 <- Mem.new_Buffer ;;
   b2 <- Mem.new_Buffer ;;
   let w := [b1; b2] in
   _ <- IO.Copy w (Body request) ;;
   header1 <- Mem.make_map ;;
   header2 <- Mem.make_map ;;
   hdr <- (fun h => (Mem.entries h (Header request), h)) ;;
   forM_ (map_to_list hdr) (copy_header_entry header1 header2) ;;;
   let request1 :=
     {| Method := Method request;
        URL := URL request;
        Proto := "HTTP/1.1";
        ProtoMajor := 1;
        ProtoMinor := 1;
        Header := header1;
        Body := nopCloser b1;
        Host := Host request;
        ContentLength := ContentLength request |} in
   let request2 :=
     {| Method := Method request;
        URL := URL request;
        Proto := "HTTP/1.1";
        ProtoMajor := 1;
        ProtoMinor := 1;
        Header := header2;
        Body := nopCloser b2;
        Host := Host request;
        ContentLength := ContentLength request |} in
   (* deferred: request.Body.Close() *)
   IO.Close (Body request) ;;;
   hret (request1, request2))%heap.

(** A small heap for examples: a GET request with two cookies on one
    line, an [Accept] header with two values, and a five-byte body. *)
Module Sample.

Definition body : list Byte.byte := [x68; x65; x6c; x6c; x6f]%byte.

Definition heap0 (cookie_line : string) (fail : option string) : Heap :=
  {| arrays := [[cookie_line]; ["text/html"; "text/plain"]];
     hmaps := [{["Cookie" := 0%nat]} ∪ {["Accept" := 1%nat]}];
     buffers := [];
     urls := [mkUrl "http" "example.org" "/index.php" "a=1"];
     streams := [mkConnStream [[x68; x65]%byte; [x6c; x6c; x6f]%byte] fail false] |}.

Definition request0 : Request :=
  {| Method := "GET"; URL := 0%nat; Proto := "HTTP/1.0"; ProtoMajor := 1; ProtoMinor := 0;
     Header := 0%nat; Body := connBody 0; Host := "example.org"; ContentLength := 5 |}.

End Sample.

(** ** Responses, the session cache and the response writer *)

(** [http.Response]: status, headers and a body still to be read. *)
Record Response := mkResponse {
  StatusCode : Z;
  resp_Header : gmap string (list string);
  resp_Body : ReadCloser;
}.

(** [resp.Cookies()] parses the [Set-Cookie] lines. *)
Definition Cookies (resp : Response) : list Cookie :=
  CookieLib.readSetCookies (default [] (resp_Header resp !! "Set-Cookie")).

Fixpoint FindCookie_range (cs : list Cookie) (cookieName : string) : option Cookie :=
  match cs with
  | [] => None
  | c :: cs' =>
      if Strings.EqualFold (Name c) cookieName then Some c
      else FindCookie_range cs' cookieName
  end.

Definition FindCookie (resp : Response) (cookieName : string) : option Cookie :=
  FindCookie_range (Cookies resp) cookieName.

(** [go-cache]: items with an expiry in nanoseconds, [0] for none. *)
Record Item := mkItem { Object : string; Expiration : Z }.

Record Cache := mkCache {
  defaultExpiration : Z;
  items : gmap string Item;
}.

Module GoCache.

Definition DefaultExpiration : Z := 0.
Definition NoExpiration : Z := -1.

(** [c.Get(k)] at time [now]: the object, unless absent or expired. *)
Definition Get (c : Cache) (now : Z) (k : string) : option string :=
  match items c !! k with
  | None => None
  | Some item =>
      if (0 <? Expiration item)%Z && (Expiration item <? now)%Z then None
      else Some (Object item)
  end.

(** [c.Set(k, x, d)] at time [now]. *)
Definition Set_ (c : Cache) (now : Z) (k x : string) (d : Z) : Cache :=
  let d := if (d =? DefaultExpiration)%Z then defaultExpiration c else d in
  let e := if (0 <? d)%Z then (now + d)%Z else 0%Z in
  mkCache (defaultExpiration c) (<[k := mkItem x e]> (items c)).

End GoCache.

(** The caller-facing [http.ResponseWriter]: the header map handed out by
    [Header()], the status and headers sent by [WriteHeader], and the body
    bytes written so far. *)
Record ResponseWriter := mkWriter {
  rw_header : gmap string (list string);
  rw_status : option Z;
  rw_sent_header : gmap string (list string);
  rw_body : list Byte.byte;
}.

Module Writer.

Definition fresh : ResponseWriter := mkWriter ∅ None ∅ [].

(** [w.Header()[k] = v] *)
Definition assign (k : string) (v : list string) (w : ResponseWriter) : ResponseWriter :=
  mkWriter (<[k := v]> (rw_header w)) (rw_status w) (rw_sent_header w) (rw_body w).

(** [checkWriteHeaderCode]: the status codes [WriteHeader] takes. *)
Definition valid_code (code : Z) : bool := ((100 <=? code) && (code <=? 999))%Z.

(** [w.WriteHeader(code)] with a code it takes: sends the status line
    with the headers set so far; a second call is ignored. *)
Definition WriteHeader (code : Z) (w : ResponseWriter) : ResponseWriter :=
  match rw_status w with
  | Some _ => w
  | None => mkWriter (rw_header w) (Some code) (rw_header w) (rw_body w)
  end.

(** Whether [w.WriteHeader(code)] returns: it does when a status was
    sent before (the call is ignored) and when the code is one it takes;
    otherwise it panics. *)
Definition takes (w : ResponseWriter) (code : Z) : bool :=
  match rw_status w with
  | Some _ => true
  | None => valid_code code
  end.

(** [w.Write(p)]: sends [200] first when no status was sent yet. *)
Definition Write (p : list Byte.byte) (w : ResponseWriter) : ResponseWriter :=
  let w := WriteHeader 200 w in
  mkWriter (rw_header w) (rw_status w) (rw_sent_header w) (rw_body w ++ p).

End Writer.

(** ** The world outside the handler *)

(** A request as a backend sees it when it is written to a connection. *)
Record RequestView := mkView {
  v_Method : string;
  v_URL : option Url;
  v_Proto : string;
  v_Header : gmap string (list string);
  v_Body : list Byte.byte;
  v_Host : string;
  v_ContentLength : Z;
}.

Definition view (h : Heap) (r : Request) : RequestView :=
  {| v_Method := Method r;
     v_URL := urls h !! URL r;
     v_Proto := Proto r;
     v_Header := Mem.header_view h (Header r);
     v_Body := IO.body_bytes h (Body r);
     v_Host := Host r;
     v_ContentLength := ContentLength r |}.

(** What a backend sends back. *)
Record WireResponse := mkWire {
  wire_status : Z;
  wire_header : gmap string (list string);
  wire_body : list (list Byte.byte);
  wire_failure : option string;
}.

(** The result of a call into the network: a value, an [error], or a panic. *)
Inductive Outcome (A : Type) :=
| Ok (a : A)
| Err (e : string)
| Panic (v : string).
Arguments Ok {A} a.
Arguments Err {A} e.
Arguments Panic {A} v.

(** One target as the proxy meets it during one dispatch: how the dial,
    the write of the request and the read of the response end. *)
Record Backend := mkBackend {
  on_dial : Outcome unit;
  on_write : Outcome unit;
  on_read : Outcome WireResponse;
}.

Inductive Event :=
| EvDial (addr : string) (timeout : Z)
| EvWrite (addr : string) (r : RequestView)
| EvRead (addr : string)
| EvClose (addr : string)
| EvCacheSet (k x : string).

(** Console flags. *)
Record Flags := mkFlags {
  debug : bool;
  productionTimeout : Z;
  alternateTimeout : Z;
}.

(** [handler] contains the address of the main target and the one of the
    alternative target.  Its third field, [SessionCache], points to the
    one cache of the process, which is the [session_cache] of the world. *)
Record handler := mkHandler {
  Target : string;
  Alternative : string;
}.

(** The variables captured by the function literal of the [go] statement. *)
Record Closure := mkClosure {
  cl_h : handler;
  cl_cookieName : string;
  cl_alternativeRequest : Request;
  cl_productionCookie : option Cookie;
}.

Record World := mkWorld {
  heap : Heap;
  session_cache : Cache;
  clock : Z;                      (* time.Now(), in nanoseconds *)
  stdout : list string;           (* one entry per fmt.Print call *)
  trace : list Event;             (* network and cache calls, oldest first *)
  writer : ResponseWriter;        (* the handler's w *)
  spawned : list Closure;         (* goroutines started and not yet run *)
}.

(** ** Go functions as state passing over the world, with panics *)

Inductive Res (A : Type) :=
| Done (a : A)
| Panicking (v : string).
Arguments Done {A} a.
Arguments Panicking {A} v.

Definition Go (A : Type) : Type := World -> Res A * World.

Definition ret {A} (a : A) : Go A := fun σ => (Done a, σ).

Definition bind {A B} (m : Go A) (f : A -> Go B) : Go B :=
  fun σ =>
    match m σ with
    | (Done a, σ') => f a σ'
    | (Panicking v, σ') => (Panicking v, σ')
    end.

Definition panic {A} (v : string) : Go A := fun σ => (Panicking v, σ).

Declare Scope go_scope.
Delimit Scope go_scope with go.
Notation "x <- m ;; k" := (bind m (fun x => k))
  (at level 100, m at next level, right associativity) : go_scope.
Notation "m ;;; k" := (bind m (fun _ => k))
  (at level 100, right associativity) : go_scope.

(** [defer d] in front of [m]: [d] runs when [m] returns or panics. *)
Definition defer {A} (d : Go unit) (m : Go A) : Go A :=
  fun σ =>
    match m σ with
    | (r, σ') =>
        match d σ' with
        | (Done _, σ'') => (r, σ'')
        | (Panicking v, σ'') => (Panicking v, σ'')
        end
    end.

(** [defer func() { if r := recover(); r != nil { onpanic(r) } }()] *)
Definition defer_recover (onpanic : string -> Go unit) (m : Go unit) : Go unit :=
  fun σ =>
    match m σ with
    | (Done _, σ') => (Done tt, σ')
    | (Panicking v, σ') => onpanic v σ'
    end.

Fixpoint range {A} (l : list A) (body : A -> Go unit) : Go unit :=
  match l with
  | [] => ret tt
  | x :: l' => bind (body x) (fun _ => range l' body)
  end.

Module W.

Definition set_heap (h : Heap) (σ : World) : World :=
  mkWorld h (session_cache σ) (clock σ) (stdout σ) (trace σ) (writer σ) (spawned σ).
Definition set_cache (c : Cache) (σ : World) : World :=
  mkWorld (heap σ) c (clock σ) (stdout σ) (trace σ) (writer σ) (spawned σ).
Definition set_clock (t : Z) (σ : World) : World :=
  mkWorld (heap σ) (session_cache σ) t (stdout σ) (trace σ) (writer σ) (spawned σ).
Definition set_stdout (o : list string) (σ : World) : World :=
  mkWorld (heap σ) (session_cache σ) (clock σ) o (trace σ) (writer σ) (spawned σ).
Definition set_trace (t : list Event) (σ : World) : World :=
  mkWorld (heap σ) (session_cache σ) (clock σ) (stdout σ) t (writer σ) (spawned σ).
Definition set_writer (w : ResponseWriter) (σ : World) : World :=
  mkWorld (heap σ) (session_cache σ) (clock σ) (stdout σ) (trace σ) w (spawned σ).
Definition set_spawned (g : list Closure) (σ : World) : World :=
  mkWorld (heap σ) (session_cache σ) (clock σ) (stdout σ) (trace σ) (writer σ) g.

End W.

(** A heap computation run inside the world. *)
Definition liftH {A} (m : HeapM A) : Go A :=
  fun σ => let '(a, h) := m (heap σ) in (Done a, W.set_heap h σ).

Definition emit (e : Event) : Go unit :=
  fun σ => (Done tt, W.set_trace (trace σ ++ [e]) σ).

Definition on_writer (f : ResponseWriter -> ResponseWriter) : Go unit :=
  fun σ => (Done tt, W.set_writer (f (writer σ)) σ).

(** The [go] statement. *)
Definition go_ (c : Closure) : Go unit :=
  fun σ => (Done tt, W.set_spawned (spawned σ ++ [c]) σ).

Module Fmt.

Definition nl : string := String "010"%char EmptyString.

Fixpoint join (xs : list string) : string :=
  match xs with
  | [] => EmptyString
  | [x] => x
  | x :: xs' => x +:+ " " +:+ join xs'
  end.

(** [fmt.Printf] with the format already expanded to [s]. *)
Definition Printf (s : string) : Go unit :=
  fun σ => (Done tt, W.set_stdout (stdout σ ++ [s]) σ).

(** [fmt.Println(a...)]: operands separated by spaces, then a newline. *)
Definition Println (xs : list string) : Go unit := Printf (join xs +:+ nl).

(** [fmt.Sprintf("%s", v)] of a string is the string. *)
Definition Sprintf_s (v : string) : string := v.

(** [%v] of an [int]: its decimal digits, with a minus sign when negative. *)
Definition Sprint_int (n : Z) : string := NilZero.string_of_int (Z.to_int n).

End Fmt.

(** [w.WriteHeader(code)] as the handler calls it: a call after a status
    was sent is ignored; otherwise a code outside 100..999 makes
    [net/http] panic, and any other code is sent with the headers. *)
Definition ResponseWriter_WriteHeader (code : Z) : Go unit :=
  fun σ =>
    if Writer.takes (writer σ) code
    then on_writer (Writer.WriteHeader code) σ
    else panic ("invalid WriteHeader code " +:+ Fmt.Sprint_int code) σ.

(** [net/http] methods on requests and header maps. *)
Module Http.
Import Mem.

Definition ErrNoCookie : string := "http: named cookie not present".

(** [h[key]] as strings. *)
Definition values (m : loc) (key : string) : HeapM (list string) :=
  fun h => (default [] (header_view h m !! key), h).

(** [r.Cookie(name)]: the first cookie of that exact name. *)
Definition Request_Cookie (r : Request) (name : string) : HeapM (option Cookie * option string) :=
  (lines <- values (Header r) "Cookie" ;;
   match CookieLib.readCookies lines name with
   | c :: _ => hret (Some c, None)
   | [] => hret (None, Some ErrNoCookie)
   end)%heap.

(** [h.Del(key)] *)
Definition Del (m : loc) (key : string) : HeapM unit :=
  map_delete m (Textproto.CanonicalMIMEHeaderKey key).

(** [h.Get(key)]: the first value, or the empty string. *)
Definition Get (m : loc) (key : string) : HeapM string :=
  (vs <- values m (Textproto.CanonicalMIMEHeaderKey key) ;;
   hret (match vs with v :: _ => v | [] => EmptyString end))%heap.

(** [h.Set(key, value)]: [h[key] = []string{value}] *)
Definition Set_ (m : loc) (key value : string) : HeapM unit :=
  (s <- slice_lit [value] ;;
   map_assign m (Textproto.CanonicalMIMEHeaderKey key) s)%heap.

(** [h.Add(key, value)]: [h[key] = append(h[key], value)].  The
    appended slice is given its own array. *)
Definition Add (m : loc) (key value : string) : HeapM unit :=
  (vs <- values m (Textproto.CanonicalMIMEHeaderKey key) ;;
   s <- slice_lit (vs ++ [value]) ;;
   map_assign m (Textproto.CanonicalMIMEHeaderKey key) s)%heap.

(** [r.AddCookie(c)]: appends [name=value] to the [Cookie] line, or
    starts one. *)
Definition AddCookie (r : Request) (c : Cookie) : HeapM unit :=
  (let s := CookieLib.cookie_pair c in
   old <- Get (Header r) "Cookie" ;;
   match old with
   | EmptyString => Set_ (Header r) "Cookie" s
   | _ => Set_ (Header r) "Cookie" (old +:+ "; " +:+ s)
   end)%heap.

End Http.

(** [h.SessionCache.Get] and [h.SessionCache.Set]. *)
Definition SessionCache_Get (k : string) : Go (string * bool) :=
  fun σ =>
    match GoCache.Get (session_cache σ) (clock σ) k with
    | Some x => (Done (x, true), σ)
    | None => (Done (EmptyString, false), σ)
    end.

Definition SessionCache_Set (k x : string) (d : Z) : Go unit :=
  fun σ =>
    (Done tt,
     W.set_trace (trace σ ++ [EvCacheSet k x])
       (W.set_cache (GoCache.Set_ (session_cache σ) (clock σ) k x d) σ)).

(** Connections: [net.DialTimeout], and [Write], [Read] and [Close] of
    [httputil.ClientConn].  A connection is known by its address. *)
Module Net.

Definition Second : Z := 1000000000.

(** [time.Duration] is an [int64]: its arithmetic wraps around. *)
Definition int64 (z : Z) : Z := ((z + 2 ^ 63) mod 2 ^ 64 - 2 ^ 63)%Z.

(** [time.Duration(n) * time.Second], in nanoseconds. *)
Definition Seconds (n : Z) : Z := int64 (n * Second).

Definition DialTimeout (b : Backend) (addr : string) (timeout : Z) : Go (string + string) :=
  (emit (EvDial addr timeout) ;;;
   match on_dial b with
   | Ok _ => ret (inl addr)
   | Err e => ret (inr e)
   | Panic v => panic v
   end)%go.

Definition Write (b : Backend) (conn : string) (r : Request) : Go (option string) :=
  fun σ =>
    let rv := view (heap σ) r in
    (emit (EvWrite conn rv) ;;;
     match on_write b with
     | Ok _ => ret None
     | Err e => ret (Some e)
     | Panic v => panic v
     end)%go σ.

(** The body of a response that arrives becomes a new stream. *)
Definition new_stream (wr : WireResponse) : HeapM loc :=
  fun h => (length (streams h),
            Mem.set_streams (fun l => l ++ [mkConnStream (wire_body wr) (wire_failure wr) false]) h).

Definition Read (b : Backend) (conn : string) (r : Request) : Go (Response + string) :=
  (emit (EvRead conn) ;;;
   match on_read b with
   | Ok wr =>
       s <- liftH (new_stream wr) ;;
       ret (inl (mkResponse (wire_status wr) (wire_header wr) (connBody s)))
   | Err e => ret (inr e)
   | Panic v => panic v
   end)%go.

Definition Close (conn : string) : Go unit := emit (EvClose conn).

End Net.

(** ** The handler *)

Definition cookieName : string := "PHPSESSID".

(** The cookie built on a cache hit: the inbound cookie with the value
    replaced by the alternative session id. *)
Definition alternateCookie (cookie : Cookie) (alternativeSessionId : string) : Cookie :=
  {| Name := Name cookie;
     Value := Fmt.Sprintf_s alternativeSessionId;
     Path := Path cookie;
     Domain := Domain cookie;
     Expires := Expires cookie;
     MaxAge := MaxAge cookie;
     Secure := Secure cookie;
     HttpOnly := HttpOnly cookie |}.

(** First part of [ServeHTTP]: duplicate the request, look the session
    cookie up and rewrite the cookie of the alternative request on a hit.
    Returns [(alternativeRequest, productionRequest)]. *)
Definition ServeHTTP_rewrite (req : Request) : Go (Request * Request) :=
  (dup <- liftH (DuplicateRequest req) ;;
   let '(alternativeRequest, productionRequest) := dup in
   found <- liftH (Http.Request_Cookie req cookieName) ;;
   let '(cookie, err) := found in
   match err with
   | Some err =>
       Fmt.Printf ("Failed to read cookie from request " +:+ cookieName +:+ ": " +:+ err +:+ Fmt.nl)
   | None => ret tt
   end ;;;
   match cookie with
   | Some cookie =>
       hit <- SessionCache_Get (Value cookie) ;;
       let '(alternativeSessionId, found) := hit in
       if found then
         Fmt.Println ["lookup HIT"; Value cookie; alternativeSessionId] ;;;
         liftH (Http.Del (Header alternativeRequest) "Cookie") ;;;
         liftH (Http.AddCookie alternativeRequest (alternateCookie cookie alternativeSessionId))
       else
         Fmt.Println ["lookup MISS"; Value cookie]
   | None => ret tt
   end ;;;
   ret (alternativeRequest, productionRequest))%go.

(** The function literal of the [go] statement: the dispatch to the
    alternative target and the cache update. *)
Definition ServeHTTP_func1 (fl : Flags) (alt : Backend) (c : Closure) : Go unit :=
  let h := cl_h c in
  let alternativeRequest := cl_alternativeRequest c in
  defer_recover
    (fun r => if debug fl then Fmt.Println ["Recovered in f"; r] else ret tt)
    (dialed <- Net.DialTimeout alt (Alternative h) (Net.Seconds (alternateTimeout fl)) ;;
     match dialed with
     | inr err =>
         if debug fl then Fmt.Printf ("Failed to connect to " +:+ Alternative h +:+ Fmt.nl)
         else ret tt
     | inl clientHttpConn =>
         defer (Net.Close clientHttpConn)
           (err <- Net.Write alt clientHttpConn alternativeRequest ;;
            match err with
            | Some err =>
                if debug fl
                then Fmt.Printf ("Failed to send to " +:+ Alternative h +:+ ": " +:+ err +:+ Fmt.nl)
                else ret tt
            | None =>
                got <- Net.Read alt clientHttpConn alternativeRequest ;;
                match got with
                | inr err =>
                    if debug fl
                    then Fmt.Printf ("Failed to receive from " +:+ Alternative h +:+ ": " +:+ err +:+ Fmt.nl)
                    else ret tt
                | inl alternativeResponse =>
                    match cl_productionCookie c with
                    | Some productionCookie =>
                        match FindCookie alternativeResponse (cl_cookieName c) with
                        | Some alternativeCookie =>
                            SessionCache_Set (Value productionCookie) (Value alternativeCookie)
                              GoCache.DefaultExpiration
                        | None => ret tt
                        end
                    | None => ret tt
                    end
                end
            end)
     end)%go.

(** Second part of [ServeHTTP]: the dispatch to the production target, the
    relay of its response and the start of the goroutine. *)
Definition ServeHTTP_dispatch (fl : Flags) (prod : Backend) (h : handler)
    (alternativeRequest productionRequest : Request) : Go unit :=
  (dialed <- Net.DialTimeout prod (Target h) (Net.Seconds (productionTimeout fl)) ;;
   match dialed with
   | inr err => Fmt.Printf ("Failed to connect to " +:+ Target h +:+ Fmt.nl)
   | inl clientHttpConn =>
       defer (Net.Close clientHttpConn)
         (err <- Net.Write prod clientHttpConn productionRequest ;;
          match err with
          | Some err => Fmt.Printf ("Failed to send to " +:+ Target h +:+ ": " +:+ err +:+ Fmt.nl)
          | None =>
              got <- Net.Read prod clientHttpConn productionRequest ;;
              match got with
              | inr err =>
                  Fmt.Printf ("Failed to receive from " +:+ Target h +:+ ": " +:+ err +:+ Fmt.nl)
              | inl resp =>
                  let productionCookie := FindCookie resp cookieName in
                  range (map_to_list (resp_Header resp))
                    (fun kv => on_writer (Writer.assign (fst kv) (snd kv))) ;;;
                  ResponseWriter_WriteHeader (StatusCode resp) ;;;
                  body <- liftH (IO.ReadAll (resp_Body resp)) ;;
                  on_writer (Writer.Write (fst body)) ;;;
                  go_ (mkClosure h cookieName alternativeRequest productionCookie) ;;;
                  (* the last statement defers a recover; nothing runs after it *)
                  defer_recover
                    (fun r => if debug fl then Fmt.Println ["Recovered in f"; r] else ret tt)
                    (ret tt)
              end
          end)
   end)%go.

(** [ServeHTTP] duplicates the incoming request and does the request to
    the target and to the alternative target, discarding the alternative
    response. *)
Definition ServeHTTP (fl : Flags) (prod : Backend) (h : handler) (req : Request) : Go unit :=
  (copies <- ServeHTTP_rewrite req ;;
   ServeHTTP_dispatch fl prod h (fst copies) (snd copies))%go.

(** Runs the goroutines that were started, oldest first, each against the
    alternative backend; the results are those of the functions run. *)
Fixpoint run_closures (fl : Flags) (alt : Backend) (cs : list Closure) (σ : World)
  : list (Res unit) * World :=
  match cs with
  | [] => ([], σ)
  | c :: cs' =>
      let '(r, σ') := ServeHTTP_func1 fl alt c σ in
      let '(rs, σ'') := run_closures fl alt cs' σ' in
      (r :: rs, σ'')
  end.

Definition run_spawned (fl : Flags) (alt : Backend) (σ : World) : list (Res unit) * World :=
  run_closures fl alt (spawned σ) (W.set_spawned [] σ).

(** One request cycle: the handler runs to its end, then, at time [later],
    the goroutine it started, if any. *)
Definition request_cycle (fl : Flags) (prod alt : Backend) (h : handler) (req : Request)
    (later : Z) (σ : World) : Res unit * list (Res unit) * World :=
  let '(r, σ1) := ServeHTTP fl prod h req σ in
  let '(rs, σ2) := run_spawned fl alt (W.set_clock later σ1) in
  (r, rs, σ2).

(** ** Vocabulary of the properties *)

(** What the holder of a header map can do to it. *)
Inductive HeaderOp :=
| OpSet (key value : string)                 (* hdr.Set(key, value) *)
| OpAdd (key value : string)                 (* hdr.Add(key, value) *)
| OpDel (key : string)                       (* hdr.Del(key) *)
| OpAssign (k : string) (vs : list string)   (* hdr[k] = []string{vs...} *)
| OpDelete (k : string)                      (* delete(hdr, k) *)
| OpStore (k : string) (i : nat) (x : string). (* hdr[k][i] = x *)

Definition apply_op (m : loc) (op : HeaderOp) : HeapM unit :=
  match op with
  | OpSet key value => Http.Set_ m key value
  | OpAdd key value => Http.Add m key value
  | OpDel key => Http.Del m key
  | OpAssign k vs => (s <- Mem.slice_lit vs ;; Mem.map_assign m k s)%heap
  | OpDelete k => Mem.map_delete m k
  | OpStore k i x => fun h =>
      match Mem.entries h m !! k with
      | Some s => Mem.store s i x h
      | None => (tt, h)
      end
  end.

(** The heap after a sequence of operations on the header map [m]. *)
Definition mutate (m : loc) (ops : list HeaderOp) (h : Heap) : Heap :=
  snd (forM_ ops (apply_op m) h).

(** The references of a request's header point into the heap (Go has no
    dangling references). *)
Definition wf_request (h : Heap) (r : Request) : Prop :=
  Header r < length (hmaps h) /\
  map_Forall (fun _ s => s < length (arrays h)) (Mem.entries h (Header r)).

(** Whether a dispatch got a response, and which. *)
Definition reply (b : Backend) : option WireResponse :=
  match on_dial b, on_write b, on_read b with
  | Ok _, Ok _, Ok wr => Some wr
  | _, _, _ => None
  end.

(** The response the handler relays: the production dispatch got it and
    the writer takes its status code. *)
Definition relayed (prod : Backend) (w : ResponseWriter) : option WireResponse :=
  match reply prod with
  | Some wr => if Writer.takes w (wire_status wr) then Some wr else None
  | None => None
  end.

(** A dispatch that ends in an [error] at the dial, the write or the read. *)
Definition dispatch_error (b : Backend) : Prop :=
  (exists e, on_dial b = Err e) \/
  (on_dial b = Ok tt /\ exists e, on_write b = Err e) \/
  (on_dial b = Ok tt /\ on_write b = Ok tt /\ exists e, on_read b = Err e).

(** A dispatch that panics at the dial, the write or the read. *)
Definition dispatch_panic (b : Backend) : Prop :=
  (exists v, on_dial b = Panic v) \/
  (on_dial b = Ok tt /\ exists v, on_write b = Panic v) \/
  (on_dial b = Ok tt /\ on_write b = Ok tt /\ exists v, on_read b = Panic v).

(** The cookies of a response as it comes off the wire. *)
Definition wire_cookie (wr : WireResponse) (name : string) : option Cookie :=
  FindCookie (mkResponse (wire_status wr) (wire_header wr) (connBody 0)) name.

(** The session cookie of the inbound request, as [req.Cookie] reads it. *)
Definition session_cookie (h : Heap) (req : Request) : option Cookie :=
  fst (fst (Http.Request_Cookie req cookieName h)).

(** The heap the first part of the handler leaves, from the heap [h1]
    that [DuplicateRequest] left: on a cache hit the [Cookie] header of
    the alternative request is deleted and the new cookie added. *)
Definition rewritten_heap (req alternativeRequest : Request) (c : Cache) (now : Z)
    (h1 : Heap) : Heap :=
  match session_cookie h1 req with
  | Some cookie =>
      match GoCache.Get c now (Value cookie) with
      | Some alternativeSessionId =>
          snd (Http.AddCookie alternativeRequest (alternateCookie cookie alternativeSessionId)
                 (snd (Http.Del (Header alternativeRequest) "Cookie" h1)))
      | None => h1
      end
  | None => h1
  end.

(** The addresses dialled in a trace, and the cache writes in a trace. *)
Definition dials (t : list Event) : list string :=
  omap (fun e => match e with EvDial addr _ => Some addr | _ => None end) t.

Definition cache_sets (t : list Event) : list (string * string) :=
  omap (fun e => match e with EvCacheSet k x => Some (k, x) | _ => None end) t.

(** The session mapping a request cycle has to record: the value of the
    production response's session cookie and the value of the alternative
    response's session cookie, when both dispatches got a response and
    both responses carry the cookie. *)
Definition new_mapping (prod alt : Backend) : option (string * string) :=
  match reply prod, reply alt with
  | Some wp, Some wa =>
      match wire_cookie wp cookieName, wire_cookie wa cookieName with
      | Some productionCookie, Some alternativeCookie =>
          Some (Value productionCookie, Value alternativeCookie)
      | _, _ => None
      end
  | _, _ => None
  end.

(** The mapping a request cycle records: the one of the two responses,
    when the handler relays the production response and so reaches its
    [go] statement. *)
Definition cycle_mapping (prod alt : Backend) (w : ResponseWriter) : option (string * string) :=
  match relayed prod w with
  | Some _ => new_mapping prod alt
  | None => None
  end.

(** The mapping the goroutine has to record, given what it captured. *)
Definition closure_mapping (alt : Backend) (c : Closure) : option (string * string) :=
  match cl_productionCookie c, reply alt with
  | Some productionCookie, Some wa =>
      match wire_cookie wa (cl_cookieName c) with
      | Some alternativeCookie => Some (Value productionCookie, Value alternativeCookie)
      | None => None
      end
  | _, _ => None
  end.

(** What the goroutine prints, by the way its dispatch ends. *)
Definition shadow_log (fl : Flags) (alt : Backend) (addr : string) : list string :=
  if debug fl then
    match on_dial alt with
    | Err _ => ["Failed to connect to " +:+ addr +:+ Fmt.nl]
    | Panic v => [Fmt.join ["Recovered in f"; v] +:+ Fmt.nl]
    | Ok _ =>
        match on_write alt with
        | Err e => ["Failed to send to " +:+ addr +:+ ": " +:+ e +:+ Fmt.nl]
        | Panic v => [Fmt.join ["Recovered in f"; v] +:+ Fmt.nl]
        | Ok _ =>
            match on_read alt with
            | Err e => ["Failed to receive from " +:+ addr +:+ ": " +:+ e +:+ Fmt.nl]
            | Panic v => [Fmt.join ["Recovered in f"; v] +:+ Fmt.nl]
            | Ok _ => []
            end
        end
    end
  else [].

(** [records prod alt k x]: both dispatches got a response, the production
    response carries the session cookie with value [k] and the alternative
    response carries it with value [x]. *)
Definition records (prod alt : Backend) (k x : string) : Prop :=
  exists wp wa productionCookie alternativeCookie,
    reply prod = Some wp /\ wire_cookie wp cookieName = Some productionCookie /\
    reply alt = Some wa /\ wire_cookie wa cookieName = Some alternativeCookie /\
    k = Value productionCookie /\ x = Value alternativeCookie.



(** Worlds and backends for the end-to-end scenarios. *)
Module Scenario.

Definition flags : Flags := mkFlags true 3 1.
Definition proxy : handler := mkHandler "prod:8080" "alt:8081".

Definition day : Z := 86400000000000.

(** A backend that answers [200 ok] and sets one cookie. *)
Definition answers (set_cookie : string) : Backend :=
  mkBackend (Ok tt) (Ok tt)
    (Ok (mkWire 200 ({["Set-Cookie" := [set_cookie]]} ∪ {["Content-Type" := ["text/plain"]]})
           [[x6f; x6b]%byte] None)).

(** A backend that answers with the given status code and sets one cookie. *)
Definition answers_with (status : Z) (set_cookie : string) : Backend :=
  mkBackend (Ok tt) (Ok tt)
    (Ok (mkWire status {["Set-Cookie" := [set_cookie]]} [[x6f; x6b]%byte] None)).

Definition unreachable : Backend :=
  mkBackend (Err "dial tcp: i/o timeout") (Ok tt) (Err "unused").

Definition faulty : Backend :=
  mkBackend (Ok tt) (Panic "runtime error") (Err "unused").

Definition empty_cache : Cache := mkCache day ∅.
Definition known_session : Cache := mkCache day {["abc" := mkItem "qqq" (1000 + day)]}.

(** The sample request arrives at time [1000] with the given [Cookie]
    line; [fail] is the error, if any, that ends its body. *)
Definition world (cookie_line : string) (fail : option string) (c : Cache) : World :=
  mkWorld (Sample.heap0 cookie_line fail) c 1000 [] [] Writer.fresh [].

End Scenario.

(** ** More vocabulary: [main], and what a trace shows *)

Definition Minute : Z := 60 * Net.Second.
Definition Hour : Z := 60 * Minute.

(** [cache.New(defaultExpiration, cleanupInterval)]: an empty cache.  The
    janitor that runs every [cleanupInterval] only deletes items that
    [Get] already reports as absent. *)
Definition cache_New (defaultExpiration cleanupInterval : Z) : Cache :=
  mkCache defaultExpiration ∅.

(** The cache [main] gives its handler: 24h expiry, swept every hour. *)
Definition main_SessionCache : Cache := cache_New (24 * Hour) (60 * Minute).

(** The handler [main] builds from the flags [-a] and [-b]. *)
Definition main_handler (targetProduction altTarget : string) : handler :=
  {| Target := targetProduction; Alternative := altTarget |}.

(** The connections closed in a trace, the requests written in a trace
    and the dials of a trace with their timeouts. *)
Definition closes (t : list Event) : list string :=
  omap (fun e => match e with EvClose addr => Some addr | _ => None end) t.

Definition writes (t : list Event) : list (string * RequestView) :=
  omap (fun e => match e with EvWrite addr rv => Some (addr, rv) | _ => None end) t.

Definition dial_timeouts (t : list Event) : list (string * Z) :=
  omap (fun e => match e with EvDial addr d => Some (addr, d) | _ => None end) t.

(** The events a run appended to a trace. *)
Definition appended (before after : list Event) : list Event :=
  drop (length before) after.

(** A dispatch whose dial succeeded. *)
Definition connected (b : Backend) : bool :=
  match on_dial b with Ok _ => true | _ => false end.

(** A cookie value made of bytes a cookie may carry, as the parsers of
    [net/http] return it. *)
Definition valid_value (v : string) : Prop :=
  Strings.all_bytes CookieLib.validCookieValueByte v = true.

(** The events of one dispatch to [addr]: the dial; after a successful
    dial the write of the request and, at the end, the close of the
    connection; after a successful write the read in between. *)
Definition dispatch_events (addr : string) (timeout : Z) (b : Backend) (rv : RequestView)
  : list Event :=
  EvDial addr timeout ::
  match on_dial b with
  | Ok _ =>
      EvWrite addr rv ::
      match on_write b with
      | Ok _ => [EvRead addr; EvClose addr]
      | _ => [EvClose addr]
      end
  | _ => []
  end.

(** The inbound request as a backend is to see it: its own fields and
    body, protocol HTTP/1.1, and the given header. *)
Definition forwarded (h : Heap) (req : Request) (hdr : gmap string (list string)) : RequestView :=
  {| v_Method := Method req;
     v_URL := urls h !! URL req;
     v_Proto := "HTTP/1.1";
     v_Header := hdr;
     v_Body := IO.body_bytes h (Body req);
     v_Host := Host req;
     v_ContentLength := ContentLength req |}.

(** The header of the alternative request: the inbound header, with the
    [Cookie] lines replaced by the mapped session cookie on a cache hit. *)
Definition shadow_header (h : Heap) (req : Request) (c : Cache) (now : Z)
  : gmap string (list string) :=
  match session_cookie h req with
  | Some cookie =>
      match GoCache.Get c now (Value cookie) with
      | Some shadowId =>
          <["Cookie" := [cookieName +:+ "=" +:+ CookieLib.sanitizeCookieValue shadowId]]>
            (Mem.header_view h (Header req))
      | None => Mem.header_view h (Header req)
      end
  | None => Mem.header_view h (Header req)
  end.

(** What the handler prints about the session lookup, and what it prints
    about the dispatch to the production target at [addr]. *)
Definition lookup_log (h : Heap) (req : Request) (c : Cache) (now : Z) : list string :=
  match session_cookie h req with
  | Some cookie =>
      match GoCache.Get c now (Value cookie) with
      | Some shadowId => [Fmt.join ["lookup HIT"; Value cookie; shadowId] +:+ Fmt.nl]
      | None => [Fmt.join ["lookup MISS"; Value cookie] +:+ Fmt.nl]
      end
  | None =>
      ["Failed to read cookie from request " +:+ cookieName +:+ ": " +:+ Http.ErrNoCookie
         +:+ Fmt.nl]
  end.

Definition production_log (prod : Backend) (addr : string) : list string :=
  match on_dial prod with
  | Err _ => ["Failed to connect to " +:+ addr +:+ Fmt.nl]
  | Panic _ => []
  | Ok _ =>
      match on_write prod with
      | Err e => ["Failed to send to " +:+ addr +:+ ": " +:+ e +:+ Fmt.nl]
      | Panic _ => []
      | Ok _ =>
          match on_read prod with
          | Err e => ["Failed to receive from " +:+ addr +:+ ": " +:+ e +:+ Fmt.nl]
          | _ => []
          end
      end
  end.

(** ** Auxiliary notions for the proofs *)

Import Mem.

(** The arrays allocated by the copy loop: two per entry. *)
Definition copied (h : Heap) (l : list (string * slice)) : list (list string) :=
  flat_map (fun kv => [elems h kv.2; elems h kv.2]) l.

(** [frame h h1 m]: going from [h] to [h1] changed, at most, the map object
    [m], arrays that belong to [m], and added new arrays. *)
Definition frame (h h1 : Heap) (m : loc) : Prop :=
  length (arrays h) <= length (arrays h1) /\
  (forall s, s < length (arrays h) -> (forall k, entries h m !! k <> Some s) ->
             arrays h1 !! s = arrays h !! s) /\
  (forall k s, entries h1 m !! k = Some s ->
               entries h m !! k = Some s \/ length (arrays h) <= s) /\
  (forall m', m' <> m -> hmaps h1 !! m' = hmaps h !! m').

(** [isolated h m m']: the slices of [m'] are allocated and none of them
    is a slice of [m]. *)
Definition isolated (h : Heap) (m m' : loc) : Prop :=
  m <> m' /\
  forall k s, entries h m' !! k = Some s ->
    s < length (arrays h) /\ forall k', entries h m !! k' <> Some s.

Ltac hstep := cbv beta iota zeta.
Ltac hsimp :=
  cbn [arrays hmaps buffers urls streams fst snd
       set_arrays set_hmaps set_buffers set_urls set_streams] in *.
Ltac gstep := cbv beta iota zeta.


(** * Proofs *)

(** ** The heap and [DuplicateRequest] *)


Lemma elems_eq A M B U T v xs : A !! v = Some xs -> elems (mkHeap A M B U T) v = xs.
Proof. intros H. unfold elems. cbn [arrays]. by rewrite H. Qed.

Lemma copy_fresh A M B U T v xs :
  A !! v = Some xs ->
  copy (length A) v (mkHeap (A ++ [replicate (length xs) EmptyString]) M B U T)
  = (tt, mkHeap (A ++ [xs]) M B U T).
Proof.
  intros Hv. unfold copy.
  rewrite (elems_eq _ _ _ _ _ _ xs) by (by apply lookup_app_l_Some).
  unfold set_arrays. cbn [arrays hmaps buffers urls streams]. f_equal. f_equal.
  rewrite alter_app_r_alt by lia. rewrite Nat.sub_diag. cbn [alter list_alter].
  rewrite length_replicate, firstn_all, drop_replicate, Nat.sub_diag. cbn [replicate].
  by rewrite app_nil_r.
Qed.

Lemma make_slice_eq n A M B U T :
  make_slice n (mkHeap A M B U T) = (length A, mkHeap (A ++ [replicate n EmptyString]) M B U T).
Proof. reflexivity. Qed.

Lemma map_assign_eq m k v A M B U T :
  map_assign m k v (mkHeap A M B U T) = (tt, mkHeap A (alter (fun e => <[k:=v]> e) m M) B U T).
Proof. reflexivity. Qed.

Lemma len_eq v h : len v h = (length (elems h v), h).
Proof. reflexivity. Qed.

Lemma copy_header_entry_eq header1 header2 k v h :
  v < length (arrays h) ->
  copy_header_entry header1 header2 (k, v) h =
  (tt, mkHeap (arrays h ++ [elems h v; elems h v])
         (alter (fun e => <[k := S (length (arrays h))]> e) header2
            (alter (fun e => <[k := length (arrays h)]> e) header1 (hmaps h)))
         (buffers h) (urls h) (streams h)).
Proof.
  intros Hv. destruct h as [A M B U T]. cbn [arrays hmaps buffers urls streams] in *.
  destruct (lookup_lt_is_Some_2 A v Hv) as [xs Hxs].
  unfold copy_header_entry, hbind. rewrite len_eq.
  rewrite (elems_eq _ _ _ _ _ _ xs) by done. hstep.
  rewrite make_slice_eq. hstep.
  rewrite copy_fresh by done. hstep. rewrite map_assign_eq. hstep.
  rewrite make_slice_eq. hstep.
  assert (Hl : length (A ++ [xs]) = S (length A)) by (rewrite length_app; simpl; lia).
  rewrite copy_fresh by (by apply lookup_app_l_Some). hstep.
  rewrite map_assign_eq, Hl. by rewrite <- app_assoc.
Qed.

Lemma copied_lookup h l j k v :
  l !! j = Some (k, v) ->
  copied h l !! (2 * j) = Some (elems h v) /\ copied h l !! (2 * j + 1) = Some (elems h v).
Proof.
  revert j. induction l as [|[k0 v0] l IH]; intros j Hj; [done|].
  destruct j as [|j]; simpl in *.
  - by simplify_eq.
  - replace (j + S (j + 0)) with (S (2 * j)) by lia.
    replace (S (2 * j) + 1) with (S (2 * j + 1)) by lia. simpl. eauto.
Qed.

Lemma copied_length h l : length (copied h l) = 2 * length l.
Proof. induction l as [|[??] l IH]; simpl in *; lia. Qed.

Lemma copied_ext h h' l :
  Forall (fun kv => elems h' kv.2 = elems h kv.2) l -> copied h' l = copied h l.
Proof. induction 1 as [|[??] l H ? IH]; simpl in *; [done|]. by rewrite H, IH. Qed.

Lemma copy_loop header1 header2 l :
  header1 <> header2 ->
  NoDup l.*1 ->
  forall h m1 m2,
    hmaps h !! header1 = Some m1 ->
    hmaps h !! header2 = Some m2 ->
    Forall (fun kv => kv.2 < length (arrays h)) l ->
    exists h' m1' m2',
      forM_ l (copy_header_entry header1 header2) h = (tt, h') /\
      arrays h' = arrays h ++ copied h l /\
      buffers h' = buffers h /\ urls h' = urls h /\ streams h' = streams h /\
      length (hmaps h') = length (hmaps h) /\
      hmaps h' !! header1 = Some m1' /\
      hmaps h' !! header2 = Some m2' /\
      (forall m, m <> header1 -> m <> header2 -> hmaps h' !! m = hmaps h !! m) /\
      (forall k, k ∉ l.*1 -> m1' !! k = m1 !! k /\ m2' !! k = m2 !! k) /\
      (forall j k v, l !! j = Some (k, v) ->
         m1' !! k = Some (length (arrays h) + 2 * j) /\
         m2' !! k = Some (length (arrays h) + 2 * j + 1)).
Proof.
  intros Hne. induction l as [|[k0 v0] l IH]; intros Hnd h m1 m2 H1 H2 Hv.
  - exists h, m1, m2. cbn [forM_]. unfold hret, copied. simpl. rewrite app_nil_r.
    repeat split; try done.
  - inversion Hnd as [|? ? Hk0 Hnd']; subst. inversion Hv as [|? ? Hv0 Hv']; subst.
    cbn [forM_]. unfold hbind. cbn [snd] in Hv0.
    rewrite copy_header_entry_eq by done.
    set (h1 := mkHeap _ _ _ _ _).
    assert (Hl1 : length (arrays h1) = length (arrays h) + 2)
      by (subst h1; cbn [arrays]; rewrite length_app; simpl; lia).
    destruct (IH Hnd' h1 (<[k0 := length (arrays h)]> m1) (<[k0 := S (length (arrays h))]> m2))
      as (h' & m1' & m2' & Hrun & Harr & Hbuf & Hurl & Hstr & Hlen & Hm1 & Hm2 & Hoth & Hout & Hin).
    { subst h1. cbn [hmaps]. rewrite list_lookup_alter_ne by done.
      by rewrite list_lookup_alter_eq, H1. }
    { subst h1. cbn [hmaps]. by rewrite list_lookup_alter_eq, list_lookup_alter_ne, H2. }
    { eapply Forall_impl; [exact Hv'|]. intros [??] ?. simpl in *. lia. }
    exists h', m1', m2'. split; [exact Hrun|].
    assert (Hcop : copied h1 l = copied h l).
    { apply copied_ext. eapply Forall_impl; [exact Hv'|]. intros [? v] Hlt. simpl in *.
      subst h1. unfold elems. cbn [arrays]. by rewrite lookup_app_l. }
    repeat split.
    + rewrite Harr, Hcop. subst h1. cbn [arrays copied flat_map snd].
      rewrite <- app_assoc. done.
    + by rewrite Hbuf.
    + by rewrite Hurl.
    + by rewrite Hstr.
    + rewrite Hlen. subst h1. cbn [hmaps]. by rewrite !length_alter.
    + done.
    + done.
    + intros m ? ?. rewrite Hoth by done. subst h1. cbn [hmaps].
      by rewrite !list_lookup_alter_ne.
    + cbn [fmap list_fmap fst] in H. apply not_elem_of_cons in H as [? ?].
      destruct (Hout k) as [-> _]; [done|]. by apply lookup_insert_ne.
    + cbn [fmap list_fmap fst] in H. apply not_elem_of_cons in H as [? ?].
      destruct (Hout k) as [_ ->]; [done|]. by apply lookup_insert_ne.
    + destruct j as [|j]; simpl in H.
      * simplify_eq. destruct (Hout k) as [-> _]; [done|].
        rewrite lookup_insert_eq. f_equal. lia.
      * destruct (Hin j k v H) as [-> _]. f_equal. lia.
    + destruct j as [|j]; simpl in H.
      * simplify_eq. destruct (Hout k) as [_ ->]; [done|].
        rewrite lookup_insert_eq. f_equal. lia.
      * destruct (Hin j k v H) as [_ ->]. f_equal. lia.
Qed.

(** The bytes a [nopCloser] delivers are the contents of its buffer. *)
Lemma body_bytes_nopCloser h b : IO.body_bytes h (nopCloser b) = contents h b.
Proof.
  unfold IO.body_bytes, IO.read_to_end, Buffer_drain.
  change (concat [contents h b] = contents h b). apply app_nil_r.
Qed.

Lemma multi_write b1 b2 chunks :
  b1 <> b2 ->
  forall h, exists h',
    forM_ chunks (IO.MultiWriter_Write [b1; b2]) h = (tt, h') /\
    arrays h' = arrays h /\ hmaps h' = hmaps h /\ urls h' = urls h /\ streams h' = streams h /\
    length (buffers h') = length (buffers h) /\
    (forall c, buffers h !! b1 = Some c -> buffers h' !! b1 = Some (c ++ concat chunks)) /\
    (forall c, buffers h !! b2 = Some c -> buffers h' !! b2 = Some (c ++ concat chunks)).
Proof.
  intros Hne. induction chunks as [|p ps IH]; intros h.
  - exists h. cbn [forM_ concat]. unfold hret. repeat split; try done.
    all: intros c Hc; by rewrite app_nil_r.
  - cbn [forM_]. unfold hbind at 1.
    set (h1 := set_buffers (alter (fun c => c ++ p) b2 ∘ alter (fun c => c ++ p) b1) h).
    assert (Hstep : IO.MultiWriter_Write [b1; b2] p h = (tt, h1)) by reflexivity.
    rewrite Hstep.
    destruct (IH h1) as (h' & Hrun & Ha & Hm & Hu & Hs & Hl & Hb1 & Hb2).
    exists h'. split; [exact Hrun|].
    repeat split; try (by rewrite ?Ha, ?Hm, ?Hu, ?Hs).
    + rewrite Hl. subst h1. cbn [buffers set_buffers compose]. by rewrite !length_alter.
    + intros c Hc. cbn [concat]. rewrite app_assoc. apply Hb1.
      subst h1. cbn [buffers set_buffers compose].
      rewrite list_lookup_alter_ne by done. by rewrite list_lookup_alter_eq, Hc.
    + intros c Hc. cbn [concat]. rewrite app_assoc. apply Hb2.
      subst h1. cbn [buffers set_buffers compose].
      rewrite list_lookup_alter_eq. rewrite list_lookup_alter_ne by done. by rewrite Hc.
Qed.

(** Reading a body gives the same chunks whether or not new, empty
    buffers were added to the heap. *)
Lemma read_to_end_new_buffers src h :
  let h2 := set_buffers (fun b => b ++ [[]; []]) h in
  exists hr,
    IO.read_to_end src h2 = (fst (IO.read_to_end src h), hr) /\
    arrays hr = arrays h /\ hmaps hr = hmaps h /\ urls hr = urls h /\
    length (streams hr) = length (streams h) /\
    length (buffers hr) = length (buffers h) + 2 /\
    buffers hr !! length (buffers h) = Some [] /\
    buffers hr !! S (length (buffers h)) = Some [].
Proof.
  intros h2.
  assert (Hb1 : (buffers h ++ [[]; []]) !! length (buffers h) = Some (@nil Byte.byte)).
  { rewrite lookup_app_r by lia. by rewrite Nat.sub_diag. }
  assert (Hb2 : (buffers h ++ [[]; []]) !! S (length (buffers h)) = Some (@nil Byte.byte)).
  { rewrite lookup_app_r by lia.
    by replace (S (length (buffers h)) - length (buffers h)) with 1 by lia. }
  assert (Hl : length (buffers h ++ [[]; []]) = length (buffers h) + 2).
  { rewrite length_app. simpl. lia. }
  destruct src as [s|b]; cbn [IO.read_to_end].
  - unfold stream_of. subst h2. hsimp.
    destruct (closed (default _ (streams h !! s))).
    + eexists. split; [reflexivity|]. hsimp. by rewrite Hl.
    + eexists. split; [reflexivity|]. hsimp. by rewrite Hl, length_alter.
  - unfold Buffer_drain.
    assert (Hc : contents h2 b = contents h b).
    { subst h2. unfold contents. hsimp.
      destruct (decide (b < length (buffers h))).
      - by rewrite lookup_app_l.
      - rewrite (lookup_ge_None_2 (buffers h)) by lia. cbn [default].
        destruct (_ !! b) as [c|] eqn:E; [|done].
        apply lookup_app_Some in E as [E|[_ E]].
        + apply lookup_lt_Some in E. lia.
        + destruct (b - length (buffers h)) as [|[|?]]; simpl in E; by simplify_eq. }
    rewrite Hc. eexists. split; [reflexivity|].
    subst h2. hsimp. rewrite length_alter, Hl, !list_lookup_alter, Hb1, Hb2.
    repeat split; try done; case_decide; try done; subst b; by rewrite ?Hb1, ?Hb2.
Qed.

Lemma DuplicateRequest_spec req h :
  wf_request h req ->
  let l := map_to_list (entries h (Header req)) in
  let b1 := length (buffers h) in
  let header1 := length (hmaps h) in
  let request1 := mkRequest (Method req) (URL req) "HTTP/1.1" 1 1 header1 (nopCloser b1)
                    (Host req) (ContentLength req) in
  let request2 := mkRequest (Method req) (URL req) "HTTP/1.1" 1 1 (S header1) (nopCloser (S b1))
                    (Host req) (ContentLength req) in
  exists h' m1 m2,
    DuplicateRequest req h = ((request1, request2), h') /\
    arrays h' = arrays h ++ copied h l /\
    urls h' = urls h /\
    length (streams h') = length (streams h) /\
    length (buffers h') = length (buffers h) + 2 /\
    buffers h' !! b1 = Some (IO.body_bytes h (Body req)) /\
    buffers h' !! S b1 = Some (IO.body_bytes h (Body req)) /\
    length (hmaps h') = length (hmaps h) + 2 /\
    hmaps h' !! header1 = Some m1 /\
    hmaps h' !! S header1 = Some m2 /\
    (forall m, m < header1 -> hmaps h' !! m = hmaps h !! m) /\
    (forall k, entries h (Header req) !! k = None -> m1 !! k = None /\ m2 !! k = None) /\
    (forall j k v, l !! j = Some (k, v) ->
       m1 !! k = Some (length (arrays h) + 2 * j) /\
       m2 !! k = Some (length (arrays h) + 2 * j + 1)).
Proof.
  intros [Hhdr Hsl] l b1 header1 request1 request2.
  unfold DuplicateRequest.
  (* the two buffers *)
  unfold hbind at 1. unfold new_Buffer at 1. hstep.
  unfold hbind at 1. unfold new_Buffer at 1. hstep.
  set (h2 := set_buffers _ (set_buffers _ h)).
  assert (Hh2 : h2 = set_buffers (fun b => b ++ [[]; []]) h).
  { subst h2. unfold set_buffers. hsimp. by rewrite <- app_assoc. }
  assert (Hb2 : length (buffers (set_buffers (fun b => b ++ [[]]) h)) = S b1).
  { hsimp. rewrite length_app. simpl. subst b1. lia. }
  rewrite Hb2. fold b1.
  (* io.Copy *)
  unfold hbind at 1. unfold IO.Copy. unfold hbind at 1.
  destruct (read_to_end_new_buffers (Body req) h)
    as (hr & Hread & Hra & Hrm & Hru & Hrs & Hrl & Hr1 & Hr2).
  rewrite Hh2, Hread. hstep.
  unfold hbind at 1.
  destruct (multi_write b1 (S b1) (fst (IO.read_to_end (Body req) h)).1 ltac:(lia) hr)
    as (hw & Hwrite & Hwa & Hwm & Hwu & Hws & Hwl & Hw1 & Hw2).
  rewrite Hwrite. hstep. unfold hret at 1. hstep.
  (* the two header maps *)
  unfold hbind at 1. unfold make_map at 1. hstep.
  unfold hbind at 1. unfold make_map at 1. hstep.
  unfold hbind at 1. hstep.
  set (h4 := set_hmaps _ (set_hmaps _ hw)).
  assert (Hm4 : hmaps h4 = hmaps h ++ [∅; ∅]).
  { subst h4. hsimp. by rewrite Hwm, Hrm, <- app_assoc. }
  assert (Hh1 : length (hmaps hw) = header1) by (by rewrite Hwm, Hrm).
  assert (Hh2' : length (hmaps (set_hmaps (fun m => m ++ [∅]) hw)) = S header1).
  { hsimp. rewrite length_app, Hh1. simpl. lia. }
  rewrite Hh1, Hh2'.
  assert (Hent : entries h4 (Header req) = entries h (Header req)).
  { unfold entries. rewrite Hm4. by rewrite lookup_app_l. }
  rewrite Hent. fold l.
  (* the loop *)
  unfold hbind at 1.
  destruct (copy_loop header1 (S header1) l ltac:(lia) (NoDup_fst_map_to_list _) h4 ∅ ∅)
    as (h5 & m1 & m2 & Hrun & Ha5 & Hb5 & Hu5 & Hs5 & Hl5 & Hm1 & Hm2 & Hoth & Hout & Hin).
  { rewrite Hm4. rewrite lookup_app_r by (subst header1; lia).
    by replace (header1 - length (hmaps h)) with 0 by (subst header1; lia). }
  { rewrite Hm4. rewrite lookup_app_r by (subst header1; lia).
    by replace (S header1 - length (hmaps h)) with 1 by (subst header1; lia). }
  { subst l. apply map_Forall_to_list in Hsl.
    eapply Forall_impl; [exact Hsl|]. intros [k s] Hs. simpl in *.
    subst h4. hsimp. by rewrite Hwa, Hra. }
  rewrite Hrun. hstep.
  (* the deferred Close *)
  unfold hbind at 1.
  assert (Hclose : exists h6, IO.Close (Body req) h5 = (tt, h6) /\
            arrays h6 = arrays h5 /\ hmaps h6 = hmaps h5 /\ buffers h6 = buffers h5 /\
            urls h6 = urls h5 /\ length (streams h6) = length (streams h5)).
  { destruct (Body req); cbn [IO.Close]; eexists; (split; [reflexivity|]); hsimp;
      by rewrite ?length_alter. }
  destruct Hclose as (h6 & Hcl & Ha6 & Hm6 & Hb6 & Hu6 & Hs6).
  rewrite Hcl. hstep. unfold hret.
  assert (Harr4 : arrays h4 = arrays h) by (subst h4; hsimp; by rewrite Hwa, Hra).
  assert (Hcop : copied h4 l = copied h l).
  { apply copied_ext, Forall_forall. intros ? _. unfold elems. by rewrite Harr4. }
  exists h6, m1, m2. split; [done|].
  repeat split.
  - by rewrite Ha6, Ha5, Harr4, Hcop.
  - rewrite Hu6, Hu5. subst h4. hsimp. by rewrite Hwu, Hru.
  - rewrite Hs6, Hs5. subst h4. hsimp. by rewrite Hws, Hrs.
  - rewrite Hb6, Hb5. subst h4. hsimp. by rewrite Hwl, Hrl.
  - rewrite Hb6, Hb5. subst h4. hsimp. rewrite (Hw1 _ Hr1). done.
  - rewrite Hb6, Hb5. subst h4. hsimp. rewrite (Hw2 _ Hr2). done.
  - rewrite Hm6, Hl5, Hm4, length_app. simpl. lia.
  - by rewrite Hm6.
  - by rewrite Hm6.
  - intros m Hlt. rewrite Hm6, Hoth by lia. rewrite Hm4. by rewrite lookup_app_l.
  - destruct (Hout k) as [-> _]; [|done].
    intros Hin'. apply list_elem_of_fmap in Hin' as ([k' v] & -> & Hin').
    subst l. apply elem_of_map_to_list in Hin'. simpl in *. congruence.
  - destruct (Hout k) as [_ ->]; [|done].
    intros Hin'. apply list_elem_of_fmap in Hin' as ([k' v] & -> & Hin').
    subst l. apply elem_of_map_to_list in Hin'. simpl in *. congruence.
  - destruct (Hin j k v) as [-> _]; [done|]. by rewrite Harr4.
  - destruct (Hin j k v) as [_ ->]; [done|]. by rewrite Harr4.
Qed.

(** *** Separation of header maps *)

Lemma frame_isolated h h1 m m' :
  frame h h1 m -> isolated h m m' ->
  isolated h1 m m' /\ header_view h1 m' = header_view h m'.
Proof.
  intros (Hlen & Harr & Hent & Hoth) [Hne Hiso].
  assert (He : entries h1 m' = entries h m').
  { unfold entries. by rewrite Hoth. }
  split.
  - split; [done|]. intros k s Hs. rewrite He in Hs.
    destruct (Hiso k s Hs) as [Hlt Hnot]. split; [lia|].
    intros k' Hk'. destruct (Hent k' s Hk') as [?|?]; [by eapply Hnot|lia].
  - unfold header_view. rewrite He. apply map_eq. intros k. rewrite !lookup_fmap.
    destruct (entries h m' !! k) as [s|] eqn:Hs; [|done]. cbn [fmap option_fmap option_map].
    destruct (Hiso k s Hs) as [Hlt Hnot]. unfold elems. by rewrite Harr.
Qed.

Lemma entries_alter f m h :
  entries (set_hmaps (alter f m) h) m =
  match hmaps h !! m with Some e => f e | None => ∅ end.
Proof.
  unfold entries. hsimp. rewrite list_lookup_alter_eq. by destruct (hmaps h !! m).
Qed.

Lemma entries_set_arrays f m h : entries (set_arrays f h) m = entries h m.
Proof. reflexivity. Qed.

(** Storing a new array and binding a key of [m] to it. *)
Lemma frame_assign_new m k xs h :
  frame h (snd (map_assign m k (length (arrays h)) (set_arrays (fun a => a ++ [xs]) h))) m.
Proof.
  cbn [map_assign snd]. split; [|split; [|split]].
  - hsimp. rewrite length_app. lia.
  - intros s Hs _. hsimp. by rewrite lookup_app_l.
  - intros k' s. rewrite entries_alter. hsimp. unfold entries.
    destruct (hmaps h !! m) as [e|]; [|by rewrite lookup_empty]. cbn [default].
    rewrite lookup_insert. case_decide; [|by left]. intros [= <-]. by right.
  - intros m' Hne. hsimp. by rewrite list_lookup_alter_ne.
Qed.

Lemma frame_delete m k h : frame h (snd (map_delete m k h)) m.
Proof.
  cbn [map_delete snd]. split; [|split; [|split]].
  - hsimp. lia.
  - intros. reflexivity.
  - intros k' s. rewrite entries_alter. unfold entries.
    destruct (hmaps h !! m) as [e|]; [|by rewrite lookup_empty]. cbn [default].
    intros [_ ?]%lookup_delete_Some. by left.
  - intros m' Hne. hsimp. by rewrite list_lookup_alter_ne.
Qed.

Lemma frame_refl h m : frame h h m.
Proof. split; [|split; [|split]]; [lia|reflexivity|by left|reflexivity]. Qed.

Lemma frame_apply_op m op h : frame h (snd (apply_op m op h)) m.
Proof.
  destruct op as [key value|key value|key|k vs|k|k i x]; cbn [apply_op].
  - apply (frame_assign_new m _ [value]).
  - unfold Http.Add, hbind, Http.values. hstep. apply frame_assign_new.
  - apply frame_delete.
  - apply (frame_assign_new m k vs).
  - apply frame_delete.
  - destruct (entries h m !! k) as [s0|] eqn:Hs0; [|apply frame_refl].
    cbn [store snd]. split; [|split; [|split]].
    + hsimp. by rewrite length_alter.
    + intros s _ Hnot. hsimp. rewrite list_lookup_alter_ne; [done|].
      intros ->. by eapply Hnot.
    + intros k' s Hs. by left.
    + reflexivity.
Qed.

Lemma mutate_isolated m m' ops :
  forall h, isolated h m m' ->
    isolated (mutate m ops h) m m' /\ header_view (mutate m ops h) m' = header_view h m'.
Proof.
  unfold mutate. induction ops as [|op ops IH]; intros h Hiso; [done|].
  cbn [forM_]. unfold hbind.
  pose proof (frame_apply_op m op h) as Hf.
  destruct (apply_op m op h) as [[] h1]. cbn [snd] in Hf.
  destruct (frame_isolated _ _ _ _ Hf Hiso) as [Hiso1 Hv1].
  destruct (IH h1 Hiso1) as [Hiso2 Hv2]. split; [done|]. by rewrite Hv2.
Qed.

Lemma DuplicateRequest_headers req h :
  wf_request h req ->
  forall r1 r2 h', DuplicateRequest req h = ((r1, r2), h') ->
    header_view h' (Header r1) = header_view h (Header req) /\
    header_view h' (Header r2) = header_view h (Header req) /\
    header_view h' (Header req) = header_view h (Header req) /\
    isolated h' (Header r1) (Header r2) /\
    isolated h' (Header r2) (Header r1) /\
    isolated h' (Header r1) (Header req) /\
    isolated h' (Header r2) (Header req) /\
    Header r1 < length (hmaps h') /\ Header r2 < length (hmaps h').
Proof.
  intros Hwf r1 r2 h' Hdup.
  destruct (DuplicateRequest_spec req h Hwf)
    as (h'' & m1 & m2 & Heq & Harr & _ & _ & _ & _ & _ & Hlen & Hm1 & Hm2 & Hold & Hnone & Hsome).
  rewrite Hdup in Heq. injection Heq as -> -> <-.
  destruct Hwf as [Hhdr Hsl]. cbn [Header].
  set (l := map_to_list (entries h (Header req))) in *.
  assert (He1 : entries h' (length (hmaps h)) = m1) by (unfold entries; by rewrite Hm1).
  assert (He2 : entries h' (S (length (hmaps h))) = m2) by (unfold entries; by rewrite Hm2).
  assert (He0 : entries h' (Header req) = entries h (Header req))
    by (unfold entries; by rewrite Hold).
  assert (Hidx : forall k v, entries h (Header req) !! k = Some v ->
            exists j, l !! j = Some (k, v)).
  { intros k v Hk. apply list_elem_of_lookup. subst l. by apply elem_of_map_to_list. }
  assert (Hnew : forall j k v, l !! j = Some (k, v) ->
            elems h' (length (arrays h) + 2 * j) = elems h v /\
            elems h' (length (arrays h) + 2 * j + 1) = elems h v).
  { intros j k v Hj. destruct (copied_lookup h l j k v Hj) as [Hc1 Hc2].
    unfold elems at 1 3. rewrite Harr. rewrite !lookup_app_r by lia.
    replace (length (arrays h) + 2 * j - length (arrays h)) with (2 * j) by lia.
    replace (length (arrays h) + 2 * j + 1 - length (arrays h)) with (2 * j + 1) by lia.
    by rewrite Hc1, Hc2. }
  assert (Hold_elems : forall s, s < length (arrays h) -> elems h' s = elems h s).
  { intros s Hs. unfold elems. rewrite Harr. by rewrite lookup_app_l. }
  assert (Hinv1 : forall k s, m1 !! k = Some s ->
            exists j, s = length (arrays h) + 2 * j /\ s < length (arrays h')).
  { intros k s Hs. destruct (entries h (Header req) !! k) as [v|] eqn:Hk.
    - destruct (Hidx k v Hk) as [j Hj]. destruct (Hsome j k v Hj) as [Hs1 _].
      rewrite Hs1 in Hs. injection Hs as <-. exists j. split; [done|].
      rewrite Harr, length_app, copied_length. apply lookup_lt_Some in Hj. lia.
    - destruct (Hnone k Hk) as [Hn _]. congruence. }
  assert (Hinv2 : forall k s, m2 !! k = Some s ->
            exists j, s = length (arrays h) + 2 * j + 1 /\ s < length (arrays h')).
  { intros k s Hs. destruct (entries h (Header req) !! k) as [v|] eqn:Hk.
    - destruct (Hidx k v Hk) as [j Hj]. destruct (Hsome j k v Hj) as [_ Hs2].
      rewrite Hs2 in Hs. injection Hs as <-. exists j. split; [done|].
      rewrite Harr, length_app, copied_length. apply lookup_lt_Some in Hj. lia.
    - destruct (Hnone k Hk) as [_ Hn]. congruence. }
  assert (Hinv0 : forall k s, entries h (Header req) !! k = Some s -> s < length (arrays h)).
  { intros k s Hs. eapply map_Forall_lookup_1 in Hsl; [|exact Hs]. done. }
  split; [|split; [|split; [|split; [|split; [|split; [|split; [|lia]]]]]]].
  - unfold header_view. rewrite He1. apply map_eq. intros k. rewrite !lookup_fmap.
    destruct (entries h (Header req) !! k) as [v|] eqn:Hk.
    + destruct (Hidx k v Hk) as [j Hj]. destruct (Hsome j k v Hj) as [-> _].
      cbn. f_equal. by apply (Hnew j k v).
    + by destruct (Hnone k Hk) as [-> _].
  - unfold header_view. rewrite He2. apply map_eq. intros k. rewrite !lookup_fmap.
    destruct (entries h (Header req) !! k) as [v|] eqn:Hk.
    + destruct (Hidx k v Hk) as [j Hj]. destruct (Hsome j k v Hj) as [_ ->].
      cbn. f_equal. by apply (Hnew j k v).
    + by destruct (Hnone k Hk) as [_ ->].
  - unfold header_view. rewrite He0. apply map_eq. intros k. rewrite !lookup_fmap.
    destruct (entries h (Header req) !! k) as [v|] eqn:Hk; [|done].
    cbn. f_equal. apply Hold_elems. by eapply Hinv0.
  - split; [lia|]. intros k s Hs. rewrite He2 in Hs.
    destruct (Hinv2 _ _ Hs) as (j & -> & ?). split; [done|].
    intros k' Hk'. rewrite He1 in Hk'. destruct (Hinv1 _ _ Hk') as (j' & ? & _). lia.
  - split; [lia|]. intros k s Hs. rewrite He1 in Hs.
    destruct (Hinv1 _ _ Hs) as (j & -> & ?). split; [done|].
    intros k' Hk'. rewrite He2 in Hk'. destruct (Hinv2 _ _ Hk') as (j' & ? & _). lia.
  - split; [lia|]. intros k s Hs. rewrite He0 in Hs. apply Hinv0 in Hs.
    split; [rewrite Harr, length_app; lia|].
    intros k' Hk'. rewrite He1 in Hk'. destruct (Hinv1 _ _ Hk') as (j' & ? & _). lia.
  - split; [lia|]. intros k s Hs. rewrite He0 in Hs. apply Hinv0 in Hs.
    split; [rewrite Harr, length_app; lia|].
    intros k' Hk'. rewrite He2 in Hk'. destruct (Hinv2 _ _ Hk') as (j' & ? & _). lia.
Qed.

(** ** Duplication fidelity *)

(** C3. For every inbound request whose header references point into the
    heap, [DuplicateRequest] returns two copies that carry the method,
    URL, host, content length and body bytes of the request, both
    declaring HTTP/1.1, whose header maps denote what the request's
    header denotes, and whose header maps and body buffers are separate
    objects: whatever sequence of header operations (set, add, delete,
    assignment, store into a value list) is run on one copy, the header
    of the other copy is unchanged, and a change to one body buffer
    leaves the other as it is. *)
Theorem duplicate_fidelity (req : Request) (h : Heap) :
  wf_request h req ->
  forall copyA copyB h', DuplicateRequest req h = ((copyA, copyB), h') ->
    (* fields copied *)
    (Method copyA = Method req /\ Method copyB = Method req) /\
    (URL copyA = URL req /\ URL copyB = URL req /\ urls h' = urls h) /\
    (Host copyA = Host req /\ Host copyB = Host req) /\
    (ContentLength copyA = ContentLength req /\ ContentLength copyB = ContentLength req) /\
    (IO.body_bytes h' (Body copyA) = IO.body_bytes h (Body req) /\
     IO.body_bytes h' (Body copyB) = IO.body_bytes h (Body req)) /\
    (* protocol version *)
    (Proto copyA = "HTTP/1.1" /\ ProtoMajor copyA = 1%Z /\ ProtoMinor copyA = 1%Z /\
     Proto copyB = "HTTP/1.1" /\ ProtoMajor copyB = 1%Z /\ ProtoMinor copyB = 1%Z) /\
    (* headers: same contents *)
    (header_view h' (Header copyA) = header_view h (Header req) /\
     header_view h' (Header copyB) = header_view h (Header req)) /\
    (* headers: separate objects *)
    (Header copyA <> Header copyB /\
     (forall ops, header_view (mutate (Header copyA) ops h') (Header copyB)
                  = header_view h' (Header copyB)) /\
     (forall ops, header_view (mutate (Header copyB) ops h') (Header copyA)
                  = header_view h' (Header copyA))) /\
    (* bodies: separate buffers *)
    (exists bA bB, Body copyA = nopCloser bA /\ Body copyB = nopCloser bB /\ bA <> bB /\
       (forall f, contents (set_buffers (alter f bA) h') bB = contents h' bB) /\
       (forall f, contents (set_buffers (alter f bB) h') bA = contents h' bA)).
Proof.
  intros Hwf copyA copyB h' Hdup.
  destruct (DuplicateRequest_headers req h Hwf _ _ _ Hdup)
    as (HvA & HvB & _ & HisoAB & HisoBA & _ & _ & _).
  destruct (DuplicateRequest_spec req h Hwf)
    as (h'' & m1 & m2 & Heq & _ & Hurls & _ & _ & Hb1 & Hb2 & _).
  rewrite Hdup in Heq. injection Heq as -> -> <-.
  cbn [Method URL Host ContentLength Proto ProtoMajor ProtoMinor Header Body] in *.
  assert (HbodyA : IO.body_bytes h' (nopCloser (length (buffers h))) = IO.body_bytes h (Body req)).
  { rewrite body_bytes_nopCloser. unfold contents. by rewrite Hb1. }
  assert (HbodyB : IO.body_bytes h' (nopCloser (S (length (buffers h)))) = IO.body_bytes h (Body req)).
  { rewrite body_bytes_nopCloser. unfold contents. by rewrite Hb2. }
  split; [done|]. split; [done|]. split; [done|]. split; [done|]. split; [done|].
  split; [done|]. split; [done|].
  split.
  - split; [lia|]. split; intros ops.
    + by destruct (mutate_isolated _ _ ops h' HisoAB).
    + by destruct (mutate_isolated _ _ ops h' HisoBA).
  - exists (length (buffers h)), (S (length (buffers h))).
    split; [done|]. split; [done|]. split; [lia|].
    split; intros f; unfold contents; hsimp; by rewrite list_lookup_alter_ne by lia.
Qed.

(** The sample request satisfies the hypotheses of C3. *)
Lemma duplicate_fidelity_witness :
  let h := Sample.heap0 "PHPSESSID=abc; lang=en" None in
  wf_request h Sample.request0 /\
  exists copyA copyB h',
    DuplicateRequest Sample.request0 h = ((copyA, copyB), h') /\
    header_view h' (Header copyA) = header_view h (Header Sample.request0) /\
    IO.body_bytes h' (Body copyB) = IO.body_bytes h (Body Sample.request0) /\
    Header copyA <> Header copyB.
Proof.
  intros h.
  assert (Hwf : wf_request h Sample.request0).
  { split; [vm_compute; lia|]. apply map_Forall_to_list. vm_compute.
    repeat constructor. }
  destruct (DuplicateRequest Sample.request0 h) as [[copyA copyB] h'] eqn:E.
  pose proof (duplicate_fidelity Sample.request0 h Hwf copyA copyB h' E) as H.
  split; [exact Hwf|]. exists copyA, copyB, h'.
  split; [reflexivity|]. split; [apply H|]. split; apply H.
Defined.

(** *** The URL is shared *)

Lemma forM_urls {A} (body : A -> HeapM unit) (l : list A) :
  (forall x h, urls (snd (body x h)) = urls h) ->
  forall h, urls (snd (forM_ l body h)) = urls h.
Proof.
  intros Hbody. induction l as [|x l IH]; intros h; [done|].
  cbn [forM_]. unfold hbind. specialize (Hbody x h).
  destruct (body x h) as [[] h1]. cbn [snd] in Hbody. by rewrite IH.
Qed.

Lemma Copy_urls dst src h : urls (snd (IO.Copy dst src h)) = urls h.
Proof.
  unfold IO.Copy, hbind.
  assert (Hr : urls (snd (IO.read_to_end src h)) = urls h).
  { destruct src; cbn [IO.read_to_end]; [|done]. by destruct (closed _). }
  destruct (IO.read_to_end src h) as [r h1]. cbn [snd] in Hr.
  pose proof (forM_urls (IO.MultiWriter_Write dst) (fst r)) as Hw.
  specialize (Hw (fun p h => forM_urls (fun w => Buffer_Write w p) dst (fun _ _ => eq_refl) h) h1).
  destruct (forM_ _ _ h1) as [[] h2]. cbn [snd] in *.
  rewrite <- Hr, <- Hw. reflexivity.
Qed.

(** The copies as records, and the URL store, for any request. *)
Lemma DuplicateRequest_shape req h :
  exists b1 b2 header1 header2 h',
    DuplicateRequest req h =
      ((mkRequest (Method req) (URL req) "HTTP/1.1" 1 1 header1 (nopCloser b1)
          (Host req) (ContentLength req),
        mkRequest (Method req) (URL req) "HTTP/1.1" 1 1 header2 (nopCloser b2)
          (Host req) (ContentLength req)), h') /\
    urls h' = urls h.
Proof.
  unfold DuplicateRequest.
  unfold hbind at 1. unfold new_Buffer at 1. hstep.
  unfold hbind at 1. unfold new_Buffer at 1. hstep.
  unfold hbind at 1.
  match goal with |- context [IO.Copy ?w ?src ?h2] =>
    pose proof (Copy_urls w src h2) as Hc; destruct (IO.Copy w src h2) as [r h3] end.
  cbn [snd] in Hc. hstep.
  unfold hbind at 1. unfold make_map at 1. hstep.
  unfold hbind at 1. unfold make_map at 1. hstep.
  unfold hbind at 1. hstep. unfold hbind at 1.
  match goal with |- context [forM_ ?l ?body ?h4] =>
    pose proof (forM_urls body l) as Hl; specialize (Hl (fun kv h => ltac:(by destruct kv)) h4);
    destruct (forM_ l body h4) as [[] h5] end.
  cbn [snd] in Hl. hstep. unfold hbind at 1.
  assert (Hcl : urls (snd (IO.Close (Body req) h5)) = urls h5) by (by destruct (Body req)).
  destruct (IO.Close (Body req) h5) as [[] h6]. cbn [snd] in Hcl. hstep. unfold hret.
  do 5 eexists. split; [reflexivity|]. by rewrite Hcl, Hl.
Qed.

(** C10. The two copies hold the URL pointer of the request, not a copy
    of the URL: after duplication the three requests point to one URL
    object, so an update made through the pointer of either copy is what
    the other copy and the request read afterwards. *)
Theorem duplicate_shares_url (req : Request) (h : Heap) (f : Url -> Url) :
  let '((copyA, copyB), h') := DuplicateRequest req h in
  URL copyA = URL req /\ URL copyB = URL req /\
  urls h' = urls h /\
  (* an update through copyA's pointer *)
  urls (set_urls (alter f (URL copyA)) h') !! URL copyB = f <$> urls h !! URL req /\
  urls (set_urls (alter f (URL copyA)) h') !! URL req = f <$> urls h !! URL req /\
  (* an update through copyB's pointer *)
  urls (set_urls (alter f (URL copyB)) h') !! URL copyA = f <$> urls h !! URL req /\
  urls (set_urls (alter f (URL copyB)) h') !! URL req = f <$> urls h !! URL req.
Proof.
  destruct (DuplicateRequest_shape req h) as (b1 & b2 & header1 & header2 & h' & -> & Hu).
  cbn [URL]. hsimp. rewrite Hu. by rewrite list_lookup_alter_eq.
Qed.

(** ** Header views under the operations of the handler *)

Lemma header_view_delete m k h :
  header_view (snd (map_delete m k h)) m = delete k (header_view h m).
Proof.
  cbn [map_delete snd]. unfold header_view. rewrite entries_alter. unfold entries.
  destruct (hmaps h !! m) as [e|]; cbn [default].
  - by rewrite fmap_delete.
  - by rewrite !fmap_empty, delete_empty.
Qed.

Lemma header_view_assign_new m k xs h :
  m < length (hmaps h) ->
  (forall k s, entries h m !! k = Some s -> s < length (arrays h)) ->
  header_view (snd (map_assign m k (length (arrays h)) (set_arrays (fun a => a ++ [xs]) h))) m
  = <[k := xs]> (header_view h m).
Proof.
  intros Hm Hs. cbn [map_assign snd]. unfold header_view. rewrite entries_alter.
  hsimp. unfold entries in *.
  destruct (lookup_lt_is_Some_2 _ _ Hm) as [e He]. rewrite He in *. cbn [default] in *.
  unfold id in *.
  apply map_eq. intros k'. rewrite lookup_fmap, !lookup_insert.
  case_decide.
  - cbn. f_equal. unfold elems. hsimp. rewrite lookup_app_r by lia.
    rewrite Nat.sub_diag. reflexivity.
  - rewrite lookup_fmap. destruct (e !! k') as [s|] eqn:Hk'; [|done].
    cbn. f_equal. unfold elems. hsimp. rewrite lookup_app_l; [done|]. by eapply Hs.
Qed.

Lemma readCookies_name lines filter c :
  filter <> EmptyString -> c ∈ CookieLib.readCookies lines filter -> Name c = filter.
Proof.
  intros Hf Hc. unfold CookieLib.readCookies in Hc.
  apply list_elem_of_In, in_flat_map in Hc as (line & _ & Hc).
  apply list_elem_of_In, list_elem_of_omap in Hc as (part & _ & Hc).
  unfold CookieLib.readCookiePart in Hc.
  destruct (Strings.TrimString part) as [|a part'] eqn:Hp; [done|].
  destruct (Strings.Cut _ _) as [[name val] b].
  destruct (negb (CookieLib.isCookieNameValid _)); [done|].
  destruct (String.eqb filter EmptyString) eqn:He.
  { apply String.eqb_eq in He. done. }
  destruct (String.eqb filter (Strings.TrimString name)) eqn:Hn; [|done].
  apply String.eqb_eq in Hn. cbn in Hc.
  destruct (CookieLib.parseCookieValue val true); [|done].
  by injection Hc as <-.
Qed.

Lemma canonical_Cookie : Textproto.CanonicalMIMEHeaderKey "Cookie" = "Cookie".
Proof. reflexivity. Qed.

(** The heap after the cookie of a request is replaced. *)
Lemma replace_cookie_view (r : Request) (c : Cookie) (h : Heap) :
  Header r < length (hmaps h) ->
  (forall k s, entries h (Header r) !! k = Some s -> s < length (arrays h)) ->
  let h' := snd (Http.AddCookie r c (snd (Http.Del (Header r) "Cookie" h))) in
  h' = mutate (Header r) [OpDel "Cookie"; OpSet "Cookie" (CookieLib.cookie_pair c)] h /\
  header_view h' (Header r) = <["Cookie" := [CookieLib.cookie_pair c]]> (header_view h (Header r)).
Proof.
  intros Hm Hs h'. subst h'.
  unfold Http.Del. rewrite canonical_Cookie.
  pose proof (header_view_delete (Header r) "Cookie" h) as Hd.
  set (h1 := snd (map_delete (Header r) "Cookie" h)) in *.
  unfold Http.AddCookie, hbind, Http.Get, hbind, Http.values. hstep.
  rewrite canonical_Cookie, Hd, lookup_delete_eq. cbn [default]. unfold hret. hstep.
  split.
  - unfold mutate. cbn [forM_ apply_op]. unfold hbind, Http.Del.
    rewrite canonical_Cookie. fold h1.
    destruct (map_delete (Header r) "Cookie" h) as [[] h1'] eqn:E. cbn [snd] in h1.
    subst h1. by destruct (Http.Set_ _ _ _ h1') as [[] ?].
  - unfold Http.Set_, hbind, slice_lit. hstep. rewrite canonical_Cookie.
    rewrite (header_view_assign_new (Header r) "Cookie" [CookieLib.cookie_pair c] h1).
    + by rewrite Hd, insert_delete_eq.
    + subst h1. cbn [map_delete snd]. hsimp. by rewrite length_alter.
    + intros k s. subst h1. cbn [map_delete snd]. rewrite entries_alter. hsimp.
      unfold entries in Hs. destruct (hmaps h !! Header r) as [e|] eqn:He; [|by rewrite lookup_empty].
      intros [_ ?]%lookup_delete_Some. by eapply Hs.
Qed.

Lemma session_cookie_eq h req :
  session_cookie h req =
  match CookieLib.readCookies (default [] (header_view h (Header req) !! "Cookie")) cookieName with
  | c :: _ => Some c
  | [] => None
  end.
Proof.
  unfold session_cookie, Http.Request_Cookie, hbind, Http.values. hstep.
  by destruct (CookieLib.readCookies _ _).
Qed.

Lemma session_cookie_name h req c : session_cookie h req = Some c -> Name c = cookieName.
Proof.
  rewrite session_cookie_eq. intros Hc.
  destruct (CookieLib.readCookies _ _) as [|c' l] eqn:E; [done|]. injection Hc as ->.
  eapply readCookies_name; [done|]. rewrite E. apply list_elem_of_here.
Qed.

(** Duplication does not change what [req.Cookie] reads. *)
Lemma session_cookie_after_dup req h a p h1 :
  wf_request h req -> DuplicateRequest req h = ((a, p), h1) ->
  session_cookie h1 req = session_cookie h req.
Proof.
  intros Hwf Hdup.
  destruct (DuplicateRequest_headers req h Hwf a p h1 Hdup) as (_ & _ & Hv0 & _).
  by rewrite !session_cookie_eq, Hv0.
Qed.

(** The headers of the two copies after the cookie of the alternative
    copy was replaced. *)
Lemma hit_views req h a p h1 c v :
  wf_request h req -> DuplicateRequest req h = ((a, p), h1) ->
  Name c = cookieName ->
  let h2 := snd (Http.AddCookie a (alternateCookie c v) (snd (Http.Del (Header a) "Cookie" h1))) in
  header_view h2 (Header p) = header_view h (Header req) /\
  header_view h2 (Header a) =
    <["Cookie" := [cookieName +:+ "=" +:+ CookieLib.sanitizeCookieValue v]]>
      (header_view h (Header req)).
Proof.
  intros Hwf Hdup Hname h2.
  destruct (DuplicateRequest_headers req h Hwf a p h1 Hdup)
    as (Hva & Hvp & _ & Hiso_ap & Hiso_pa & _ & _ & Hma & _).
  destruct (replace_cookie_view a (alternateCookie c v) h1 Hma) as [Hmut Hview].
  { intros k s Hs. by destruct Hiso_pa as [_ Hpa]; destruct (Hpa k s Hs). }
  fold h2 in Hmut, Hview. split.
  - rewrite Hmut. destruct (mutate_isolated _ _
      [OpDel "Cookie"; OpSet "Cookie" (CookieLib.cookie_pair (alternateCookie c v))] h1 Hiso_ap)
      as [_ ->]. exact Hvp.
  - rewrite Hview, Hva. unfold CookieLib.cookie_pair. cbn [Name Value alternateCookie].
    rewrite Hname. reflexivity.
Qed.

(** ** The two dispatches *)

Lemma Del_buffers m k h : buffers (snd (Http.Del m k h)) = buffers h.
Proof. reflexivity. Qed.

Lemma AddCookie_buffers r c h : buffers (snd (Http.AddCookie r c h)) = buffers h.
Proof.
  unfold Http.AddCookie, hbind, Http.Get, hbind, Http.values. hstep.
  by destruct (default [] _) as [|[|??] ?].
Qed.

(** The first part of the handler always returns the two copies made by
    [DuplicateRequest]; it touches only standard output and the heap,
    where it leaves [rewritten_heap]. *)
Lemma rewrite_frame req σ :
  exists σ1,
    ServeHTTP_rewrite req σ = (Done (fst (DuplicateRequest req (heap σ))), σ1) /\
    heap σ1 = rewritten_heap req (fst (fst (DuplicateRequest req (heap σ))))
                (session_cache σ) (clock σ) (snd (DuplicateRequest req (heap σ))) /\
    buffers (heap σ1) = buffers (snd (DuplicateRequest req (heap σ))) /\
    writer σ1 = writer σ /\ session_cache σ1 = session_cache σ /\
    trace σ1 = trace σ /\ spawned σ1 = spawned σ /\ clock σ1 = clock σ.
Proof.
  unfold ServeHTTP_rewrite, rewritten_heap, session_cookie.
  unfold bind at 1. unfold liftH at 1.
  destruct (DuplicateRequest req (heap σ)) as [[a p] h1]. gstep. cbn [fst snd].
  unfold bind at 1. unfold liftH at 1. cbn [heap W.set_heap].
  assert (Hc : snd (Http.Request_Cookie req cookieName h1) = h1).
  { unfold Http.Request_Cookie, hbind, Http.values. hstep. by destruct (CookieLib.readCookies _ _). }
  destruct (Http.Request_Cookie req cookieName h1) as [[cookie err] h2]. cbn [fst snd] in *.
  subst h2. gstep. unfold bind at 1.
  assert (Hprint : exists σ2, (match err with
            | Some err => Fmt.Printf ("Failed to read cookie from request " +:+ cookieName +:+ ": " +:+ err +:+ Fmt.nl)
            | None => ret tt end) (W.set_heap h1 (W.set_heap h1 σ)) = (Done tt, σ2) /\
            heap σ2 = h1 /\
            writer σ2 = writer σ /\ session_cache σ2 = session_cache σ /\
            trace σ2 = trace σ /\ spawned σ2 = spawned σ /\ clock σ2 = clock σ).
  { destruct err; eexists; (split; [reflexivity|]); done. }
  destruct Hprint as (σ2 & -> & Hh & Hw & Hc & Ht & Hs & Hk). gstep.
  unfold bind at 1.
  destruct cookie as [cookie|].
  - unfold bind at 1. unfold SessionCache_Get. rewrite Hc, Hk.
    destruct (GoCache.Get _ _ _) as [x|]; gstep.
    + unfold bind at 1, Fmt.Println at 1, Fmt.Printf at 1. gstep.
      unfold bind at 1, liftH at 1. cbn [heap W.set_stdout]. rewrite Hh.
      pose proof (Del_buffers (Header a) "Cookie" h1) as Hd.
      destruct (Http.Del _ _ _) as [[] h3]. gstep. unfold liftH. cbn [heap W.set_heap].
      pose proof (AddCookie_buffers a (alternateCookie cookie x) h3) as Ha.
      destruct (Http.AddCookie _ _ _) as [[] h4]. gstep.
      unfold ret. eexists. split; [reflexivity|]. cbn [snd] in *.
      cbn [heap W.set_heap]. rewrite Ha, Hd. done.
    + unfold Fmt.Println, Fmt.Printf. gstep. unfold ret.
      eexists. split; [reflexivity|]. cbn [heap W.set_stdout]. by rewrite Hh.
  - unfold ret. eexists. split; [reflexivity|]. by rewrite Hh.
Qed.

Lemma dials_app t1 t2 : dials (t1 ++ t2) = dials t1 ++ dials t2.
Proof. apply omap_app. Qed.

Lemma cache_sets_app t1 t2 : cache_sets (t1 ++ t2) = cache_sets t1 ++ cache_sets t2.
Proof. apply omap_app. Qed.

Ltac run_go :=
  unfold ServeHTTP_dispatch, ServeHTTP_func1, Net.DialTimeout, Net.Write, Net.Read, Net.Close,
    defer, defer_recover, bind, emit, ret, panic, Fmt.Println, Fmt.Printf, liftH;
  cbn [on_dial on_write on_read].

Ltac finish_go :=
  eexists; (split; [reflexivity|]);
  cbn [writer session_cache spawned stdout trace clock heap
       W.set_stdout W.set_trace W.set_heap W.set_cache];
  rewrite <- ?app_assoc, ?dials_app, ?cache_sets_app;
  cbn [dials cache_sets omap list_omap app];
  rewrite ?app_nil_r; repeat split; reflexivity.

Lemma dispatch_failure fl prod h a p σ :
  dispatch_error prod ->
  exists σ' line,
    ServeHTTP_dispatch fl prod h a p σ = (Done tt, σ') /\
    writer σ' = writer σ /\ session_cache σ' = session_cache σ /\
    spawned σ' = spawned σ /\ stdout σ' = stdout σ ++ [line] /\
    dials (trace σ') = dials (trace σ) ++ [Target h] /\
    cache_sets (trace σ') = cache_sets (trace σ).
Proof.
  destruct prod as [d w r].
  intros [[e He]|[[Hd [e He]]|(Hd & Hw & [e He])]]; cbn [on_dial on_write on_read] in *; subst.
  - run_go. do 2 eexists. split; [reflexivity|].
    cbn [writer session_cache spawned stdout trace W.set_stdout W.set_trace].
    rewrite dials_app, cache_sets_app. cbn. by rewrite !app_nil_r.
  - run_go. do 2 eexists. split; [reflexivity|].
    cbn [writer session_cache spawned stdout trace W.set_stdout W.set_trace].
    rewrite <- !app_assoc, dials_app, cache_sets_app. cbn. by rewrite !app_nil_r.
  - run_go. do 2 eexists. split; [reflexivity|].
    cbn [writer session_cache spawned stdout trace W.set_stdout W.set_trace].
    rewrite <- !app_assoc, dials_app, cache_sets_app. cbn. by rewrite !app_nil_r.
Qed.

(** The loop [for k, v := range resp.Header { w.Header()[k] = v }]. *)
Lemma range_assign_list (l : list (string * list string)) :
  NoDup l.*1 ->
  forall σ,
    range l (fun kv => on_writer (Writer.assign (fst kv) (snd kv))) σ =
    (Done tt,
     W.set_writer (mkWriter (list_to_map l ∪ rw_header (writer σ)) (rw_status (writer σ))
                     (rw_sent_header (writer σ)) (rw_body (writer σ))) σ).
Proof.
  induction l as [|[k v] l IH]; intros Hnd σ.
  - cbn [range list_to_map foldr]. unfold ret. rewrite (left_id_L ∅ (∪)).
    by destruct σ as [? ? ? ? ? [] ?].
  - inversion Hnd as [|? ? Hk Hnd']; subst.
    cbn [range]. unfold bind at 1, on_writer at 1. gstep. rewrite (IH Hnd').
    f_equal. cbn [writer W.set_writer Writer.assign rw_header rw_status rw_sent_header rw_body fst snd].
    unfold W.set_writer. cbn [heap session_cache clock stdout trace writer spawned].
    f_equal. f_equal. cbn [list_to_map foldr fst snd].
    rewrite <- insert_union_l. rewrite <- insert_union_r; [done|].
    by apply not_elem_of_list_to_map_1.
Qed.

Lemma range_assign (m : gmap string (list string)) σ :
  range (map_to_list m) (fun kv => on_writer (Writer.assign (fst kv) (snd kv))) σ =
  (Done tt,
   W.set_writer (mkWriter (m ∪ rw_header (writer σ)) (rw_status (writer σ))
                   (rw_sent_header (writer σ)) (rw_body (writer σ))) σ).
Proof.
  rewrite range_assign_list by apply NoDup_fst_map_to_list.
  by rewrite list_to_map_to_list.
Qed.

(** Reading the body of a response that has just arrived. *)
Lemma ReadAll_new_stream wr h :
  let '(s, h1) := Net.new_stream wr h in
  exists h2, IO.ReadAll (connBody s) h1 = ((concat (wire_body wr), wire_failure wr), h2) /\
    arrays h2 = arrays h /\ hmaps h2 = hmaps h /\ buffers h2 = buffers h /\ urls h2 = urls h.
Proof.
  unfold Net.new_stream, IO.ReadAll, hbind. cbn [IO.read_to_end]. unfold stream_of. hsimp.
  rewrite lookup_app_r by lia. rewrite Nat.sub_diag. cbn [lookup list_lookup default closed pending failure fst snd].
  unfold hret. eexists. split; [reflexivity|]. done.
Qed.

Lemma reply_Some b wr :
  reply b = Some wr -> on_dial b = Ok tt /\ on_write b = Ok tt /\ on_read b = Ok wr.
Proof.
  unfold reply. destruct (on_dial b) as [[]| |]; [|done|done].
  destruct (on_write b) as [[]| |]; [|done|done].
  destruct (on_read b); [|done|done]. by intros [= ->].
Qed.

Lemma takes_WriteHeader code σ :
  Writer.takes (writer σ) code = true ->
  ResponseWriter_WriteHeader code σ = on_writer (Writer.WriteHeader code) σ.
Proof. intros H. unfold ResponseWriter_WriteHeader. by rewrite H. Qed.

Lemma refused_WriteHeader code σ :
  Writer.takes (writer σ) code = false ->
  ResponseWriter_WriteHeader code σ =
  (Panicking ("invalid WriteHeader code " +:+ Fmt.Sprint_int code), σ).
Proof. intros H. unfold ResponseWriter_WriteHeader. by rewrite H. Qed.

Lemma dispatch_success fl prod h a p σ wr :
  reply prod = Some wr ->
  Writer.takes (writer σ) (wire_status wr) = true ->
  exists σ',
    ServeHTTP_dispatch fl prod h a p σ = (Done tt, σ') /\
    writer σ' =
      Writer.Write (concat (wire_body wr))
        (Writer.WriteHeader (wire_status wr)
           (mkWriter (wire_header wr ∪ rw_header (writer σ)) (rw_status (writer σ))
              (rw_sent_header (writer σ)) (rw_body (writer σ)))) /\
    session_cache σ' = session_cache σ /\ clock σ' = clock σ /\ stdout σ' = stdout σ /\
    spawned σ' = spawned σ ++ [mkClosure h cookieName a (wire_cookie wr cookieName)] /\
    trace σ' = trace σ ++ [EvDial (Target h) (Net.Seconds (productionTimeout fl));
                           EvWrite (Target h) (view (heap σ) p);
                           EvRead (Target h); EvClose (Target h)] /\
    arrays (heap σ') = arrays (heap σ) /\ hmaps (heap σ') = hmaps (heap σ) /\
    buffers (heap σ') = buffers (heap σ) /\ urls (heap σ') = urls (heap σ).
Proof.
  intros (Hd & Hw & Hr)%reply_Some Htakes. destruct prod as [d w r].
  cbn [on_dial on_write on_read] in *. subst.
  pose proof (ReadAll_new_stream wr (heap σ)) as Hread.
  destruct (Net.new_stream wr (heap σ)) as [s h1] eqn:Hnew.
  destruct Hread as (h2 & Hread & Ha & Hm & Hb & Hu).
  unfold ServeHTTP_dispatch, Net.DialTimeout, Net.Write, Net.Read.
  cbn [on_dial on_write on_read].
  unfold defer, bind at 1 2 3 4 5 6 7 8 9. unfold emit, ret, liftH. gstep.
  cbn [heap W.set_trace W.set_heap]. rewrite Hnew. gstep.
  cbn [resp_Header resp_Body StatusCode]. rewrite range_assign. gstep.
  rewrite takes_WriteHeader by exact Htakes.
  unfold on_writer at 1. gstep.
  unfold bind at 1. cbn [heap W.set_trace W.set_heap W.set_writer].
  rewrite Hread. gstep.
  unfold bind at 1, on_writer at 1. gstep. unfold bind at 1, go_ at 1. gstep.
  unfold defer_recover. gstep. unfold Net.Close, emit. gstep.
  eexists. split; [reflexivity|].
  cbn [writer session_cache clock stdout spawned trace heap
       W.set_trace W.set_heap W.set_writer W.set_spawned fst snd].
  rewrite <- !app_assoc. cbn [app]. done.
Qed.

(** A production response whose status code the writer does not take:
    the headers were assigned, [WriteHeader] panics, the connection is
    closed by the deferred call, and the handler is left in the panic
    before its [go] statement. *)
Lemma dispatch_refused fl prod h a p σ wr :
  reply prod = Some wr ->
  Writer.takes (writer σ) (wire_status wr) = false ->
  exists σ',
    ServeHTTP_dispatch fl prod h a p σ =
      (Panicking ("invalid WriteHeader code " +:+ Fmt.Sprint_int (wire_status wr)), σ') /\
    writer σ' =
      mkWriter (wire_header wr ∪ rw_header (writer σ)) (rw_status (writer σ))
        (rw_sent_header (writer σ)) (rw_body (writer σ)) /\
    session_cache σ' = session_cache σ /\ clock σ' = clock σ /\ stdout σ' = stdout σ /\
    spawned σ' = spawned σ /\
    trace σ' = trace σ ++ [EvDial (Target h) (Net.Seconds (productionTimeout fl));
                           EvWrite (Target h) (view (heap σ) p);
                           EvRead (Target h); EvClose (Target h)] /\
    arrays (heap σ') = arrays (heap σ) /\ hmaps (heap σ') = hmaps (heap σ) /\
    buffers (heap σ') = buffers (heap σ) /\ urls (heap σ') = urls (heap σ).
Proof.
  intros (Hd & Hw & Hr)%reply_Some Htakes. destruct prod as [d w r].
  cbn [on_dial on_write on_read] in *. subst.
  unfold ServeHTTP_dispatch, Net.DialTimeout, Net.Write, Net.Read.
  cbn [on_dial on_write on_read].
  unfold defer, bind at 1 2 3 4 5 6 7 8 9. unfold emit, ret, liftH. gstep.
  cbn [heap W.set_trace W.set_heap]. unfold Net.new_stream. gstep.
  cbn [resp_Header resp_Body StatusCode]. rewrite range_assign. gstep.
  rewrite refused_WriteHeader by exact Htakes. gstep.
  unfold Net.Close, emit. gstep.
  eexists. split; [reflexivity|].
  cbn [writer session_cache clock stdout spawned trace heap
       W.set_trace W.set_heap W.set_writer W.set_spawned fst snd
       Mem.set_streams arrays hmaps buffers urls].
  rewrite <- !app_assoc. cbn [app]. done.
Qed.

(** What the dispatch does whenever the production target answers,
    whether or not the writer takes the status code. *)
Lemma dispatch_replied fl prod h a p σ wr :
  reply prod = Some wr ->
  exists r σ',
    ServeHTTP_dispatch fl prod h a p σ = (r, σ') /\
    session_cache σ' = session_cache σ /\ clock σ' = clock σ /\ stdout σ' = stdout σ /\
    trace σ' = trace σ ++ [EvDial (Target h) (Net.Seconds (productionTimeout fl));
                           EvWrite (Target h) (view (heap σ) p);
                           EvRead (Target h); EvClose (Target h)] /\
    arrays (heap σ') = arrays (heap σ) /\ hmaps (heap σ') = hmaps (heap σ) /\
    buffers (heap σ') = buffers (heap σ) /\ urls (heap σ') = urls (heap σ).
Proof.
  intros Hr. destruct (Writer.takes (writer σ) (wire_status wr)) eqn:Htk.
  - destruct (dispatch_success fl prod h a p σ wr Hr Htk)
      as (σ' & Heq & _ & Hc & Hk & Ho & _ & Hrest).
    by exists (Done tt), σ'.
  - destruct (dispatch_refused fl prod h a p σ wr Hr Htk)
      as (σ' & Heq & _ & Hc & Hk & Ho & _ & Hrest).
    by eexists _, σ'.
Qed.

Lemma func1_spec fl alt c σ :
  exists σ',
    ServeHTTP_func1 fl alt c σ = (Done tt, σ') /\
    writer σ' = writer σ /\ spawned σ' = spawned σ /\ clock σ' = clock σ /\
    stdout σ' = stdout σ ++ shadow_log fl alt (Alternative (cl_h c)) /\
    dials (trace σ') = dials (trace σ) ++ [Alternative (cl_h c)] /\
    match closure_mapping alt c with
    | Some (k, x) =>
        session_cache σ' = GoCache.Set_ (session_cache σ) (clock σ) k x GoCache.DefaultExpiration /\
        cache_sets (trace σ') = cache_sets (trace σ) ++ [(k, x)]
    | None =>
        session_cache σ' = session_cache σ /\
        cache_sets (trace σ') = cache_sets (trace σ)
    end.
Proof.
  destruct alt as [d w r]. unfold closure_mapping, reply, shadow_log.
  cbn [on_dial on_write on_read].
  destruct d as [[]|e|v].
  2,3: destruct (debug fl) eqn:Hdbg; run_go; rewrite Hdbg; gstep;
       destruct (cl_productionCookie c); finish_go.
  destruct w as [[]|e|v].
  2,3: destruct (debug fl) eqn:Hdbg; run_go; rewrite Hdbg; gstep;
       destruct (cl_productionCookie c); finish_go.
  destruct r as [wr|e|v].
  2,3: destruct (debug fl) eqn:Hdbg; run_go; rewrite Hdbg; gstep;
       destruct (cl_productionCookie c); finish_go.
  run_go. unfold Net.new_stream. gstep.
  change (FindCookie _ (cl_cookieName c)) with (wire_cookie wr (cl_cookieName c)).
  destruct (cl_productionCookie c) as [pc|]; [destruct (wire_cookie wr (cl_cookieName c)) as [ac|]|];
    unfold SessionCache_Set; gstep; destruct (debug fl); finish_go.
Qed.

(** ** The request cycle *)

(** A production dispatch without a response spawns nothing and writes
    nothing to the caller. *)
Lemma dispatch_no_reply fl prod h a p σ :
  reply prod = None ->
  exists r σ',
    ServeHTTP_dispatch fl prod h a p σ = (r, σ') /\
    writer σ' = writer σ /\ session_cache σ' = session_cache σ /\
    spawned σ' = spawned σ /\ clock σ' = clock σ /\
    dials (trace σ') = dials (trace σ) ++ [Target h] /\
    cache_sets (trace σ') = cache_sets (trace σ).
Proof.
  destruct prod as [d w r]. unfold reply. cbn [on_dial on_write on_read].
  destruct d as [[]|e|v].
  2,3: intros _; run_go; eexists; finish_go.
  destruct w as [[]|e|v].
  2,3: intros _; run_go; eexists; finish_go.
  destruct r as [wr|e|v]; [done| |].
  all: intros _; run_go; eexists; finish_go.
Qed.

Lemma relayed_Some prod w wr :
  relayed prod w = Some wr <-> reply prod = Some wr /\ Writer.takes w (wire_status wr) = true.
Proof.
  unfold relayed. destruct (reply prod) as [wr'|]; [|by split; [|intros []]].
  destruct (Writer.takes w (wire_status wr')) eqn:E.
  - split; [by intros [= <-]|]. by intros [[= <-] _].
  - split; [done|]. intros [[= <-] ?]. congruence.
Qed.

Lemma relayed_None prod w :
  relayed prod w = None <->
  reply prod = None \/ exists wr, reply prod = Some wr /\ Writer.takes w (wire_status wr) = false.
Proof.
  unfold relayed. destruct (reply prod) as [wr'|]; [|by split; [left|]].
  destruct (Writer.takes w (wire_status wr')) eqn:E.
  - split; [done|]. intros [?|(wr & [= <-] & ?)]; [done|congruence].
  - split; [|done]. intros _. right. by exists wr'.
Qed.

(** A dispatch that relays nothing: the production target gave no
    response, or one whose status the writer does not take.  Nothing is
    sent to the caller, no goroutine is started and the cache is left
    alone; at most the writer's header map was filled. *)
Lemma dispatch_not_relayed fl prod h a p σ :
  relayed prod (writer σ) = None ->
  exists r σ',
    ServeHTTP_dispatch fl prod h a p σ = (r, σ') /\
    rw_status (writer σ') = rw_status (writer σ) /\
    rw_sent_header (writer σ') = rw_sent_header (writer σ) /\
    rw_body (writer σ') = rw_body (writer σ) /\
    session_cache σ' = session_cache σ /\
    spawned σ' = spawned σ /\ clock σ' = clock σ /\
    dials (trace σ') = dials (trace σ) ++ [Target h] /\
    cache_sets (trace σ') = cache_sets (trace σ) /\
    (reply prod <> None -> r <> Done tt).
Proof.
  intros [Hr|(wr & Hr & Ht)]%relayed_None.
  - destruct (dispatch_no_reply fl prod h a p σ Hr)
      as (r & σ' & Heq & Hw & Hc & Hs & Hk & Hd & Hcs).
    exists r, σ'. rewrite Hw. by repeat (split; [done|]).
  - destruct (dispatch_refused fl prod h a p σ wr Hr Ht)
      as (σ' & Heq & Hw & Hc & Hk & _ & Hs & Htr & _).
    do 2 eexists. split; [exact Heq|]. rewrite Hw, Htr, dials_app, cache_sets_app.
    cbn. rewrite app_nil_r. by repeat (split; [done|]).
Qed.


(** [ServeHTTP] is its two parts in sequence. *)
Lemma ServeHTTP_parts fl prod h req σ :
  exists σ1,
    ServeHTTP_rewrite req σ = (Done (fst (DuplicateRequest req (heap σ))), σ1) /\
    ServeHTTP fl prod h req σ =
      ServeHTTP_dispatch fl prod h (fst (fst (DuplicateRequest req (heap σ))))
        (snd (fst (DuplicateRequest req (heap σ)))) σ1 /\
    heap σ1 = rewritten_heap req (fst (fst (DuplicateRequest req (heap σ))))
                (session_cache σ) (clock σ) (snd (DuplicateRequest req (heap σ))) /\
    buffers (heap σ1) = buffers (snd (DuplicateRequest req (heap σ))) /\
    writer σ1 = writer σ /\ session_cache σ1 = session_cache σ /\
    trace σ1 = trace σ /\ spawned σ1 = spawned σ /\ clock σ1 = clock σ.
Proof.
  destruct (rewrite_frame req σ) as (σ1 & Heq & Hrest).
  exists σ1. split; [done|]. split; [|done].
  unfold ServeHTTP, bind. by rewrite Heq.
Qed.

Lemma run_closures_spec fl alt cs :
  forall σ, exists σ',
    run_closures fl alt cs σ = (replicate (length cs) (Done tt), σ') /\
    writer σ' = writer σ /\ spawned σ' = spawned σ /\
    (debug fl = false -> stdout σ' = stdout σ).
Proof.
  induction cs as [|c cs IH]; intros σ.
  - exists σ. done.
  - cbn [run_closures].
    destruct (func1_spec fl alt c σ) as (σ1 & -> & Hw & Hs & _ & Ho & _).
    destruct (IH σ1) as (σ2 & -> & Hw2 & Hs2 & Ho2).
    exists σ2. split; [done|]. split; [congruence|]. split; [congruence|].
    intros Hd. rewrite (Ho2 Hd), Ho. unfold shadow_log. rewrite Hd. by rewrite app_nil_r.
Qed.


Lemma new_mapping_records prod alt k x :
  new_mapping prod alt = Some (k, x) <-> records prod alt k x.
Proof.
  unfold new_mapping, records. split.
  - destruct (reply prod) as [wp|]; [|done]. destruct (reply alt) as [wa|]; [|done].
    destruct (wire_cookie wp cookieName) as [pc|] eqn:Hp; [|done].
    destruct (wire_cookie wa cookieName) as [ac|] eqn:Ha; [|done].
    intros [= <- <-]. by exists wp, wa, pc, ac.
  - intros (wp & wa & pc & ac & -> & -> & -> & -> & -> & ->). done.
Qed.

Lemma closure_mapping_spawned prod alt h a wp :
  reply prod = Some wp ->
  closure_mapping alt (mkClosure h cookieName a (wire_cookie wp cookieName)) = new_mapping prod alt.
Proof.
  intros Hp. unfold closure_mapping, new_mapping. rewrite Hp. cbn [cl_productionCookie cl_cookieName].
  destruct (wire_cookie wp cookieName); destruct (reply alt) as [wa|]; try done.
Qed.

(** What a request cycle does to the session cache. *)
Lemma request_cycle_cache fl prod alt h req later σ :
  spawned σ = [] ->
  exists r rs σ',
    request_cycle fl prod alt h req later σ = (r, rs, σ') /\
    (relayed prod (writer σ) <> None -> r = Done tt) /\
    (reply prod <> None -> relayed prod (writer σ) = None -> r <> Done tt) /\
    match cycle_mapping prod alt (writer σ) with
    | Some (k, x) =>
        session_cache σ' = GoCache.Set_ (session_cache σ) later k x GoCache.DefaultExpiration /\
        cache_sets (trace σ') = cache_sets (trace σ) ++ [(k, x)]
    | None =>
        session_cache σ' = session_cache σ /\
        cache_sets (trace σ') = cache_sets (trace σ)
    end.
Proof.
  intros Hsp. unfold request_cycle, cycle_mapping.
  destruct (ServeHTTP_parts fl prod h req σ) as (σ1 & _ & -> & _ & _ & Hw & Hc & Ht & Hs & Hk).
  set (a := fst (fst _)). set (p := snd (fst _)). rewrite <- Hw.
  destruct (relayed prod (writer σ1)) as [wp|] eqn:Hrel.
  - apply relayed_Some in Hrel as [Hp Htk].
    destruct (dispatch_success fl prod h a p σ1 wp Hp Htk)
      as (σ2 & -> & _ & Hc2 & _ & _ & Hs2 & Ht2 & _).
    unfold run_spawned. cbn [spawned W.set_clock]. rewrite Hs2, Hs, Hsp. cbn [app run_closures].
    destruct (func1_spec fl alt (mkClosure h cookieName a (wire_cookie wp cookieName))
                (W.set_spawned [] (W.set_clock later σ2)))
      as (σ3 & -> & _ & _ & _ & _ & _ & Hmap).
    rewrite (closure_mapping_spawned prod alt h a wp Hp) in Hmap.
    do 3 eexists. split; [reflexivity|]. split; [done|]. split; [done|].
    cbn [session_cache clock trace W.set_spawned W.set_clock] in Hmap.
    rewrite Hc2, Hc, Ht2, Ht, cache_sets_app in Hmap. cbn in Hmap. rewrite app_nil_r in Hmap.
    exact Hmap.
  - destruct (dispatch_not_relayed fl prod h a p σ1 Hrel)
      as (r & σ2 & -> & _ & _ & _ & Hc2 & Hs2 & _ & _ & Ht2 & Hr).
    unfold run_spawned. cbn [spawned W.set_clock]. rewrite Hs2, Hs, Hsp. cbn [run_closures].
    do 3 eexists. split; [reflexivity|]. split; [done|]. split; [by intros ? _; apply Hr|].
    cbn [session_cache trace W.set_spawned W.set_clock].
    by rewrite Hc2, Hc, Ht2, Ht.
Qed.

(** * The properties of the handler *)

(** ** Cookies *)

Lemma readCookiePart_bare filter part c :
  CookieLib.readCookiePart filter part = Some c -> c = CookieLib.bare (Name c) (Value c).
Proof.
  unfold CookieLib.readCookiePart.
  destruct (Strings.TrimString part); [done|].
  destruct (Strings.Cut _ _) as [[name val] b].
  destruct (negb (CookieLib.isCookieNameValid _)); [done|].
  destruct (_ && _); [done|].
  destruct (CookieLib.parseCookieValue val true); [|done].
  by intros [= <-].
Qed.

(** Cookies read from a request carry a name and a value, nothing else. *)
Lemma readCookies_bare lines filter c :
  c ∈ CookieLib.readCookies lines filter -> c = CookieLib.bare (Name c) (Value c).
Proof.
  unfold CookieLib.readCookies. intros Hc.
  apply list_elem_of_In, in_flat_map in Hc as (line & _ & Hc).
  apply list_elem_of_In, list_elem_of_omap in Hc as (part & _ & Hc).
  by eapply readCookiePart_bare.
Qed.

Lemma session_cookie_bare h req c :
  session_cookie h req = Some c -> c = CookieLib.bare (Name c) (Value c).
Proof.
  rewrite session_cookie_eq. intros Hc.
  destruct (CookieLib.readCookies _ _) as [|c' l] eqn:E; [done|]. injection Hc as ->.
  eapply readCookies_bare. rewrite E. apply list_elem_of_here.
Qed.

(** [FindCookie] finds a cookie whatever the letter case of its name. *)
Lemma FindCookie_range_fold cs name c :
  c ∈ cs -> Strings.EqualFold (Name c) name = true ->
  exists c', FindCookie_range cs name = Some c' /\ Strings.EqualFold (Name c') name = true.
Proof.
  induction cs as [|c0 cs IH]; intros Hin Hfold; [by apply elem_of_nil in Hin|].
  cbn [FindCookie_range].
  destruct (Strings.EqualFold (Name c0) name) eqn:E0; [by exists c0|].
  apply elem_of_cons in Hin as [->|Hin]; [congruence|]. by apply IH.
Qed.

Lemma is_ascii_to_lower a : Strings.is_ascii (Strings.to_lower a) = Strings.is_ascii a.
Proof. destruct a as [[] [] [] [] [] [] [] []]; reflexivity. Qed.

Lemma is_ascii_to_upper a : Strings.is_ascii (Strings.to_upper a) = Strings.is_ascii a.
Proof. destruct a as [[] [] [] [] [] [] [] []]; reflexivity. Qed.

Lemma fold_ascii_case s t :
  Strings.all_bytes Strings.is_ascii s = true ->
  Strings.ToLower s = Strings.ToLower t ->
  Strings.fold_ascii s t = true.
Proof.
  revert t. induction s as [|a s IH]; intros [|b t] Hs Heq; try done.
  cbn [Strings.all_bytes] in Hs. apply andb_true_iff in Hs as [Ha Hs].
  cbn [Strings.ToLower] in Heq. injection Heq as Hab Heq.
  assert (Hb : Strings.is_ascii b = true).
  { by rewrite <- is_ascii_to_lower, <- Hab, is_ascii_to_lower. }
  cbn [Strings.fold_ascii]. rewrite Hb, Hab, Ascii.eqb_refl. cbn [andb]. by apply IH.
Qed.

Lemma to_lower_idem a : Strings.to_lower (Strings.to_lower a) = Strings.to_lower a.
Proof. destruct a as [[] [] [] [] [] [] [] []]; reflexivity. Qed.

Lemma to_lower_upper a : Strings.to_lower (Strings.to_upper a) = Strings.to_lower a.
Proof. destruct a as [[] [] [] [] [] [] [] []]; reflexivity. Qed.

Lemma ToLower_idem s : Strings.ToLower (Strings.ToLower s) = Strings.ToLower s.
Proof. induction s as [|a s IH]; [done|]. cbn. by rewrite to_lower_idem, IH. Qed.

Lemma ToLower_ToUpper s : Strings.ToLower (Strings.ToUpper s) = Strings.ToLower s.
Proof. induction s as [|a s IH]; [done|]. cbn. by rewrite to_lower_upper, IH. Qed.

Lemma ascii_ToLower s :
  Strings.all_bytes Strings.is_ascii s = true ->
  Strings.all_bytes Strings.is_ascii (Strings.ToLower s) = true.
Proof.
  induction s as [|a s IH]; [done|]. cbn [Strings.all_bytes Strings.ToLower].
  intros [Ha Hs]%andb_true_iff. by rewrite (IH Hs), andb_true_r, is_ascii_to_lower.
Qed.

Lemma ascii_ToUpper s :
  Strings.all_bytes Strings.is_ascii s = true ->
  Strings.all_bytes Strings.is_ascii (Strings.ToUpper s) = true.
Proof.
  induction s as [|a s IH]; [done|]. cbn [Strings.all_bytes Strings.ToUpper].
  intros [Ha Hs]%andb_true_iff. by rewrite (IH Hs), andb_true_r, is_ascii_to_upper.
Qed.

Lemma EqualFold_refl s : Strings.EqualFold s s = true.
Proof.
  unfold Strings.EqualFold.
  destruct (Strings.all_bytes Strings.is_ascii s) eqn:E; [by apply fold_ascii_case|].
  apply String.eqb_refl.
Qed.

(** An ASCII name is found in lower case and in upper case. *)
Lemma EqualFold_ToLower s :
  Strings.all_bytes Strings.is_ascii s = true ->
  Strings.EqualFold (Strings.ToLower s) s = true.
Proof.
  intros Hs. unfold Strings.EqualFold. rewrite (ascii_ToLower s Hs).
  apply fold_ascii_case; [by apply ascii_ToLower|apply ToLower_idem].
Qed.

Lemma EqualFold_ToUpper s :
  Strings.all_bytes Strings.is_ascii s = true ->
  Strings.EqualFold (Strings.ToUpper s) s = true.
Proof.
  intros Hs. unfold Strings.EqualFold. rewrite (ascii_ToUpper s Hs).
  apply fold_ascii_case; [by apply ascii_ToUpper|apply ToLower_ToUpper].
Qed.

(** C1. For every inbound request (with header references into the heap),
    the first part of the handler returns two copies such that the
    production copy's header, its [Cookie] lines included, is the
    header of the request as it arrived, and such that: when the request
    carries a [PHPSESSID] cookie whose value has an unexpired entry in the
    session cache, the alternative copy's [Cookie] header is replaced by
    the single line [PHPSESSID=v], with [v] the cached value as
    [AddCookie] prints it, every other header staying as duplicated;
    when the cookie is absent or the cache has no entry for it, the
    alternative copy's header is the header as duplicated. *)
Theorem cookie_rewrite_shadow_only (req : Request) (σ : World) :
  wf_request (heap σ) req ->
  exists alternativeRequest productionRequest σ',
    ServeHTTP_rewrite req σ = (Done (alternativeRequest, productionRequest), σ') /\
    header_view (heap σ') (Header productionRequest) = header_view (heap σ) (Header req) /\
    match session_cookie (heap σ) req with
    | Some cookie =>
        match GoCache.Get (session_cache σ) (clock σ) (Value cookie) with
        | Some shadowId =>
            header_view (heap σ') (Header alternativeRequest) =
            <["Cookie" := [cookieName +:+ "=" +:+ CookieLib.sanitizeCookieValue shadowId]]>
              (header_view (heap σ) (Header req))
        | None =>
            header_view (heap σ') (Header alternativeRequest) = header_view (heap σ) (Header req)
        end
    | None =>
        header_view (heap σ') (Header alternativeRequest) = header_view (heap σ) (Header req)
    end.
Proof.
  intros Hwf.
  destruct (rewrite_frame req σ) as (σ' & Heq & Hheap & _).
  destruct (DuplicateRequest req (heap σ)) as [[a p] h1] eqn:Hdup. cbn [fst snd] in *.
  exists a, p, σ'. split; [exact Heq|].
  destruct (DuplicateRequest_headers req (heap σ) Hwf a p h1 Hdup) as (Hva & Hvp & _).
  unfold rewritten_heap in Hheap.
  rewrite (session_cookie_after_dup req (heap σ) a p h1 Hwf Hdup) in Hheap.
  rewrite Hheap.
  destruct (session_cookie (heap σ) req) as [cookie|] eqn:Hcookie; [|done].
  destruct (GoCache.Get (session_cache σ) (clock σ) (Value cookie)) as [shadowId|]; [|done].
  apply (hit_views req (heap σ) a p h1 cookie shadowId Hwf Hdup).
  by eapply session_cookie_name.
Qed.

Lemma sample_wf line fail c : wf_request (heap (Scenario.world line fail c)) Sample.request0.
Proof.
  split; [vm_compute; lia|]. apply map_Forall_to_list. vm_compute. repeat constructor.
Defined.

(** C1 at the sample request with a known session: the alternative copy
    carries [PHPSESSID=qqq] alone, the production copy the line received. *)
Lemma cookie_rewrite_shadow_only_witness :
  let σ := Scenario.world "PHPSESSID=abc; lang=en" None Scenario.known_session in
  wf_request (heap σ) Sample.request0 /\
  exists a p σ',
    ServeHTTP_rewrite Sample.request0 σ = (Done (a, p), σ') /\
    header_view (heap σ') (Header p) !! "Cookie" = Some ["PHPSESSID=abc; lang=en"] /\
    header_view (heap σ') (Header a) !! "Cookie" = Some ["PHPSESSID=qqq"].
Proof.
  intros σ. split; [apply sample_wf|].
  destruct (cookie_rewrite_shadow_only Sample.request0 σ (sample_wf _ _ _))
    as (a & p & σ' & Heq & Hp & Ha).
  exists a, p, σ'. split; [exact Heq|]. split.
  - rewrite Hp. reflexivity.
  - assert (Hs : session_cookie (heap σ) Sample.request0 = Some (CookieLib.bare "PHPSESSID" "abc"))
      by reflexivity.
    rewrite Hs in Ha.
    assert (Hg : GoCache.Get (session_cache σ) (clock σ) (Value (CookieLib.bare "PHPSESSID" "abc"))
                 = Some "qqq") by reflexivity.
    rewrite Hg in Ha. rewrite Ha. reflexivity.
Defined.

(** C6. The cookie built for the rewrite is, for every cookie it is
    built from, that cookie with only its value changed, to the mapped
    session id: name, path, domain, expiry, max-age, secure and
    http-only are copied.  Whenever the rewrite occurs (the request
    carries the session cookie and the cache maps its value), the cookie
    built from the inbound cookie is the one [AddCookie] installs in the
    alternative copy, after the [Cookie] header was deleted; the header
    then holds the single line that [AddCookie] prints for it, and every
    cookie the alternative backend reads from that line has the inbound
    cookie's path, domain, expiry, max-age, secure and http-only. *)
Theorem rewritten_cookie_keeps_attributes :
  (forall (cookie : Cookie) (shadowId : string),
     let installed := alternateCookie cookie shadowId in
     Value installed = shadowId /\
     Name installed = Name cookie /\ Path installed = Path cookie /\
     Domain installed = Domain cookie /\ Expires installed = Expires cookie /\
     MaxAge installed = MaxAge cookie /\ Secure installed = Secure cookie /\
     HttpOnly installed = HttpOnly cookie) /\
  (forall (req : Request) (σ : World) (cookie : Cookie) (shadowId : string),
     wf_request (heap σ) req ->
     session_cookie (heap σ) req = Some cookie ->
     GoCache.Get (session_cache σ) (clock σ) (Value cookie) = Some shadowId ->
     exists alternativeRequest productionRequest σ',
       ServeHTTP_rewrite req σ = (Done (alternativeRequest, productionRequest), σ') /\
       let installed := alternateCookie cookie shadowId in
       heap σ' =
         snd (Http.AddCookie alternativeRequest installed
                (snd (Http.Del (Header alternativeRequest) "Cookie"
                        (snd (DuplicateRequest req (heap σ)))))) /\
       header_view (heap σ') (Header alternativeRequest) !! "Cookie"
         = Some [CookieLib.cookie_pair installed] /\
       forall seen,
         seen ∈ CookieLib.readCookies [CookieLib.cookie_pair installed] EmptyString ->
         Path seen = Path cookie /\ Domain seen = Domain cookie /\
         Expires seen = Expires cookie /\ MaxAge seen = MaxAge cookie /\
         Secure seen = Secure cookie /\ HttpOnly seen = HttpOnly cookie).
Proof.
  split.
  - intros cookie shadowId installed. subst installed.
    unfold alternateCookie, Fmt.Sprintf_s.
    cbn [Name Value Path Domain Expires MaxAge Secure HttpOnly]. done.
  - intros req σ cookie shadowId Hwf Hc Hg.
    destruct (rewrite_frame req σ) as (σ' & Heq & Hheap & _).
    destruct (DuplicateRequest req (heap σ)) as [[a p] h1] eqn:Hdup. cbn [fst snd] in *.
    unfold rewritten_heap in Hheap.
    rewrite (session_cookie_after_dup req (heap σ) a p h1 Hwf Hdup), Hc, Hg in Hheap.
    destruct (hit_views req (heap σ) a p h1 cookie shadowId Hwf Hdup
                (session_cookie_name _ _ _ Hc)) as [_ Ha].
    exists a, p, σ'. split; [exact Heq|]. cbv zeta.
    split; [exact Hheap|]. split.
    + rewrite Hheap, Ha, lookup_insert_eq. unfold CookieLib.cookie_pair.
      cbn [Name Value alternateCookie]. rewrite (session_cookie_name _ _ _ Hc). reflexivity.
    + intros seen Hseen. apply readCookies_bare in Hseen.
      apply session_cookie_bare in Hc. rewrite Hseen, Hc. done.
Qed.

(** C6 at a cookie with every attribute set, and at the sample request
    with a known session. *)
Lemma rewritten_cookie_keeps_attributes_witness :
  let full := mkCookie "PHPSESSID" "abc" "/shop" "example.org"
                (time_of_text "Wed, 09 Jun 2021 10:18:14 GMT") 3600 true true in
  let σ := Scenario.world "PHPSESSID=abc; lang=en" None Scenario.known_session in
  let cookie := CookieLib.bare "PHPSESSID" "abc" in
  alternateCookie full "qqq" =
    mkCookie "PHPSESSID" "qqq" "/shop" "example.org"
      (time_of_text "Wed, 09 Jun 2021 10:18:14 GMT") 3600 true true /\
  wf_request (heap σ) Sample.request0 /\
  session_cookie (heap σ) Sample.request0 = Some cookie /\
  GoCache.Get (session_cache σ) (clock σ) (Value cookie) = Some "qqq" /\
  exists a p σ',
    ServeHTTP_rewrite Sample.request0 σ = (Done (a, p), σ') /\
    header_view (heap σ') (Header a) !! "Cookie" = Some ["PHPSESSID=qqq"].
Proof.
  intros full σ cookie.
  assert (Hs : session_cookie (heap σ) Sample.request0 = Some cookie) by reflexivity.
  assert (Hg : GoCache.Get (session_cache σ) (clock σ) (Value cookie) = Some "qqq") by reflexivity.
  destruct rewritten_cookie_keeps_attributes as [Hbuilt Hinstalled].
  split.
  { destruct (Hbuilt full "qqq") as (Hv & Hn & Hp & Hd & He & Hm & Hsec & Hh).
    destruct (alternateCookie full "qqq") as [n v pa d e m sec ho].
    cbn [Name Value Path Domain Expires MaxAge Secure HttpOnly] in *. by subst. }
  split; [apply sample_wf|]. split; [exact Hs|]. split; [exact Hg|].
  destruct (Hinstalled Sample.request0 σ cookie "qqq" (sample_wf _ _ _) Hs Hg)
    as (a & p & σ' & Heq & _ & Hh & _).
  exists a, p, σ'. split; [exact Heq|]. rewrite Hh. reflexivity.
Defined.

(** C7. The lookup of the session cookie in the inbound request is not
    case-insensitive.  A request with the cookie [phpsessid=abc], while
    the cache maps [abc], is treated as carrying no session cookie: the
    lookup fails and the alternative copy keeps the cookie as received.
    The same name in a response is found by [FindCookie]. *)
Theorem request_cookie_lookup_is_case_sensitive :
  let σ := Scenario.world "phpsessid=abc" None Scenario.known_session in
  Strings.EqualFold "phpsessid" cookieName = true /\
  GoCache.Get (session_cache σ) (clock σ) "abc" = Some "qqq" /\
  Http.Request_Cookie Sample.request0 cookieName (heap σ) = ((None, Some Http.ErrNoCookie), heap σ) /\
  match ServeHTTP_rewrite Sample.request0 σ with
  | (Done (alternativeRequest, productionRequest), σ') =>
      header_view (heap σ') (Header alternativeRequest) !! "Cookie" = Some ["phpsessid=abc"] /\
      stdout σ' = ["Failed to read cookie from request PHPSESSID: http: named cookie not present"
                   +:+ Fmt.nl]
  | (Panicking _, _) => False
  end /\
  wire_cookie (mkWire 200 {["Set-Cookie" := ["phpsessid=qqq"]]} [] None) cookieName
    = Some (CookieLib.bare "phpsessid" "qqq").
Proof. vm_compute. repeat split. Qed.

(** ** Dispatch to the production target *)

(** C5. For every inbound request whose production dispatch fails (the
    dial, the write of the request or the read of the response returns an
    error), the handler returns with the caller-facing response writer
    untouched, no goroutine started and the session cache as it was; the
    only address dialled is the production target. *)
Theorem primary_failure_aborts (fl : Flags) (prod : Backend) (h : handler)
    (req : Request) (σ : World) :
  dispatch_error prod ->
  exists σ',
    ServeHTTP fl prod h req σ = (Done tt, σ') /\
    writer σ' = writer σ /\
    spawned σ' = spawned σ /\
    session_cache σ' = session_cache σ /\
    cache_sets (trace σ') = cache_sets (trace σ) /\
    dials (trace σ') = dials (trace σ) ++ [Target h].
Proof.
  intros Herr.
  destruct (ServeHTTP_parts fl prod h req σ) as (σ1 & _ & -> & _ & _ & Hw & Hc & Ht & Hs & _).
  set (a := fst (fst _)). set (p := snd (fst _)).
  destruct (dispatch_failure fl prod h a p σ1 Herr)
    as (σ' & line & -> & Hw' & Hc' & Hs' & _ & Hd' & Ht').
  exists σ'. split; [done|]. rewrite Hw', Hs', Hc', Ht', Hd'. by rewrite Hw, Hs, Hc, Ht.
Qed.

(** C5 with an unreachable production target. *)
Lemma primary_failure_aborts_witness :
  let σ := Scenario.world "PHPSESSID=abc" None Scenario.empty_cache in
  dispatch_error Scenario.unreachable /\
  exists σ',
    ServeHTTP Scenario.flags Scenario.unreachable Scenario.proxy Sample.request0 σ = (Done tt, σ') /\
    writer σ' = Writer.fresh /\ spawned σ' = [] /\ dials (trace σ') = ["prod:8080"].
Proof.
  intros σ.
  assert (Herr : dispatch_error Scenario.unreachable) by (left; eexists; reflexivity).
  split; [exact Herr|].
  destruct (primary_failure_aborts Scenario.flags Scenario.unreachable Scenario.proxy
              Sample.request0 σ Herr) as (σ' & Heq & Hw & Hs & _ & _ & Hd).
  exists σ'. split; [exact Heq|]. split; [exact Hw|]. split; [exact Hs|]. exact Hd.
Defined.




(** ** The body that cannot be read *)





(** ** The goroutine and the session cache *)

(** C8. Whatever happens in the goroutine (an error or a panic at the
    dial, the write or the read against the alternative target), its
    function returns normally: no panic leaves it.  It never touches the
    caller-facing response writer; after an error or a panic it leaves the
    session cache as it was, and prints one line when [debug] is set and
    nothing otherwise.  In a request cycle, the result of the handler and
    the response written to the caller are those of the handler alone,
    whatever the alternative backend does. *)
Theorem shadow_faults_contained (fl : Flags) (alt : Backend) :
  (forall (c : Closure) (σ : World),
     exists σ',
       ServeHTTP_func1 fl alt c σ = (Done tt, σ') /\
       writer σ' = writer σ /\
       (debug fl = false -> stdout σ' = stdout σ) /\
       (dispatch_error alt \/ dispatch_panic alt ->
          session_cache σ' = session_cache σ /\
          cache_sets (trace σ') = cache_sets (trace σ) /\
          (debug fl = true -> exists line, stdout σ' = stdout σ ++ [line]))) /\
  (forall (prod : Backend) (h : handler) (req : Request) (later : Z) (σ : World),
     exists rs σ2,
       request_cycle fl prod alt h req later σ
         = (fst (ServeHTTP fl prod h req σ), rs, σ2) /\
       Forall (fun r => r = Done tt) rs /\
       writer σ2 = writer (snd (ServeHTTP fl prod h req σ))).
Proof.
  split.
  - intros c σ.
    destruct (func1_spec fl alt c σ) as (σ' & Heq & Hw & _ & _ & Ho & _ & Hmap).
    exists σ'. split; [exact Heq|]. split; [exact Hw|]. split.
    { intros Hd. rewrite Ho. unfold shadow_log. rewrite Hd. apply app_nil_r. }
    intros Hfail.
    assert (Hnone : reply alt = None).
    { unfold reply. destruct Hfail as [[[e He]|[[Hd [e He]]|(Hd & Hw' & [e He])]]
                                     |[[e He]|[[Hd [e He]]|(Hd & Hw' & [e He])]]];
        rewrite ?Hd, ?Hw', ?He; try done; by destruct (on_write alt) as [[]| |]. }
    assert (Hcm : closure_mapping alt c = None).
    { unfold closure_mapping. rewrite Hnone. by destruct (cl_productionCookie c). }
    rewrite Hcm in Hmap. destruct Hmap as [Hc Ht].
    split; [exact Hc|]. split; [exact Ht|].
    intros Hd. rewrite Ho. unfold shadow_log. rewrite Hd.
    destruct Hfail as [[[e He]|[[Hd' [e He]]|(Hd' & Hw' & [e He])]]
                      |[[e He]|[[Hd' [e He]]|(Hd' & Hw' & [e He])]]];
      rewrite ?Hd', ?Hw', ?He; eexists; reflexivity.
  - intros prod h req later σ. unfold request_cycle.
    destruct (ServeHTTP fl prod h req σ) as [r σ1]. unfold run_spawned.
    destruct (run_closures_spec fl alt (spawned (W.set_clock later σ1))
                (W.set_spawned [] (W.set_clock later σ1))) as (σ2 & -> & Hw & _).
    exists (replicate (length (spawned (W.set_clock later σ1))) (Done tt)), σ2.
    split; [reflexivity|]. split; [|exact Hw].
    apply Forall_forall. intros x Hx. apply elem_of_replicate in Hx. by destruct Hx.
Qed.


(** * Further properties of the code *)

(** ** [DuplicateRequest]: the inbound request afterwards *)

Lemma forM_keeps {A X} (f : Heap -> X) (body : A -> HeapM unit) (l : list A) :
  (forall x h, f (snd (body x h)) = f h) ->
  forall h, f (snd (forM_ l body h)) = f h.
Proof.
  intros Hbody. induction l as [|x l IH]; intros h; [done|].
  cbn [forM_]. unfold hbind. specialize (Hbody x h).
  destruct (body x h) as [[] h1]. cbn [snd] in Hbody. by rewrite IH.
Qed.

Lemma copy_header_entry_keeps header1 header2 kv h :
  buffers (snd (copy_header_entry header1 header2 kv h)) = buffers h /\
  streams (snd (copy_header_entry header1 header2 kv h)) = streams h.
Proof. by destruct kv. Qed.

Lemma multi_write_others b1 b2 chunks h :
  streams (snd (forM_ chunks (IO.MultiWriter_Write [b1; b2]) h)) = streams h /\
  forall b, b <> b1 -> b <> b2 ->
    buffers (snd (forM_ chunks (IO.MultiWriter_Write [b1; b2]) h)) !! b = buffers h !! b.
Proof.
  revert h. induction chunks as [|p ps IH]; intros h; [done|].
  cbn [forM_]. unfold hbind at 1.
  set (h1 := set_buffers (alter (fun c => c ++ p) b2 ∘ alter (fun c => c ++ p) b1) h).
  assert (Hstep : IO.MultiWriter_Write [b1; b2] p h = (tt, h1)) by reflexivity.
  rewrite Hstep. destruct (IH h1) as [Hs Hb]. split; [by rewrite Hs|].
  intros b Hb1 Hb2. rewrite Hb by done. subst h1. hsimp. cbn [compose].
  by rewrite !list_lookup_alter_ne.
Qed.

(** The buffers and streams that [DuplicateRequest] leaves are those left
    by the copy of the body followed by its [Close]. *)
Lemma DuplicateRequest_bodies req h :
  let h2 := set_buffers (fun b => b ++ [[]; []]) h in
  let hc := snd (IO.Copy [length (buffers h); S (length (buffers h))] (Body req) h2) in
  buffers (snd (DuplicateRequest req h)) = buffers hc /\
  streams (snd (DuplicateRequest req h)) = streams (snd (IO.Close (Body req) hc)).
Proof.
  intros h2 hc.
  enough (H : exists h6, snd (DuplicateRequest req h) = h6 /\ buffers h6 = buffers hc /\
                streams h6 = streams (snd (IO.Close (Body req) hc)))
    by (by destruct H as (h6 & -> & ?)).
  unfold DuplicateRequest.
  unfold hbind at 1. unfold new_Buffer at 1. hstep.
  unfold hbind at 1. unfold new_Buffer at 1. hstep.
  assert (Hh2 : set_buffers (fun b => b ++ [[]]) (set_buffers (fun b => b ++ [[]]) h) = h2).
  { subst h2. unfold set_buffers. hsimp. by rewrite <- app_assoc. }
  assert (Hb2 : length (buffers (set_buffers (fun b => b ++ [[]]) h)) = S (length (buffers h))).
  { hsimp. rewrite length_app. simpl. lia. }
  rewrite Hb2, Hh2. unfold hbind at 1. fold hc.
  destruct (IO.Copy _ (Body req) h2) as [r h3]. cbn [snd] in hc. subst hc. hstep.
  unfold hbind at 1. unfold make_map at 1. hstep.
  unfold hbind at 1. unfold make_map at 1. hstep.
  unfold hbind at 1. hstep. unfold hbind at 1.
  match goal with |- context [forM_ ?l ?body ?h4] =>
    pose proof (forM_keeps buffers body l (fun kv h => proj1 (copy_header_entry_keeps _ _ kv h)) h4) as Hlb;
    pose proof (forM_keeps streams body l (fun kv h => proj2 (copy_header_entry_keeps _ _ kv h)) h4) as Hls;
    destruct (forM_ l body h4) as [[] h5] end.
  cbn [snd] in Hlb, Hls. hsimp. hstep. unfold hbind at 1.
  destruct (Body req) as [s|b]; cbn [IO.Close]; unfold hret; hstep; cbn [snd];
    (eexists; split; [reflexivity|]); hsimp; by rewrite Hlb, Hls.
Qed.

(** X2. [DuplicateRequest] uses the request's body up: read again after
    the duplication, whether it came from a connection or from a buffer,
    it delivers no byte; a connection body is closed, so a further read
    ends in the error of a read on a closed body. *)
Theorem duplicate_consumes_body (req : Request) (h : Heap) :
  let h' := snd (DuplicateRequest req h) in
  IO.body_bytes h' (Body req) = [] /\
  match Body req with
  | connBody s =>
      s < length (streams h) ->
      closed (stream_of h' s) = true /\
      IO.body_error h' (Body req) = Some IO.ErrBodyReadAfterClose
  | nopCloser _ => True
  end.
Proof.
  intros h'. destruct (DuplicateRequest_bodies req h) as [Hb Hs]. fold h' in Hb, Hs.
  cbv zeta in Hb, Hs. unfold IO.Copy, hbind in Hb, Hs.
  destruct (read_to_end_new_buffers (Body req) h)
    as (hr & Hread & _ & _ & _ & _ & _ & Hr1 & Hr2).
  cbv zeta in Hread. rewrite Hread in Hb, Hs. hstep. cbn [fst snd] in Hb, Hs.
  destruct (multi_write_others (length (buffers h)) (S (length (buffers h)))
              (fst (IO.read_to_end (Body req) h)).1 hr) as [Hws Hwo].
  destruct (multi_write (length (buffers h)) (S (length (buffers h)))
              (fst (IO.read_to_end (Body req) h)).1 ltac:(lia) hr)
    as (hw & Hwrite & _ & _ & _ & _ & _ & Hw1 & Hw2).
  rewrite Hwrite in Hb, Hs, Hws, Hwo. cbn [fst snd] in Hb, Hs, Hws, Hwo. unfold hret in Hb, Hs.
  cbn [snd] in Hb, Hs.
  destruct (Body req) as [s|b] eqn:Hbody.
  - (* a connection body *)
    cbn [IO.Close snd] in Hs. hsimp.
    assert (Hcl : forall st, streams hr !! s = Some st -> closed (stream_of h' s) = true).
    { intros st Hst. unfold stream_of. rewrite Hs, Hws, list_lookup_alter_eq, Hst. reflexivity. }
    assert (Hlen : length (streams hr) = length (streams h)).
    { cbn [IO.read_to_end] in Hread. destruct (closed _); injection Hread as <-; hsimp;
        by rewrite ?length_alter. }
    destruct (decide (s < length (streams h))) as [Hlt|Hge].
    + destruct (lookup_lt_is_Some_2 (streams hr) s ltac:(lia)) as [st Hst].
      specialize (Hcl st Hst).
      assert (Hbytes : IO.body_bytes h' (connBody s) = []).
      { unfold IO.body_bytes. cbn [IO.read_to_end]. by rewrite Hcl. }
      split; [exact Hbytes|]. intros _. split; [exact Hcl|].
      unfold IO.body_error. cbn [IO.read_to_end]. by rewrite Hcl.
    + split; [|intros; lia].
      unfold IO.body_bytes. cbn [IO.read_to_end]. unfold stream_of.
      rewrite Hs, Hws, list_lookup_alter_eq.
      rewrite (lookup_ge_None_2 (streams hr)) by lia. reflexivity.
  - (* a buffer *)
    split; [|done]. rewrite body_bytes_nopCloser. unfold contents. rewrite Hb.
    assert (Hchunk : (fst (IO.read_to_end (nopCloser b) h)).1 = [contents h b]) by reflexivity.
    cbn [IO.read_to_end Buffer_drain] in Hread. injection Hread as _ Hhr.
    destruct (decide (b = length (buffers h))) as [->|Hn1].
    { rewrite (Hw1 _ Hr1), Hchunk. unfold contents.
      rewrite (lookup_ge_None_2 (buffers h)) by lia. reflexivity. }
    destruct (decide (b = S (length (buffers h)))) as [->|Hn2].
    { rewrite (Hw2 _ Hr2), Hchunk. unfold contents.
      rewrite (lookup_ge_None_2 (buffers h)) by lia. reflexivity. }
    rewrite Hwo by done. rewrite <- Hhr. hsimp.
    rewrite list_lookup_alter_eq. by destruct (_ !! b).
Qed.

Lemma duplicate_consumes_body_witness :
  let h := Sample.heap0 "PHPSESSID=abc" None in
  let h' := snd (DuplicateRequest Sample.request0 h) in
  0 < length (streams h) /\
  IO.body_bytes h' (connBody 0) = [] /\
  closed (stream_of h' 0) = true /\
  IO.body_error h' (connBody 0) = Some IO.ErrBodyReadAfterClose.
Proof.
  intros h h'.
  assert (Hs : 0 < length (streams h)) by (cbn; lia).
  destruct (duplicate_consumes_body Sample.request0 h) as [Hb Hc].
  split; [exact Hs|]. split; [exact Hb|]. exact (Hc Hs).
Defined.


(** The slices of the copies are new arrays; those of the request are old. *)
Lemma DuplicateRequest_slices req h :
  wf_request h req ->
  forall r1 r2 h', DuplicateRequest req h = ((r1, r2), h') ->
    (forall k s, entries h' (Header r1) !! k = Some s ->
       length (arrays h) <= s < length (arrays h')) /\
    (forall k s, entries h' (Header r2) !! k = Some s ->
       length (arrays h) <= s < length (arrays h')) /\
    (forall k s, entries h' (Header req) !! k = Some s -> s < length (arrays h)) /\
    Header req < length (hmaps h) /\
    length (hmaps h) <= Header r1 /\ length (hmaps h) <= Header r2 /\
    (forall s, s < length (arrays h) -> arrays h' !! s = arrays h !! s) /\
    (forall m, m < length (hmaps h) -> hmaps h' !! m = hmaps h !! m).
Proof.
  intros Hwf r1 r2 h' Hdup.
  destruct (DuplicateRequest_spec req h Hwf)
    as (h'' & m1 & m2 & Heq & Harr & _ & _ & _ & _ & _ & Hlen & Hm1 & Hm2 & Hold & Hnone & Hsome).
  rewrite Hdup in Heq. injection Heq as -> -> <-.
  destruct Hwf as [Hhdr Hsl]. cbn [Header].
  set (l := map_to_list (entries h (Header req))) in *.
  assert (He1 : entries h' (length (hmaps h)) = m1) by (unfold entries; by rewrite Hm1).
  assert (He2 : entries h' (S (length (hmaps h))) = m2) by (unfold entries; by rewrite Hm2).
  assert (He0 : entries h' (Header req) = entries h (Header req))
    by (unfold entries; by rewrite Hold).
  assert (Hidx : forall k v, entries h (Header req) !! k = Some v ->
            exists j, l !! j = Some (k, v)).
  { intros k v Hk. apply list_elem_of_lookup. subst l. by apply elem_of_map_to_list. }
  assert (Hint : forall j (kv : string * nat), l !! j = Some kv ->
            length (arrays h) + 2 * j + 1 < length (arrays h')).
  { intros j kv Hj. rewrite Harr, length_app, copied_length.
    apply lookup_lt_Some in Hj. lia. }
  rewrite He1, He2, He0.
  split; [|split; [|split; [|split; [done|split; [lia|split; [lia|split]]]]]].
  - intros k s Hs. destruct (entries h (Header req) !! k) as [v|] eqn:Hk.
    + destruct (Hidx k v Hk) as [j Hj]. destruct (Hsome j k v Hj) as [Hs1 _].
      rewrite Hs1 in Hs. injection Hs as <-. specialize (Hint j _ Hj). lia.
    + destruct (Hnone k Hk) as [Hn _]. congruence.
  - intros k s Hs. destruct (entries h (Header req) !! k) as [v|] eqn:Hk.
    + destruct (Hidx k v Hk) as [j Hj]. destruct (Hsome j k v Hj) as [_ Hs2].
      rewrite Hs2 in Hs. injection Hs as <-. specialize (Hint j _ Hj). lia.
    + destruct (Hnone k Hk) as [_ Hn]. congruence.
  - intros k s Hs. eapply map_Forall_lookup_1 in Hsl; [|exact Hs]. done.
  - intros s Hs. rewrite Harr. by rewrite lookup_app_l.
  - exact Hold.
Qed.

(** X3. [DuplicateRequest] only allocates: every array and header map
    that existed before the call is unchanged, so the header of the
    inbound request denotes what it did; and the copies share nothing
    with the request's header: operations on the header of a copy leave
    the request's header as it is, and operations on the request's header
    after the duplication leave both copies as they are. *)
Theorem duplicate_leaves_request_intact (req : Request) (h : Heap) :
  wf_request h req ->
  forall copyA copyB h', DuplicateRequest req h = ((copyA, copyB), h') ->
    (forall s, s < length (arrays h) -> arrays h' !! s = arrays h !! s) /\
    (forall m, m < length (hmaps h) -> hmaps h' !! m = hmaps h !! m) /\
    header_view h' (Header req) = header_view h (Header req) /\
    (forall ops, header_view (mutate (Header copyA) ops h') (Header req)
                 = header_view h' (Header req)) /\
    (forall ops, header_view (mutate (Header copyB) ops h') (Header req)
                 = header_view h' (Header req)) /\
    (forall ops, header_view (mutate (Header req) ops h') (Header copyA)
                 = header_view h' (Header copyA)) /\
    (forall ops, header_view (mutate (Header req) ops h') (Header copyB)
                 = header_view h' (Header copyB)).
Proof.
  intros Hwf copyA copyB h' Hdup.
  destruct (DuplicateRequest_headers req h Hwf _ _ _ Hdup)
    as (_ & _ & Hv0 & _ & _ & HisoA0 & HisoB0 & _).
  destruct (DuplicateRequest_slices req h Hwf _ _ _ Hdup)
    as (HsA & HsB & Hs0 & Hm0 & HmA & HmB & Harr & Hmaps).
  assert (Hiso0A : isolated h' (Header req) (Header copyA)).
  { split; [lia|]. intros k s Hs. specialize (HsA k s Hs). split; [lia|].
    intros k' Hk'. specialize (Hs0 k' s Hk'). lia. }
  assert (Hiso0B : isolated h' (Header req) (Header copyB)).
  { split; [lia|]. intros k s Hs. specialize (HsB k s Hs). split; [lia|].
    intros k' Hk'. specialize (Hs0 k' s Hk'). lia. }
  split; [exact Harr|]. split; [exact Hmaps|]. split; [exact Hv0|].
  split; [intros ops; by destruct (mutate_isolated _ _ ops h' HisoA0)|].
  split; [intros ops; by destruct (mutate_isolated _ _ ops h' HisoB0)|].
  split; [intros ops; by destruct (mutate_isolated _ _ ops h' Hiso0A)|].
  intros ops; by destruct (mutate_isolated _ _ ops h' Hiso0B).
Qed.

Lemma duplicate_leaves_request_intact_witness :
  let h := Sample.heap0 "PHPSESSID=abc; lang=en" None in
  wf_request h Sample.request0 /\
  exists copyA copyB h',
    DuplicateRequest Sample.request0 h = ((copyA, copyB), h') /\
    header_view h' (Header Sample.request0) = header_view h (Header Sample.request0) /\
    header_view (mutate (Header Sample.request0) [OpDel "Cookie"] h') (Header copyA)
      = header_view h' (Header copyA).
Proof.
  intros h.
  assert (Hwf : wf_request h Sample.request0).
  { split; [vm_compute; lia|]. apply map_Forall_to_list. vm_compute. repeat constructor. }
  destruct (DuplicateRequest Sample.request0 h) as [[copyA copyB] h'] eqn:E.
  pose proof (duplicate_leaves_request_intact Sample.request0 h Hwf copyA copyB h' E) as H.
  split; [exact Hwf|]. exists copyA, copyB, h'.
  split; [reflexivity|]. split; [apply H|]. apply H.
Defined.


(** ** Cookies on the wire: what [AddCookie] prints, [Cookie] reads back *)

Lemma trim_right_id s :
  (forall c, Strings.last_byte s = Some c -> Strings.is_space c = false) ->
  Strings.trim_right s = s.
Proof.
  induction s as [|a s IH]; [done|]. intros Hlast. cbn [Strings.trim_right].
  destruct s as [|b s].
  - cbn. by rewrite (Hlast a eq_refl).
  - rewrite IH; [done|]. intros c Hc. apply Hlast. exact Hc.
Qed.

Lemma Split_no_sep s sep :
  Strings.any_byte (fun a => Ascii.eqb a sep) s = false -> Strings.Split s sep = [s].
Proof.
  induction s as [|a s IH]; [done|]. cbn [Strings.any_byte Strings.Split].
  intros [Ha Hs]%orb_false_elim. rewrite Ha. by rewrite (IH Hs).
Qed.

Lemma append_single_nonempty s c : s +:+ String c EmptyString <> EmptyString.
Proof. by destruct s. Qed.

Lemma last_byte_step a t :
  t <> EmptyString -> Strings.last_byte (String a t) = Strings.last_byte t.
Proof. by destruct t. Qed.

Lemma drop_last_step a t :
  t <> EmptyString -> Strings.drop_last (String a t) = String a (Strings.drop_last t).
Proof. by destruct t. Qed.

Lemma last_byte_app s c : Strings.last_byte (s +:+ String c EmptyString) = Some c.
Proof.
  induction s as [|a s IH]; [done|].
  change (String a s +:+ String c EmptyString) with (String a (s +:+ String c EmptyString)).
  rewrite last_byte_step by apply append_single_nonempty. exact IH.
Qed.

Lemma drop_last_app s c : Strings.drop_last (s +:+ String c EmptyString) = s.
Proof.
  induction s as [|a s IH]; [done|].
  change (String a s +:+ String c EmptyString) with (String a (s +:+ String c EmptyString)).
  rewrite drop_last_step by apply append_single_nonempty. by rewrite IH.
Qed.

Lemma last_byte_cons a s c :
  Strings.last_byte s = Some c -> Strings.last_byte (String a s) = Some c.
Proof. destruct s; [done|]. by cbn. Qed.

Lemma last_byte_append s t c :
  Strings.last_byte t = Some c -> Strings.last_byte (s +:+ t) = Some c.
Proof.
  intros Ht. induction s as [|a s IH]; [done|].
  change (String a s +:+ t) with (String a (s +:+ t)). by apply last_byte_cons.
Qed.

Lemma any_byte_append p s t :
  Strings.any_byte p (s +:+ t) = Strings.any_byte p s || Strings.any_byte p t.
Proof.
  induction s as [|a s IH]; [done|].
  change (String a s +:+ t) with (String a (s +:+ t)). cbn [Strings.any_byte].
  by rewrite IH, orb_assoc.
Qed.

Lemma filter_bytes_all p s : Strings.all_bytes p s = true -> Strings.filter_bytes p s = s.
Proof.
  induction s as [|a s IH]; [done|]. cbn [Strings.all_bytes Strings.filter_bytes].
  intros [Ha Hs]%andb_prop. by rewrite Ha, (IH Hs).
Qed.

Lemma all_bytes_none p q s :
  (forall a, p a = true -> q a = false) ->
  Strings.all_bytes p s = true -> Strings.any_byte q s = false.
Proof.
  intros Hpq. induction s as [|a s IH]; [done|]. cbn [Strings.all_bytes Strings.any_byte].
  intros [Ha Hs]%andb_prop. by rewrite (Hpq a Ha), (IH Hs).
Qed.

Lemma all_bytes_last p s c :
  Strings.all_bytes p s = true -> Strings.last_byte s = Some c -> p c = true.
Proof.
  induction s as [|a s IH]; [done|]. cbn [Strings.all_bytes].
  intros [Ha Hs]%andb_prop. destruct s as [|b s]; [by intros [= <-]|].
  intros Hl. by apply IH.
Qed.

Lemma any_byte_last q s c :
  Strings.any_byte q s = false -> Strings.last_byte s = Some c -> q c = false.
Proof.
  induction s as [|a s IH]; [done|]. cbn [Strings.any_byte].
  intros [Ha Hs]%orb_false_elim. destruct s as [|b s]; [by intros [= <-]|].
  intros Hl. by apply IH.
Qed.

Lemma last_byte_some s : s <> EmptyString -> exists c, Strings.last_byte s = Some c.
Proof.
  induction s as [|a s IH]; [done|]. intros _. destruct s as [|b s]; [by exists a|].
  destruct IH as [c Hc]; [done|]. exists c. by rewrite last_byte_step.
Qed.

Lemma valid_not_semicolon a :
  CookieLib.validCookieValueByte a = true -> Ascii.eqb a ";"%char = false.
Proof.
  unfold CookieLib.validCookieValueByte. intros H.
  apply andb_prop in H as [H _]. apply andb_prop in H as [_ H].
  by apply negb_true_iff in H.
Qed.

Lemma valid_not_dquote a :
  CookieLib.validCookieValueByte a = true -> Ascii.eqb a Strings.dquote = false.
Proof.
  unfold CookieLib.validCookieValueByte. intros H.
  apply andb_prop in H as [H _]. apply andb_prop in H as [H _]. apply andb_prop in H as [_ H].
  by apply negb_true_iff in H.
Qed.

(** A sanitized value reads back as the value, for a value of valid bytes. *)
Lemma parse_sanitized v :
  valid_value v ->
  CookieLib.parseCookieValue (CookieLib.sanitizeCookieValue v) true = Some v.
Proof.
  unfold valid_value, CookieLib.sanitizeCookieValue, CookieLib.parseCookieValue. intros Hv.
  rewrite (filter_bytes_all _ _ Hv).
  destruct v as [|a v]; [done|].
  destruct (Strings.any_byte _ (String a v)).
  - cbn [CookieLib.strip_quotes]. rewrite Ascii.eqb_refl, last_byte_app, Ascii.eqb_refl.
    by rewrite drop_last_app, Hv.
  - cbn [CookieLib.strip_quotes]. cbn [Strings.all_bytes] in Hv.
    apply andb_prop in Hv as [Ha Hv']. rewrite (valid_not_dquote a Ha).
    cbn [Strings.all_bytes]. by rewrite Ha, Hv'.
Qed.

(** What follows the name in a printed cookie has no semicolon and does
    not end in white space. *)
Lemma sanitized_shape v :
  valid_value v ->
  Strings.any_byte (fun a => Ascii.eqb a ";"%char) (CookieLib.sanitizeCookieValue v) = false /\
  forall c, Strings.last_byte ("=" +:+ CookieLib.sanitizeCookieValue v) = Some c ->
            Strings.is_space c = false.
Proof.
  unfold valid_value, CookieLib.sanitizeCookieValue. intros Hv.
  rewrite (filter_bytes_all _ _ Hv).
  pose proof (all_bytes_none _ (fun a => Ascii.eqb a ";"%char) v valid_not_semicolon Hv) as Hsemi.
  destruct v as [|a v]; [split; [done|by intros c [= <-]]|].
  destruct (Strings.any_byte (fun c => Ascii.eqb c " "%char || Ascii.eqb c ","%char) (String a v))
    eqn:Hsp.
  - split.
    + change (String Strings.dquote (String a v +:+ String Strings.dquote EmptyString))
        with (String Strings.dquote EmptyString +:+ (String a v +:+ String Strings.dquote EmptyString)).
      rewrite !any_byte_append, Hsemi. reflexivity.
    + intros c.
      rewrite (last_byte_append "=" _ Strings.dquote).
      * by intros [= <-].
      * apply last_byte_cons, last_byte_app.
  - split; [exact Hsemi|]. intros c Hc.
    destruct (last_byte_some (String a v) ltac:(done)) as [c' Hl].
    rewrite (last_byte_append "=" _ c' Hl) in Hc. injection Hc as <-.
    pose proof (all_bytes_last _ _ _ Hv Hl) as Hvalid.
    pose proof (any_byte_last _ _ _ Hsp Hl) as Hq.
    unfold CookieLib.validCookieValueByte in Hvalid.
    destruct c' as [[] [] [] [] [] [] [] []]; try discriminate Hvalid; try discriminate Hq;
      reflexivity.
Qed.

(** The line [AddCookie] prints for the session cookie. *)
Lemma printed_line_trim sv :
  Strings.any_byte (fun a => Ascii.eqb a ";"%char) sv = false ->
  (forall c, Strings.last_byte ("=" +:+ sv) = Some c -> Strings.is_space c = false) ->
  Strings.TrimString (cookieName +:+ "=" +:+ sv) = cookieName +:+ "=" +:+ sv /\
  Strings.Split (cookieName +:+ "=" +:+ sv) ";"%char = [cookieName +:+ "=" +:+ sv].
Proof.
  intros Hsemi Hlast. split.
  - unfold Strings.TrimString.
    assert (Hl : Strings.trim_left (cookieName +:+ "=" +:+ sv) = cookieName +:+ "=" +:+ sv)
      by reflexivity.
    rewrite Hl. apply trim_right_id. intros c Hc. apply Hlast.
    destruct (last_byte_some ("=" +:+ sv) ltac:(done)) as [c' Hc'].
    rewrite (last_byte_append cookieName _ c' Hc') in Hc. by injection Hc as <-.
  - apply Split_no_sep. rewrite !any_byte_append, Hsemi. reflexivity.
Qed.

Lemma readCookiePart_printed filter v :
  valid_value v ->
  CookieLib.readCookiePart filter (cookieName +:+ "=" +:+ CookieLib.sanitizeCookieValue v) =
  if String.eqb filter EmptyString || String.eqb filter cookieName
  then Some (CookieLib.bare cookieName v) else None.
Proof.
  intros Hv. destruct (sanitized_shape v Hv) as [Hsemi Hlast].
  destruct (printed_line_trim _ Hsemi Hlast) as [Htrim _].
  unfold CookieLib.readCookiePart. rewrite Htrim.
  assert (Hcut : Strings.Cut (cookieName +:+ "=" +:+ CookieLib.sanitizeCookieValue v) "="%char
                 = (cookieName, CookieLib.sanitizeCookieValue v, true)) by reflexivity.
  change (cookieName +:+ "=" +:+ CookieLib.sanitizeCookieValue v)
    with (String "P" ("HPSESSID" +:+ "=" +:+ CookieLib.sanitizeCookieValue v)) at 1.
  cbv iota. rewrite Hcut.
  assert (Hname : Strings.TrimString cookieName = cookieName) by reflexivity.
  rewrite Hname.
  assert (Hvalid : CookieLib.isCookieNameValid cookieName = true) by reflexivity.
  rewrite Hvalid. cbn [negb]. rewrite (parse_sanitized v Hv).
  destruct (String.eqb filter EmptyString); destruct (String.eqb filter cookieName); reflexivity.
Qed.

(** Read back from the printed line, the session cookie is the only
    cookie there, with the value that was printed. *)
Lemma readCookies_printed filter v :
  valid_value v ->
  CookieLib.readCookies [cookieName +:+ "=" +:+ CookieLib.sanitizeCookieValue v] filter =
  if String.eqb filter EmptyString || String.eqb filter cookieName
  then [CookieLib.bare cookieName v] else [].
Proof.
  intros Hv. destruct (sanitized_shape v Hv) as [Hsemi Hlast].
  destruct (printed_line_trim _ Hsemi Hlast) as [Htrim Hsplit].
  unfold CookieLib.readCookies. cbn [flat_map]. rewrite Htrim, Hsplit.
  cbn [omap list_omap]. rewrite (readCookiePart_printed filter v Hv).
  by destruct (_ || _).
Qed.

(** The values the parsers of [net/http] hand out are made of valid bytes:
    so is every value the goroutine stores in the cache. *)
Lemma parseCookieValue_valid raw q v :
  CookieLib.parseCookieValue raw q = Some v -> valid_value v.
Proof.
  unfold CookieLib.parseCookieValue, valid_value.
  destruct (Strings.all_bytes _ _) eqn:E; [|done]. by intros [= <-].
Qed.

(** The attributes of a [Set-Cookie] line change neither the name nor
    the value. *)
Lemma set_attribute_name_value c part :
  Name (CookieLib.set_attribute c part) = Name c /\
  Value (CookieLib.set_attribute c part) = Value c.
Proof.
  unfold CookieLib.set_attribute.
  destruct (Strings.TrimString part); [done|].
  destruct (Strings.Cut _ _) as [[attr val] ok].
  destruct (negb _); [done|].
  destruct (CookieLib.parseCookieValue val false) as [v|]; [|done].
  repeat (match goal with
          | |- context [if ?b then _ else _] => destruct b
          | |- context [match ?o with Some _ => _ | None => _ end] => destruct o
          | |- context [match ?o with String _ _ => _ | EmptyString => _ end] => destruct o
          end; try done).
Qed.

Lemma fold_attributes_name_value parts c :
  Name (fold_left CookieLib.set_attribute parts c) = Name c /\
  Value (fold_left CookieLib.set_attribute parts c) = Value c.
Proof.
  revert c. induction parts as [|part parts IH]; intros c; [done|].
  cbn [fold_left]. destruct (IH (CookieLib.set_attribute c part)) as [-> ->].
  apply set_attribute_name_value.
Qed.

(** What [readSetCookie] makes of a line: a token name, and a value of
    cookie value bytes. *)
Lemma readSetCookie_name_value line c :
  CookieLib.readSetCookie line = Some c ->
  CookieLib.isCookieNameValid (Name c) = true /\ valid_value (Value c).
Proof.
  unfold CookieLib.readSetCookie.
  destruct (Strings.Split _ _) as [|first rest]; [done|].
  destruct (Strings.Cut _ _) as [[name value] ok].
  destruct (negb ok); [done|].
  destruct (CookieLib.isCookieNameValid _) eqn:En; [|done]. cbn [negb].
  destruct (CookieLib.parseCookieValue value true) as [v|] eqn:E; [|done].
  intros [= <-]. destruct (fold_attributes_name_value rest (CookieLib.bare
    (Strings.TrimString name) v)) as [-> ->].
  cbn [Name Value CookieLib.bare]. split; [exact En|]. by eapply parseCookieValue_valid.
Qed.

Lemma readSetCookie_valid line c : CookieLib.readSetCookie line = Some c -> valid_value (Value c).
Proof. intros H. by destruct (readSetCookie_name_value line c H). Qed.

Lemma FindCookie_range_elem cs name c : FindCookie_range cs name = Some c -> c ∈ cs.
Proof.
  induction cs as [|c0 cs IH]; [done|]. cbn [FindCookie_range].
  destruct (Strings.EqualFold _ _).
  - intros [= ->]. apply list_elem_of_here.
  - intros H. apply list_elem_of_further. by apply IH.
Qed.

Lemma wire_cookie_valid wr name c : wire_cookie wr name = Some c -> valid_value (Value c).
Proof.
  unfold wire_cookie, FindCookie, Cookies, CookieLib.readSetCookies. intros H.
  apply FindCookie_range_elem in H. apply list_elem_of_omap in H as (line & _ & H).
  by eapply readSetCookie_valid.
Qed.

(** ** [FindCookie] *)

Lemma token_is_ascii c : Strings.is_token c = true -> Strings.is_ascii c = true.
Proof. destruct c as [[] [] [] [] [] [] [] []]; by vm_compute. Qed.

Lemma token_name_ascii n :
  CookieLib.isCookieNameValid n = true -> Strings.all_bytes Strings.is_ascii n = true.
Proof.
  unfold CookieLib.isCookieNameValid. destruct n as [|a n]; [done|].
  generalize (String a n). clear. intros s.
  induction s as [|a s IH]; [done|]. cbn [Strings.all_bytes].
  intros [Ha Hs]%andb_true_iff. by rewrite (token_is_ascii a Ha), (IH Hs).
Qed.

Lemma Cookies_elem resp c :
  c ∈ Cookies resp -> CookieLib.isCookieNameValid (Name c) = true /\ valid_value (Value c).
Proof.
  unfold Cookies, CookieLib.readSetCookies. intros H.
  apply list_elem_of_omap in H as (line & _ & H). by eapply readSetCookie_name_value.
Qed.

Lemma FindCookie_range_first cs name :
  (forall c, FindCookie_range cs name = Some c <->
     exists before after,
       cs = before ++ c :: after /\
       Strings.EqualFold (Name c) name = true /\
       Forall (fun c' => Strings.EqualFold (Name c') name = false) before) /\
  (FindCookie_range cs name = None <->
     Forall (fun c' => Strings.EqualFold (Name c') name = false) cs).
Proof.
  split.
  - intros c. induction cs as [|c0 cs IH]; cbn [FindCookie_range].
    + split; [done|]. intros (before & after & Heq & _). by destruct before.
    + destruct (Strings.EqualFold (Name c0) name) eqn:E0.
      * split.
        -- intros [= <-]. exists [], cs. by repeat split.
        -- intros (before & after & Heq & Hc & Hpre).
           destruct before as [|b before]; cbn in Heq.
           ++ by injection Heq as <- _.
           ++ injection Heq as <- _. apply Forall_cons in Hpre as [Hb _]. congruence.
      * rewrite IH. split.
        -- intros (before & after & -> & Hc & Hpre).
           exists (c0 :: before), after. split; [done|]. split; [done|]. by constructor.
        -- intros (before & after & Heq & Hc & Hpre).
           destruct before as [|b before]; cbn in Heq.
           ++ injection Heq as -> _. congruence.
           ++ injection Heq as _ ->. apply Forall_cons in Hpre as [_ Hpre]. eauto.
  - induction cs as [|c0 cs IH]; cbn [FindCookie_range]; [by split|].
    destruct (Strings.EqualFold (Name c0) name) eqn:E0.
    + split; [done|]. intros [? _]%Forall_cons. congruence.
    + rewrite IH. split; [by constructor|]. by intros [_ ?]%Forall_cons.
Qed.



(** X1. [FindCookie] returns the first cookie of the response, in the
    order of its [Set-Cookie] lines, whose name equals the wanted name
    under case folding; it returns nil exactly when no cookie of the
    response has such a name.  The cookies of a response have token
    names, so the folding is that of an ASCII name against the wanted
    name: letters match in either case, and a Kelvin sign or a long s in
    the wanted name matches [k] or [s]. *)
Theorem FindCookie_first_match (resp : Response) (name : string) :
  (forall c, FindCookie resp name = Some c <->
     exists before after,
       Cookies resp = before ++ c :: after /\
       Strings.EqualFold (Name c) name = true /\
       Forall (fun c' => Strings.EqualFold (Name c') name = false) before) /\
  (FindCookie resp name = None <->
     Forall (fun c' => Strings.EqualFold (Name c') name = false) (Cookies resp)) /\
  Forall (fun c => CookieLib.isCookieNameValid (Name c) = true /\
                   Strings.EqualFold (Name c) name = Strings.fold_ascii (Name c) name)
    (Cookies resp).
Proof.
  destruct (FindCookie_range_first (Cookies resp) name) as [Hsome Hnone].
  split; [exact Hsome|]. split; [exact Hnone|].
  apply Forall_forall. intros c Hc. destruct (Cookies_elem resp c Hc) as [Hn _].
  split; [exact Hn|]. unfold Strings.EqualFold. by rewrite (token_name_ascii _ Hn).
Qed.

(** ** The events of the two dispatches *)

Ltac trace_go :=
  cbn [writer session_cache spawned stdout trace clock heap fst snd
       W.set_stdout W.set_trace W.set_heap W.set_cache];
  unfold dispatch_events; cbn [on_dial on_write on_read];
  rewrite <- ?app_assoc; cbn [app]; rewrite ?app_nil_r.

Lemma dispatch_trace fl prod h a p σ :
  trace (snd (ServeHTTP_dispatch fl prod h a p σ)) =
  trace σ ++
  dispatch_events (Target h) (Net.Seconds (productionTimeout fl)) prod (view (heap σ) p).
Proof.
  destruct (reply prod) as [wr|] eqn:Hr.
  - destruct (dispatch_replied fl prod h a p σ wr Hr) as (r & σ' & -> & _ & _ & _ & Ht & _).
    apply reply_Some in Hr as (Hd & Hw & _). cbn [snd]. rewrite Ht.
    unfold dispatch_events. by rewrite Hd, Hw.
  - destruct prod as [d w r]. unfold reply in Hr. cbn [on_dial on_write on_read] in Hr.
    destruct d as [[]|e|v]; [|run_go; trace_go; reflexivity..].
    destruct w as [[]|e|v]; [|run_go; trace_go; reflexivity..].
    destruct r as [wr|e|v]; [done|run_go; trace_go; reflexivity..].
Qed.

Lemma func1_trace fl alt c σ :
  trace (snd (ServeHTTP_func1 fl alt c σ)) =
  trace σ ++
  match closure_mapping alt c with
  | Some (k, x) =>
      [EvDial (Alternative (cl_h c)) (Net.Seconds (alternateTimeout fl));
       EvWrite (Alternative (cl_h c)) (view (heap σ) (cl_alternativeRequest c));
       EvRead (Alternative (cl_h c)); EvCacheSet k x; EvClose (Alternative (cl_h c))]
  | None =>
      dispatch_events (Alternative (cl_h c)) (Net.Seconds (alternateTimeout fl)) alt
        (view (heap σ) (cl_alternativeRequest c))
  end.
Proof.
  destruct alt as [d w r]. unfold closure_mapping, reply. cbn [on_dial on_write on_read].
  destruct d as [[]|e|v].
  2,3: destruct (debug fl) eqn:Hdbg; run_go; rewrite Hdbg; gstep;
       destruct (cl_productionCookie c); trace_go; reflexivity.
  destruct w as [[]|e|v].
  2,3: destruct (debug fl) eqn:Hdbg; run_go; rewrite Hdbg; gstep;
       destruct (cl_productionCookie c); trace_go; reflexivity.
  destruct r as [wr|e|v].
  2,3: destruct (debug fl) eqn:Hdbg; run_go; rewrite Hdbg; gstep;
       destruct (cl_productionCookie c); trace_go; reflexivity.
  run_go. unfold Net.new_stream. gstep.
  change (FindCookie _ (cl_cookieName c)) with (wire_cookie wr (cl_cookieName c)).
  destruct (cl_productionCookie c) as [pc|]; [destruct (wire_cookie wr (cl_cookieName c)) as [ac|]|];
    unfold SessionCache_Set; gstep; destruct (debug fl); trace_go; reflexivity.
Qed.

(** A panic of the production dispatch leaves the handler as a panic. *)
Lemma dispatch_panics fl prod h a p σ :
  dispatch_panic prod ->
  exists v σ',
    ServeHTTP_dispatch fl prod h a p σ = (Panicking v, σ') /\
    (on_dial prod = Panic v \/ on_write prod = Panic v \/ on_read prod = Panic v) /\
    writer σ' = writer σ /\ spawned σ' = spawned σ /\ stdout σ' = stdout σ.
Proof.
  destruct prod as [d w r].
  intros [[v Hv]|[[Hd [v Hv]]|(Hd & Hw & [v Hv])]]; cbn [on_dial on_write on_read] in *; subst;
    run_go; do 2 eexists; (split; [reflexivity|]); cbn [writer spawned stdout W.set_trace];
    (split; [eauto|]); repeat split; reflexivity.
Qed.


(** ** The requests as the backends see them *)

Lemma AddCookie_urls r c h : urls (snd (Http.AddCookie r c h)) = urls h.
Proof.
  unfold Http.AddCookie, hbind, Http.Get, hbind, Http.values. hstep.
  by destruct (default [] _) as [|[|??] ?].
Qed.

Lemma rewritten_heap_urls req a c now h1 : urls (rewritten_heap req a c now h1) = urls h1.
Proof.
  unfold rewritten_heap. destruct (session_cookie h1 req) as [cookie|]; [|done].
  destruct (GoCache.Get c now (Value cookie)); [|done]. by rewrite AddCookie_urls.
Qed.

Lemma view_ext h h' r b :
  Body r = nopCloser b ->
  arrays h' = arrays h -> hmaps h' = hmaps h -> buffers h' = buffers h -> urls h' = urls h ->
  view h' r = view h r.
Proof.
  intros Hb Ha Hm Hbu Hu. unfold view. rewrite Hb, !body_bytes_nopCloser.
  unfold header_view, entries, elems, contents. by rewrite Ha, Hm, Hbu, Hu.
Qed.

(** The two copies as the backends will see them, after the first part of
    the handler; the inbound header is not touched. *)
Lemma rewrite_views req σ :
  wf_request (heap σ) req ->
  exists a p σ1 ba bp,
    ServeHTTP_rewrite req σ = (Done (a, p), σ1) /\
    Body a = nopCloser ba /\ Body p = nopCloser bp /\
    view (heap σ1) p = forwarded (heap σ) req (header_view (heap σ) (Header req)) /\
    view (heap σ1) a =
      forwarded (heap σ) req (shadow_header (heap σ) req (session_cache σ) (clock σ)) /\
    header_view (heap σ1) (Header req) = header_view (heap σ) (Header req) /\
    writer σ1 = writer σ /\ session_cache σ1 = session_cache σ /\
    trace σ1 = trace σ /\ spawned σ1 = spawned σ /\ clock σ1 = clock σ.
Proof.
  intros Hwf.
  destruct (rewrite_frame req σ) as (σ1 & Heq & Hheap & Hbuf & Hw & Hc & Ht & Hs & Hk).
  destruct (DuplicateRequest_spec req (heap σ) Hwf)
    as (h1 & m1 & m2 & Hdup & _ & Hurls & _ & _ & Hb1 & Hb2 & _).
  set (a := mkRequest _ _ _ _ _ (length (hmaps (heap σ))) _ _ _) in Hdup.
  set (p := mkRequest _ _ _ _ _ (S (length (hmaps (heap σ)))) _ _ _) in Hdup.
  rewrite Hdup in Heq, Hheap, Hbuf. cbn [fst snd] in Heq, Hheap, Hbuf.
  destruct (DuplicateRequest_headers req (heap σ) Hwf a p h1 Hdup)
    as (Hva & Hvp & Hv0 & _ & _ & Hiso_a0 & _ & Hma & _).
  assert (Hu1 : urls (heap σ1) = urls (heap σ)).
  { by rewrite Hheap, rewritten_heap_urls. }
  assert (Hbody : forall b, buffers h1 !! b = Some (IO.body_bytes (heap σ) (Body req)) ->
            IO.body_bytes (heap σ1) (nopCloser b) = IO.body_bytes (heap σ) (Body req)).
  { intros b Hb. rewrite body_bytes_nopCloser. unfold contents. by rewrite Hbuf, Hb. }
  assert (Hhdrs : header_view (heap σ1) (Header p) = header_view (heap σ) (Header req) /\
                  header_view (heap σ1) (Header a) =
                    shadow_header (heap σ) req (session_cache σ) (clock σ) /\
                  header_view (heap σ1) (Header req) = header_view (heap σ) (Header req)).
  { rewrite Hheap. unfold rewritten_heap, shadow_header.
    rewrite (session_cookie_after_dup req (heap σ) a p h1 Hwf Hdup).
    destruct (session_cookie (heap σ) req) as [cookie|] eqn:Hcookie; [|done].
    destruct (GoCache.Get (session_cache σ) (clock σ) (Value cookie)) as [v|]; [|done].
    destruct (hit_views req (heap σ) a p h1 cookie v Hwf Hdup (session_cookie_name _ _ _ Hcookie))
      as [Hp Ha].
    split; [exact Hp|]. split; [exact Ha|].
    destruct (replace_cookie_view a (alternateCookie cookie v) h1 Hma) as [Hmut _].
    { intros k s Hs'. destruct (DuplicateRequest_headers req (heap σ) Hwf a p h1 Hdup)
        as (_ & _ & _ & _ & [_ Hpa] & _). by destruct (Hpa k s Hs'). }
    rewrite Hmut.
    destruct (mutate_isolated _ _
      [OpDel "Cookie"; OpSet "Cookie" (CookieLib.cookie_pair (alternateCookie cookie v))]
      h1 Hiso_a0) as [_ ->]. exact Hv0. }
  destruct Hhdrs as (Hhp & Hha & Hh0).
  exists a, p, σ1, (length (buffers (heap σ))), (S (length (buffers (heap σ)))).
  split; [exact Heq|]. split; [reflexivity|]. split; [reflexivity|].
  split; [|split; [|split; [exact Hh0|done]]].
  - unfold view, forwarded. rewrite Hhp, Hu1. cbn [Method URL Proto Body Host ContentLength p].
    by rewrite (Hbody _ Hb2).
  - unfold view, forwarded. rewrite Hha, Hu1. cbn [Method URL Proto Body Host ContentLength a].
    by rewrite (Hbody _ Hb1).
Qed.

(** The dispatch to the production target changes, in the heap, only the
    streams. *)
Lemma dispatch_heap fl prod h a p σ :
  arrays (heap (snd (ServeHTTP_dispatch fl prod h a p σ))) = arrays (heap σ) /\
  hmaps (heap (snd (ServeHTTP_dispatch fl prod h a p σ))) = hmaps (heap σ) /\
  buffers (heap (snd (ServeHTTP_dispatch fl prod h a p σ))) = buffers (heap σ) /\
  urls (heap (snd (ServeHTTP_dispatch fl prod h a p σ))) = urls (heap σ).
Proof.
  destruct (reply prod) as [wr|] eqn:Hr.
  - by destruct (dispatch_replied fl prod h a p σ wr Hr)
      as (r & σ' & -> & _ & _ & _ & _ & ? & ? & ? & ?).
  - destruct prod as [d w r]. unfold reply in Hr. cbn [on_dial on_write on_read] in Hr.
    destruct d as [[]|e|v]; [|by run_go..].
    destruct w as [[]|e|v]; [|by run_go..].
    destruct r as [wr|e|v]; [done|by run_go..].
Qed.

Lemma appended_app (t e : list Event) : appended t (t ++ e) = e.
Proof. unfold appended. by rewrite drop_app_length. Qed.

(** The events of a whole request cycle. *)
Lemma request_cycle_trace fl prod alt h req later σ :
  spawned σ = [] ->
  exists a p σ1 r rs σ',
    ServeHTTP_rewrite req σ = (Done (a, p), σ1) /\
    request_cycle fl prod alt h req later σ = (r, rs, σ') /\
    trace σ' =
      trace σ ++
      dispatch_events (Target h) (Net.Seconds (productionTimeout fl)) prod (view (heap σ1) p) ++
      match relayed prod (writer σ) with
      | Some _ =>
          match new_mapping prod alt with
          | Some (k, x) =>
              [EvDial (Alternative h) (Net.Seconds (alternateTimeout fl));
               EvWrite (Alternative h) (view (heap σ1) a);
               EvRead (Alternative h); EvCacheSet k x; EvClose (Alternative h)]
          | None =>
              dispatch_events (Alternative h) (Net.Seconds (alternateTimeout fl)) alt
                (view (heap σ1) a)
          end
      | None => []
      end.
Proof.
  intros Hsp. unfold request_cycle.
  destruct (ServeHTTP_parts fl prod h req σ) as (σ1 & Hrw & -> & _ & _ & Hw & _ & Ht & Hs & _).
  destruct (DuplicateRequest_shape req (heap σ)) as (b1 & b2 & h1 & h2 & hd & Hdup & _).
  rewrite Hdup in *. cbn [fst snd] in *.
  set (a := mkRequest _ _ _ _ _ h1 _ _ _) in *. set (p := mkRequest _ _ _ _ _ h2 _ _ _) in *.
  pose proof (dispatch_trace fl prod h a p σ1) as Htr.
  pose proof (dispatch_heap fl prod h a p σ1) as (Ha & Hm & Hb & Hu).
  exists a, p, σ1. rewrite <- Hw.
  destruct (relayed prod (writer σ1)) as [wp|] eqn:Hrel.
  - apply relayed_Some in Hrel as [Hp Htk].
    destruct (dispatch_success fl prod h a p σ1 wp Hp Htk)
      as (σ2 & Heq & _ & _ & _ & _ & Hs2 & _).
    rewrite Heq in *. cbn [snd] in *.
    unfold run_spawned. cbn [spawned W.set_clock]. rewrite Hs2, Hs, Hsp. cbn [app run_closures].
    set (c := mkClosure h cookieName a (wire_cookie wp cookieName)).
    pose proof (func1_trace fl alt c (W.set_spawned [] (W.set_clock later σ2))) as Hft.
    destruct (ServeHTTP_func1 fl alt c _) as [r3 σ3]. cbn [snd] in Hft.
    do 3 eexists. split; [exact Hrw|]. split; [reflexivity|].
    rewrite Hft. cbn [trace heap W.set_spawned W.set_clock]. rewrite Htr, Ht, <- app_assoc.
    f_equal. f_equal. subst c. rewrite (closure_mapping_spawned prod alt h a wp Hp).
    cbn [cl_h cl_alternativeRequest].
    rewrite (view_ext (heap σ1) (heap σ2) a b1 eq_refl Ha Hm Hb Hu). reflexivity.
  - destruct (dispatch_not_relayed fl prod h a p σ1 Hrel)
      as (r & σ2 & Heq & _ & _ & _ & _ & Hs2 & _).
    rewrite Heq in *. cbn [snd] in *.
    unfold run_spawned. cbn [spawned W.set_clock]. rewrite Hs2, Hs, Hsp. cbn [run_closures].
    do 3 eexists. split; [exact Hrw|]. split; [reflexivity|].
    cbn [trace W.set_spawned W.set_clock]. by rewrite Htr, Ht, app_nil_r.
Qed.

(** ** The handler and the inbound request *)

Lemma header_view_ext h h' m :
  arrays h' = arrays h -> hmaps h' = hmaps h -> header_view h' m = header_view h m.
Proof. intros Ha Hm. unfold header_view, entries, elems. by rewrite Ha, Hm. Qed.

Lemma ServeHTTP_after_rewrite fl prod h req σ a p σ1 :
  ServeHTTP_rewrite req σ = (Done (a, p), σ1) ->
  ServeHTTP fl prod h req σ = ServeHTTP_dispatch fl prod h a p σ1.
Proof. intros Heq. unfold ServeHTTP, bind. by rewrite Heq. Qed.

(** X4. The handler never changes the header of the request it was
    given, whatever the cache holds and however the dispatch ends: the
    session cookie is replaced in the alternative copy only. *)
Theorem handler_keeps_inbound_header (fl : Flags) (prod : Backend) (h : handler)
    (req : Request) (σ : World) :
  wf_request (heap σ) req ->
  header_view (heap (snd (ServeHTTP fl prod h req σ))) (Header req)
    = header_view (heap σ) (Header req) /\
  session_cookie (heap (snd (ServeHTTP fl prod h req σ))) req = session_cookie (heap σ) req.
Proof.
  intros Hwf.
  destruct (rewrite_views req σ Hwf) as (a & p & σ1 & ba & bp & Heq & _ & _ & _ & _ & Hh & _).
  rewrite (ServeHTTP_after_rewrite fl prod h req σ a p σ1 Heq).
  destruct (dispatch_heap fl prod h a p σ1) as (Ha & Hm & _).
  assert (Hv : header_view (heap (snd (ServeHTTP_dispatch fl prod h a p σ1))) (Header req)
               = header_view (heap σ) (Header req)).
  { by rewrite (header_view_ext _ _ _ Ha Hm). }
  split; [exact Hv|]. by rewrite !session_cookie_eq, Hv.
Qed.

Lemma handler_keeps_inbound_header_witness :
  let σ := Scenario.world "PHPSESSID=abc; lang=en" None Scenario.known_session in
  let σ' := snd (ServeHTTP Scenario.flags (Scenario.answers "PHPSESSID=xyz") Scenario.proxy
                   Sample.request0 σ) in
  wf_request (heap σ) Sample.request0 /\
  header_view (heap σ') (Header Sample.request0) !! "Cookie" = Some ["PHPSESSID=abc; lang=en"].
Proof.
  intros σ σ'. split; [apply sample_wf|].
  destruct (handler_keeps_inbound_header Scenario.flags (Scenario.answers "PHPSESSID=xyz")
              Scenario.proxy Sample.request0 σ (sample_wf _ _ _)) as [Hv _].
  subst σ'. rewrite Hv. reflexivity.
Defined.

(** X5. On a cache hit with a mapped value made of cookie bytes, the
    [Cookie] header written into the alternative copy parses back to one
    cookie, named [PHPSESSID] and with exactly the mapped value; the
    production copy still reads the cookie that was received. *)
Theorem mapped_session_round_trip (req : Request) (σ : World) (cookie : Cookie) (v : string) :
  wf_request (heap σ) req ->
  session_cookie (heap σ) req = Some cookie ->
  GoCache.Get (session_cache σ) (clock σ) (Value cookie) = Some v ->
  valid_value v ->
  exists a p σ1,
    ServeHTTP_rewrite req σ = (Done (a, p), σ1) /\
    CookieLib.readCookies (default [] (header_view (heap σ1) (Header a) !! "Cookie")) EmptyString
      = [CookieLib.bare cookieName v] /\
    session_cookie (heap σ1) a = Some (CookieLib.bare cookieName v) /\
    session_cookie (heap σ1) p = Some cookie.
Proof.
  intros Hwf Hc Hget Hv.
  destruct (rewrite_views req σ Hwf) as (a & p & σ1 & ba & bp & Heq & _ & _ & Hvp & Hva & _).
  apply (f_equal v_Header) in Hvp, Hva. cbn [view forwarded v_Header] in Hvp, Hva.
  unfold shadow_header in Hva. rewrite Hc, Hget in Hva.
  exists a, p, σ1. split; [exact Heq|].
  rewrite !session_cookie_eq, Hva, Hvp, lookup_insert_eq. cbn [default].
  rewrite !(readCookies_printed _ v Hv). cbn [String.eqb orb].
  rewrite String.eqb_refl, orb_true_r.
  split; [reflexivity|]. split; [reflexivity|].
  by rewrite <- session_cookie_eq.
Qed.

Lemma mapped_session_round_trip_witness :
  let σ := Scenario.world "lang=en; PHPSESSID=abc" None Scenario.known_session in
  wf_request (heap σ) Sample.request0 /\
  exists a p σ1,
    ServeHTTP_rewrite Sample.request0 σ = (Done (a, p), σ1) /\
    session_cookie (heap σ1) a = Some (CookieLib.bare cookieName "qqq") /\
    session_cookie (heap σ1) p = Some (CookieLib.bare cookieName "abc").
Proof.
  intros σ. split; [apply sample_wf|].
  destruct (mapped_session_round_trip Sample.request0 σ (CookieLib.bare cookieName "abc") "qqq"
              (sample_wf _ _ _) eq_refl eq_refl eq_refl) as (a & p & σ1 & Heq & _ & Ha & Hp).
  exists a, p, σ1. split; [exact Heq|]. split; [exact Ha|exact Hp].
Defined.

(** X6. The handler itself never writes the session cache: when it
    returns or panics the cache is the one it found, and no cache write
    happened; a mapping is recorded by the goroutine only. *)
Theorem handler_leaves_cache (fl : Flags) (prod : Backend) (h : handler)
    (req : Request) (σ : World) :
  session_cache (snd (ServeHTTP fl prod h req σ)) = session_cache σ /\
  cache_sets (trace (snd (ServeHTTP fl prod h req σ))) = cache_sets (trace σ).
Proof.
  destruct (ServeHTTP_parts fl prod h req σ) as (σ1 & _ & -> & _ & _ & _ & Hc & Ht & _).
  set (a := fst (fst _)). set (p := snd (fst _)).
  destruct (reply prod) as [wr|] eqn:Hr.
  - destruct (dispatch_replied fl prod h a p σ1 wr Hr)
      as (r & σ2 & -> & Hc2 & _ & _ & Ht2 & _).
    cbn [snd]. rewrite Hc2, Hc, Ht2, Ht, cache_sets_app. cbn. by rewrite app_nil_r.
  - destruct (dispatch_no_reply fl prod h a p σ1 Hr)
      as (r & σ2 & -> & _ & Hc2 & _ & _ & _ & Ht2).
    cbn [snd]. by rewrite Hc2, Hc, Ht2, Ht.
Qed.

(** X7. A panic while the production target is dialled, written to or
    read from is not recovered by the handler: its [recover] is deferred
    only at the end of the function.  The handler ends in that panic,
    nothing was sent to the caller, no goroutine was started and nothing
    about the panic was printed. *)
Theorem production_panic_escapes (fl : Flags) (prod : Backend) (h : handler)
    (req : Request) (σ : World) :
  dispatch_panic prod ->
  exists v σ',
    ServeHTTP fl prod h req σ = (Panicking v, σ') /\
    (on_dial prod = Panic v \/ on_write prod = Panic v \/ on_read prod = Panic v) /\
    writer σ' = writer σ /\ spawned σ' = spawned σ /\
    stdout σ' = stdout (snd (ServeHTTP_rewrite req σ)).
Proof.
  intros Hp.
  destruct (ServeHTTP_parts fl prod h req σ) as (σ1 & Hrw & -> & _ & _ & Hw & _ & _ & Hs & _).
  set (a := fst (fst _)). set (p := snd (fst _)).
  destruct (dispatch_panics fl prod h a p σ1 Hp) as (v & σ' & Heq & Hv & Hw' & Hs' & Ho').
  exists v, σ'. split; [exact Heq|]. split; [exact Hv|].
  split; [congruence|]. split; [congruence|]. by rewrite Hrw.
Qed.

Lemma production_panic_escapes_witness :
  let σ := Scenario.world "PHPSESSID=abc" None Scenario.empty_cache in
  dispatch_panic Scenario.faulty /\
  exists σ',
    ServeHTTP Scenario.flags Scenario.faulty Scenario.proxy Sample.request0 σ
      = (Panicking "runtime error", σ') /\
    writer σ' = Writer.fresh /\ spawned σ' = [].
Proof.
  intros σ.
  assert (Hp : dispatch_panic Scenario.faulty).
  { right. left. split; [reflexivity|]. eexists. reflexivity. }
  split; [exact Hp|].
  destruct (production_panic_escapes Scenario.flags Scenario.faulty Scenario.proxy
              Sample.request0 σ Hp) as (v & σ' & Heq & Hv & Hw & Hs & _).
  assert (v = "runtime error") as ->.
  { destruct Hv as [Hv|[Hv|Hv]]; [discriminate Hv| |discriminate Hv]. by injection Hv as <-. }
  exists σ'. split; [exact Heq|]. split; [exact Hw|exact Hs].
Defined.

(** ** Connections *)

Lemma closes_dispatch_events addr d b rv :
  closes (dispatch_events addr d b rv) = if connected b then [addr] else [].
Proof.
  unfold dispatch_events, connected.
  destruct (on_dial b) as [[]|e|v]; [|done..]. by destruct (on_write b) as [[]|e|v].
Qed.

Lemma writes_dispatch_events addr d b rv :
  writes (dispatch_events addr d b rv) = if connected b then [(addr, rv)] else [].
Proof.
  unfold dispatch_events, connected.
  destruct (on_dial b) as [[]|e|v]; [|done..]. by destruct (on_write b) as [[]|e|v].
Qed.

Lemma dial_timeouts_dispatch_events addr d b rv :
  dial_timeouts (dispatch_events addr d b rv) = [(addr, d)].
Proof.
  unfold dispatch_events.
  destruct (on_dial b) as [[]|e|v]; [|done..]. by destruct (on_write b) as [[]|e|v].
Qed.

Lemma closes_app t1 t2 : closes (t1 ++ t2) = closes t1 ++ closes t2.
Proof. apply omap_app. Qed.

Lemma writes_app t1 t2 : writes (t1 ++ t2) = writes t1 ++ writes t2.
Proof. apply omap_app. Qed.

Lemma dial_timeouts_app t1 t2 : dial_timeouts (t1 ++ t2) = dial_timeouts t1 ++ dial_timeouts t2.
Proof. apply omap_app. Qed.

Lemma reply_connected b wr : reply b = Some wr -> connected b = true.
Proof. intros Hr. apply reply_Some in Hr as (Hd & _). unfold connected. by rewrite Hd. Qed.

(** X8. Every connection that was opened is closed, and only those: the
    handler closes the production connection exactly when its dial
    succeeded, also when the write or the read fails or panics, and the
    goroutine does the same with the alternative connection. *)
Theorem opened_connections_are_closed (fl : Flags) (prod alt : Backend) (h : handler)
    (req : Request) (c : Closure) (σ : World) :
  closes (appended (trace σ) (trace (snd (ServeHTTP fl prod h req σ))))
    = (if connected prod then [Target h] else []) /\
  closes (appended (trace σ) (trace (snd (ServeHTTP_func1 fl alt c σ))))
    = (if connected alt then [Alternative (cl_h c)] else []).
Proof.
  split.
  - destruct (ServeHTTP_parts fl prod h req σ) as (σ1 & _ & -> & _ & _ & _ & _ & Ht & _).
    rewrite dispatch_trace, Ht, appended_app. apply closes_dispatch_events.
  - rewrite func1_trace, appended_app.
    destruct (closure_mapping alt c) as [[k x]|] eqn:Hm; [|apply closes_dispatch_events].
    unfold closure_mapping in Hm.
    destruct (cl_productionCookie c); [|done]. destruct (reply alt) as [wa|] eqn:Hr; [|done].
    by rewrite (reply_connected alt wa Hr).
Qed.

Lemma Seconds_exact n : (Z.abs n <= 9223372036)%Z -> Net.Seconds n = (n * Net.Second)%Z.
Proof.
  intros Hn. unfold Net.Seconds, Net.int64, Net.Second.
  change (2 ^ 63)%Z with 9223372036854775808%Z.
  change (2 ^ 64)%Z with 18446744073709551616%Z.
  rewrite Z.mod_small; lia.
Qed.

(** X9. A request cycle dials the production target first, with the
    production timeout, and the alternative target after it, with the
    alternative timeout, exactly when the handler relayed a production
    response (the production target answered and the writer took the
    status code); nothing else is dialled.  A timeout is the number of
    seconds of its flag times [time.Second] in 64-bit arithmetic: that
    many seconds for a flag of up to 9223372036 seconds, wrapped around
    beyond. *)
Theorem cycle_dials_with_timeouts (fl : Flags) (prod alt : Backend) (h : handler)
    (req : Request) (later : Z) (σ : World) :
  spawned σ = [] ->
  exists r rs σ',
    request_cycle fl prod alt h req later σ = (r, rs, σ') /\
    dial_timeouts (appended (trace σ) (trace σ')) =
      (Target h, Net.Seconds (productionTimeout fl)) ::
      match relayed prod (writer σ) with
      | Some _ => [(Alternative h, Net.Seconds (alternateTimeout fl))]
      | None => []
      end /\
    (forall n, (Z.abs n <= 9223372036)%Z -> Net.Seconds n = (n * 1000000000)%Z) /\
    Net.Seconds 9223372037 = (-9223372036709551616)%Z.
Proof.
  intros Hsp.
  destruct (request_cycle_trace fl prod alt h req later σ Hsp)
    as (a & p & σ1 & r & rs & σ' & _ & Heq & Ht).
  exists r, rs, σ'. split; [exact Heq|]. split; [|split; [apply Seconds_exact|reflexivity]].
  rewrite Ht, appended_app, dial_timeouts_app, dial_timeouts_dispatch_events. cbn [app].
  f_equal. destruct (relayed prod (writer σ)) as [wp|]; [|done].
  destruct (new_mapping prod alt) as [[k x]|]; [done|apply dial_timeouts_dispatch_events].
Qed.

Lemma cycle_dials_with_timeouts_witness :
  let σ := Scenario.world "PHPSESSID=abc" None Scenario.empty_cache in
  spawned σ = [] /\
  exists r rs σ',
    request_cycle Scenario.flags (Scenario.answers "PHPSESSID=xyz") Scenario.unreachable
      Scenario.proxy Sample.request0 2000 σ = (r, rs, σ') /\
    dial_timeouts (appended (trace σ) (trace σ')) =
      [("prod:8080", 3000000000%Z); ("alt:8081", 1000000000%Z)].
Proof.
  intros σ. split; [reflexivity|].
  destruct (cycle_dials_with_timeouts Scenario.flags (Scenario.answers "PHPSESSID=xyz")
              Scenario.unreachable Scenario.proxy Sample.request0 2000 σ eq_refl)
    as (r & rs & σ' & Heq & Hd & _).
  exists r, rs, σ'. split; [exact Heq|exact Hd].
Defined.

(** ** What the backends are sent *)

(** X10. What the handler writes to the production connection is the
    request it was given: method, URL, host, content length, the header
    and the whole body as they were on arrival, with the protocol set to
    HTTP/1.1; it is passed to the connection's [Write] once, when the dial
    succeeded, and nothing is written otherwise. *)
Theorem production_is_sent_the_request (fl : Flags) (prod : Backend) (h : handler)
    (req : Request) (σ : World) :
  wf_request (heap σ) req ->
  writes (appended (trace σ) (trace (snd (ServeHTTP fl prod h req σ)))) =
    if connected prod
    then [(Target h, forwarded (heap σ) req (header_view (heap σ) (Header req)))]
    else [].
Proof.
  intros Hwf.
  destruct (rewrite_views req σ Hwf)
    as (a & p & σ1 & ba & bp & Heq & _ & _ & Hvp & _ & _ & _ & _ & Ht & _).
  rewrite (ServeHTTP_after_rewrite fl prod h req σ a p σ1 Heq).
  by rewrite dispatch_trace, Ht, appended_app, writes_dispatch_events, Hvp.
Qed.

Lemma production_is_sent_the_request_witness :
  let σ := Scenario.world "PHPSESSID=abc" None Scenario.known_session in
  let σ' := snd (ServeHTTP Scenario.flags Scenario.faulty Scenario.proxy Sample.request0 σ) in
  wf_request (heap σ) Sample.request0 /\
  exists rv,
    writes (appended (trace σ) (trace σ')) = [("prod:8080", rv)] /\
    v_Proto rv = "HTTP/1.1" /\ v_Body rv = Sample.body /\
    v_Header rv !! "Cookie" = Some ["PHPSESSID=abc"].
Proof.
  intros σ σ'. split; [apply sample_wf|].
  pose proof (production_is_sent_the_request Scenario.flags Scenario.faulty Scenario.proxy
                Sample.request0 σ (sample_wf _ _ _)) as Hw.
  eexists. split; [exact Hw|]. split; [reflexivity|]. split; reflexivity.
Defined.

(** X11. In a request cycle in which the handler relays a production
    response (the production target answered and the writer took the
    status code), the alternative target, when its dial succeeds, is sent
    the same request as the production target, body included, except for
    the header: there the [Cookie] lines are replaced by the mapped
    session cookie when the cache, at the time the handler ran, mapped
    the session of the request.  When the handler relays nothing, the
    alternative target is sent nothing. *)
Theorem alternative_is_sent_the_rewritten_request (fl : Flags) (prod alt : Backend)
    (h : handler) (req : Request) (later : Z) (σ : World) :
  wf_request (heap σ) req ->
  spawned σ = [] ->
  exists r rs σ',
    request_cycle fl prod alt h req later σ = (r, rs, σ') /\
    writes (appended (trace σ) (trace σ')) =
      (if connected prod
       then [(Target h, forwarded (heap σ) req (header_view (heap σ) (Header req)))]
       else []) ++
      match relayed prod (writer σ) with
      | Some _ =>
          if connected alt
          then [(Alternative h,
                 forwarded (heap σ) req
                   (shadow_header (heap σ) req (session_cache σ) (clock σ)))]
          else []
      | None => []
      end.
Proof.
  intros Hwf Hsp.
  destruct (rewrite_views req σ Hwf)
    as (a & p & σ1 & ba & bp & Heq & _ & _ & Hvp & Hva & _).
  destruct (request_cycle_trace fl prod alt h req later σ Hsp)
    as (a' & p' & σ1' & r & rs & σ' & Heq' & Hcyc & Ht).
  rewrite Heq in Heq'. injection Heq' as <- <- <-.
  exists r, rs, σ'. split; [exact Hcyc|].
  rewrite Ht, appended_app, writes_app, writes_dispatch_events, Hvp, Hva. f_equal.
  destruct (relayed prod (writer σ)) as [wp|] eqn:Hrel; [|done].
  apply relayed_Some in Hrel as [Hp _].
  destruct (new_mapping prod alt) as [[k x]|] eqn:Hm; [|apply writes_dispatch_events].
  unfold new_mapping in Hm. rewrite Hp in Hm.
  destruct (reply alt) as [wa|] eqn:Ha; [|done]. by rewrite (reply_connected alt wa Ha).
Qed.

Lemma alternative_is_sent_the_rewritten_request_witness :
  let σ := Scenario.world "PHPSESSID=abc" None Scenario.known_session in
  let prod := Scenario.answers "PHPSESSID=xyz" in
  wf_request (heap σ) Sample.request0 /\ spawned σ = [] /\
  exists r rs σ' rv1 rv2,
    request_cycle Scenario.flags prod Scenario.faulty Scenario.proxy Sample.request0 2000 σ
      = (r, rs, σ') /\
    writes (appended (trace σ) (trace σ')) = [("prod:8080", rv1); ("alt:8081", rv2)] /\
    v_Header rv1 !! "Cookie" = Some ["PHPSESSID=abc"] /\
    v_Header rv2 !! "Cookie" = Some ["PHPSESSID=qqq"] /\
    v_Body rv2 = Sample.body.
Proof.
  intros σ prod. split; [apply sample_wf|]. split; [reflexivity|].
  destruct (alternative_is_sent_the_rewritten_request Scenario.flags prod Scenario.faulty
              Scenario.proxy Sample.request0 2000 σ (sample_wf _ _ _) eq_refl)
    as (r & rs & σ' & Heq & Hw).
  exists r, rs, σ'. do 2 eexists. split; [exact Heq|].
  split; [exact Hw|]. split; [reflexivity|]. split; reflexivity.
Defined.

(** ** The relay on a writer that was used before *)



(** ** The life of a recorded mapping *)

Lemma Get_Set_at c later k x now :
  GoCache.Get (GoCache.Set_ c later k x GoCache.DefaultExpiration) now k =
  if ((0 <? defaultExpiration c) && (0 <? later + defaultExpiration c)
      && (later + defaultExpiration c <? now))%Z
  then None else Some x.
Proof.
  unfold GoCache.Get, GoCache.Set_. cbn [items]. rewrite lookup_insert_eq. cbn [Expiration Object].
  rewrite Z.eqb_refl.
  destruct (0 <? defaultExpiration c)%Z; cbn [andb]; [done|].
  by destruct (0 <? 0)%Z eqn:E.
Qed.

Lemma Get_Set_other c later k x now k' :
  k' <> k ->
  GoCache.Get (GoCache.Set_ c later k x GoCache.DefaultExpiration) now k' = GoCache.Get c now k'.
Proof.
  intros Hk. unfold GoCache.Get, GoCache.Set_. cbn [items]. by rewrite lookup_insert_ne.
Qed.

(** A cycle records a mapping when the handler relays a production
    response and both responses carry the session cookie. *)
Lemma cycle_mapping_records prod alt w k x :
  cycle_mapping prod alt w = Some (k, x) <->
  records prod alt k x /\ relayed prod w <> None.
Proof.
  unfold cycle_mapping. rewrite <- new_mapping_records.
  destruct (relayed prod w); [|by split; [|intros []]]. split; [by intros ->|by intros []].
Qed.

(** X13. With the cache [main] creates, a mapping recorded by a request
    cycle (the handler relayed a production response, and both responses
    carry the session cookie) is found for 24 hours from the moment the
    goroutine recorded it and not after, and recording it changes the
    lookup of no other session. *)
Theorem recorded_mapping_lives_a_day (fl : Flags) (prod alt : Backend) (h : handler)
    (req : Request) (later : Z) (σ : World) (k x : string) :
  spawned σ = [] ->
  defaultExpiration (session_cache σ) = defaultExpiration main_SessionCache ->
  (0 <= later)%Z ->
  records prod alt k x ->
  relayed prod (writer σ) <> None ->
  exists rs σ',
    request_cycle fl prod alt h req later σ = (Done tt, rs, σ') /\
    (forall now, GoCache.Get (session_cache σ') now k =
                 if (now <=? later + 24 * Hour)%Z then Some x else None) /\
    (forall now k', k' <> k ->
       GoCache.Get (session_cache σ') now k' = GoCache.Get (session_cache σ) now k').
Proof.
  intros Hsp Hd Hl Hrec Hrel.
  destruct (request_cycle_cache fl prod alt h req later σ Hsp)
    as (r & rs & σ' & Heq & Hdone & _ & Hm).
  rewrite (Hdone Hrel) in Heq.
  rewrite (proj2 (cycle_mapping_records prod alt (writer σ) k x) (conj Hrec Hrel)) in Hm.
  destruct Hm as [Hc _].
  exists rs, σ'. split; [exact Heq|]. rewrite Hc. split.
  - intros now. rewrite Get_Set_at, Hd.
    change (defaultExpiration main_SessionCache) with (24 * Hour)%Z.
    assert (0 < 24 * Hour)%Z by (vm_compute; reflexivity).
    destruct (0 <? 24 * Hour)%Z eqn:E1; [|apply Z.ltb_ge in E1; lia].
    destruct (0 <? later + 24 * Hour)%Z eqn:E2; [|apply Z.ltb_ge in E2; lia].
    cbn [andb].
    destruct (later + 24 * Hour <? now)%Z eqn:E3, (now <=? later + 24 * Hour)%Z eqn:E4;
      try done.
    + apply Z.ltb_lt in E3. apply Z.leb_le in E4. lia.
    + apply Z.ltb_ge in E3. apply Z.leb_gt in E4. lia.
  - intros now k' Hk. by apply Get_Set_other.
Qed.

Lemma recorded_mapping_lives_a_day_witness :
  let σ := Scenario.world "PHPSESSID=abc" None main_SessionCache in
  let prod := Scenario.answers "PHPSESSID=xyz" in
  let alt := Scenario.answers "PHPSESSID=qqq" in
  spawned σ = [] /\ (0 <= 2000)%Z /\ records prod alt "xyz" "qqq" /\
  relayed prod (writer σ) <> None /\
  exists rs σ',
    request_cycle Scenario.flags prod alt Scenario.proxy Sample.request0 2000 σ
      = (Done tt, rs, σ') /\
    GoCache.Get (session_cache σ') (2000 + 24 * Hour) "xyz" = Some "qqq" /\
    GoCache.Get (session_cache σ') (2001 + 24 * Hour) "xyz" = None.
Proof.
  intros σ prod alt.
  assert (Hrec : records prod alt "xyz" "qqq").
  { unfold records. do 4 eexists. repeat split; reflexivity. }
  assert (Hrel : relayed prod (writer σ) <> None) by discriminate.
  split; [reflexivity|]. split; [lia|]. split; [exact Hrec|]. split; [exact Hrel|].
  destruct (recorded_mapping_lives_a_day Scenario.flags prod alt Scenario.proxy Sample.request0
              2000 σ "xyz" "qqq" eq_refl eq_refl ltac:(lia) Hrec Hrel)
    as (rs & σ' & Heq & Hget & _).
  exists rs, σ'. split; [exact Heq|]. rewrite !Hget. split; reflexivity.
Defined.

(** X14. Session affinity across requests: once a request cycle has
    recorded that production session [k] goes with alternative session
    [x] (the handler relayed a production response, and both responses
    carry the session cookie), a later request that carries session [k],
    served from that cache before the mapping expires, is passed to the
    alternative target with the session cookie [x] and to the production
    target with the cookie it came with. *)
Theorem session_affinity (fl : Flags) (prod alt : Backend) (h : handler)
    (req : Request) (later : Z) (σ : World) (k x : string)
    (r : Res unit) (rs : list (Res unit)) (σ' : World)
    (next : Request) (τ : World) (cookie : Cookie) :
  spawned σ = [] ->
  records prod alt k x ->
  relayed prod (writer σ) <> None ->
  request_cycle fl prod alt h req later σ = (r, rs, σ') ->
  session_cache τ = session_cache σ' ->
  (clock τ <= later + defaultExpiration (session_cache σ))%Z ->
  wf_request (heap τ) next ->
  session_cookie (heap τ) next = Some cookie ->
  Value cookie = k ->
  exists a p τ1,
    ServeHTTP_rewrite next τ = (Done (a, p), τ1) /\
    session_cookie (heap τ1) a = Some (CookieLib.bare cookieName x) /\
    session_cookie (heap τ1) p = Some cookie.
Proof.
  intros Hsp Hrec Hrel Hcyc Hcache Hclock Hwf Hcookie Hk.
  destruct (request_cycle_cache fl prod alt h req later σ Hsp)
    as (r0 & rs0 & σ0 & Heq & _ & _ & Hm).
  rewrite Hcyc in Heq. injection Heq as <- <- <-.
  assert (Hx : valid_value x).
  { destruct Hrec as (wp & wa & pc & ac & _ & _ & _ & Hac & _ & ->).
    exact (wire_cookie_valid wa cookieName ac Hac). }
  rewrite (proj2 (cycle_mapping_records prod alt (writer σ) k x) (conj Hrec Hrel)) in Hm.
  destruct Hm as [Hc _].
  assert (Hget : GoCache.Get (session_cache τ) (clock τ) (Value cookie) = Some x).
  { rewrite Hcache, Hc, Hk, Get_Set_at.
    destruct (later + defaultExpiration (session_cache σ) <? clock τ)%Z eqn:E.
    - apply Z.ltb_lt in E. lia.
    - by rewrite andb_false_r. }
  destruct (rewrite_views next τ Hwf) as (a & p & τ1 & ba & bp & Hrw & _ & _ & Hvp & Hva & _).
  apply (f_equal v_Header) in Hvp, Hva. cbn [view forwarded v_Header] in Hvp, Hva.
  unfold shadow_header in Hva. rewrite Hcookie, Hget in Hva.
  exists a, p, τ1. split; [exact Hrw|].
  rewrite !session_cookie_eq, Hva, Hvp, lookup_insert_eq. cbn [default].
  rewrite (readCookies_printed _ x Hx), String.eqb_refl, orb_true_r.
  split; [reflexivity|]. by rewrite <- session_cookie_eq.
Qed.

Lemma session_affinity_witness :
  let σ := Scenario.world "PHPSESSID=abc" None Scenario.empty_cache in
  let prod := Scenario.answers "PHPSESSID=xyz" in
  let alt := Scenario.answers "PHPSESSID=qqq" in
  spawned σ = [] /\ records prod alt "xyz" "qqq" /\ relayed prod (writer σ) <> None /\
  exists r rs σ',
    request_cycle Scenario.flags prod alt Scenario.proxy Sample.request0 2000 σ = (r, rs, σ') /\
    let τ := mkWorld (Sample.heap0 "lang=en; PHPSESSID=xyz" None) (session_cache σ') 3000
               [] [] Writer.fresh [] in
    wf_request (heap τ) Sample.request0 /\
    exists a p τ1,
      ServeHTTP_rewrite Sample.request0 τ = (Done (a, p), τ1) /\
      session_cookie (heap τ1) a = Some (CookieLib.bare cookieName "qqq") /\
      session_cookie (heap τ1) p = Some (CookieLib.bare cookieName "xyz").
Proof.
  intros σ prod alt.
  assert (Hrec : records prod alt "xyz" "qqq").
  { unfold records. do 4 eexists. repeat split; reflexivity. }
  assert (Hrel : relayed prod (writer σ) <> None) by discriminate.
  split; [reflexivity|]. split; [exact Hrec|]. split; [exact Hrel|].
  destruct (request_cycle Scenario.flags prod alt Scenario.proxy Sample.request0 2000 σ)
    as [[r rs] σ'] eqn:Hcyc.
  exists r, rs, σ'. split; [reflexivity|]. intros τ.
  assert (Hwf : wf_request (heap τ) Sample.request0).
  { exact (sample_wf "lang=en; PHPSESSID=xyz" None Scenario.empty_cache). }
  split; [exact Hwf|].
  assert (Hclock : (clock τ <= 2000 + defaultExpiration (session_cache σ))%Z).
  { change (3000 <= 2000 + 86400000000000)%Z. lia. }
  exact (session_affinity Scenario.flags prod alt Scenario.proxy Sample.request0 2000 σ
           "xyz" "qqq" r rs σ' Sample.request0 τ (CookieLib.bare cookieName "xyz")
           eq_refl Hrec Hrel Hcyc eq_refl Hclock Hwf eq_refl eq_refl).
Defined.

(** ** What the handler prints *)

Lemma rewrite_stdout req σ :
  stdout (snd (ServeHTTP_rewrite req σ)) =
  stdout σ ++
  lookup_log (snd (DuplicateRequest req (heap σ))) req (session_cache σ) (clock σ).
Proof.
  unfold ServeHTTP_rewrite, lookup_log, session_cookie.
  unfold bind at 1. unfold liftH at 1.
  destruct (DuplicateRequest req (heap σ)) as [[a p] h1]. gstep. cbn [fst snd].
  unfold bind at 1. unfold liftH at 1. cbn [heap W.set_heap].
  unfold Http.Request_Cookie, hbind, Http.values. hstep.
  destruct (CookieLib.readCookies _ _) as [|cookie l]; unfold hret; gstep; cbn [fst snd].
  - unfold bind, Fmt.Printf, ret. gstep. cbn [stdout W.set_stdout W.set_heap]. reflexivity.
  - unfold bind at 1. unfold ret at 1. gstep. unfold bind at 1.
    unfold bind at 1. unfold SessionCache_Get. cbn [session_cache clock W.set_heap].
    destruct (GoCache.Get _ _ _) as [x|]; gstep.
    + unfold bind at 1, Fmt.Println at 1, Fmt.Printf at 1. gstep.
      unfold bind at 1, liftH at 1.
      destruct (Http.Del _ _ _) as [[] h3]. gstep. unfold liftH.
      destruct (Http.AddCookie _ _ _) as [[] h4]. gstep.
      unfold ret. cbn [snd stdout W.set_stdout W.set_heap]. reflexivity.
    + unfold Fmt.Println, Fmt.Printf. gstep. unfold ret.
      cbn [snd stdout W.set_stdout W.set_heap]. reflexivity.
Qed.

Lemma dispatch_stdout fl prod h a p σ :
  stdout (snd (ServeHTTP_dispatch fl prod h a p σ)) = stdout σ ++ production_log prod (Target h).
Proof.
  destruct (reply prod) as [wr|] eqn:Hr.
  - destruct (dispatch_replied fl prod h a p σ wr Hr) as (r & σ' & -> & _ & _ & Ho & _).
    apply reply_Some in Hr as (Hd & Hw & Hrd). unfold production_log.
    rewrite Hd, Hw, Hrd. cbn [snd]. by rewrite Ho, app_nil_r.
  - destruct prod as [d w r]. unfold reply in Hr. unfold production_log.
    cbn [on_dial on_write on_read] in *.
    destruct d as [[]|e|v]; [|run_go; cbn [snd stdout W.set_stdout W.set_trace]; by rewrite ?app_nil_r..].
    destruct w as [[]|e|v]; [|run_go; cbn [snd stdout W.set_stdout W.set_trace]; by rewrite ?app_nil_r..].
    destruct r as [wr|e|v]; [done|run_go; cbn [snd stdout W.set_stdout W.set_trace]; by rewrite ?app_nil_r..].
Qed.

(** X15. Whatever the debug flag, the handler prints one line about the
    session lookup (a hit with both session values, a miss with the
    value received, or the failure to find the cookie) and then, when the
    dispatch to the production target ends in an error, one line naming
    the target and the step that failed; it prints nothing else. *)
Theorem handler_log (fl : Flags) (prod : Backend) (h : handler) (req : Request) (σ : World) :
  wf_request (heap σ) req ->
  stdout (snd (ServeHTTP fl prod h req σ)) =
    stdout σ ++ lookup_log (heap σ) req (session_cache σ) (clock σ)
             ++ production_log prod (Target h).
Proof.
  intros Hwf.
  destruct (ServeHTTP_parts fl prod h req σ) as (σ1 & Hrw & -> & _).
  rewrite dispatch_stdout.
  pose proof (rewrite_stdout req σ) as Ho. rewrite Hrw in Ho. cbn [snd] in Ho. rewrite Ho.
  unfold lookup_log.
  destruct (DuplicateRequest req (heap σ)) as [[a p] h1] eqn:Hdup. cbn [snd].
  rewrite (session_cookie_after_dup req (heap σ) a p h1 Hwf Hdup).
  by rewrite <- app_assoc.
Qed.

Lemma handler_log_witness :
  let σ := Scenario.world "PHPSESSID=abc" None Scenario.known_session in
  let fl := mkFlags false 3 1 in
  wf_request (heap σ) Sample.request0 /\
  stdout (snd (ServeHTTP fl Scenario.unreachable Scenario.proxy Sample.request0 σ)) =
    ["lookup HIT abc qqq" +:+ Fmt.nl; "Failed to connect to prod:8080" +:+ Fmt.nl].
Proof.
  intros σ fl. split; [apply sample_wf|].
  rewrite (handler_log fl Scenario.unreachable Scenario.proxy Sample.request0 σ (sample_wf _ _ _)).
  reflexivity.
Defined.


(** * Examples *)

Example readCookies_two :
  CookieLib.readCookies ["a=1; PHPSESSID=abc ; b=x;; =y; c d=z"; "e=5"] EmptyString =
  [CookieLib.bare "a" "1"; CookieLib.bare "PHPSESSID" "abc"; CookieLib.bare "b" "x"; CookieLib.bare "e" "5"].
Proof. reflexivity. Qed.

Example readSetCookie_attrs :
  CookieLib.readSetCookie
    "PhpSessId=xyz; Path=/shop; DOMAIN=example.org; Max-Age=3600; Max-Age=007; secure; HttpOnly; Expires=Wed, 09 Jun 2021 10:18:14 GMT; SameSite=Lax"
  = Some (mkCookie "PhpSessId" "xyz" "/shop" "example.org"
            (time_of_text "Wed, 09 Jun 2021 10:18:14 GMT") 3600 true true).
Proof. reflexivity. Qed.

Example readSetCookie_max_age :
  MaxAge <$> CookieLib.readSetCookie "a=b; Max-Age=-5" = Some (-1)%Z /\
  MaxAge <$> CookieLib.readSetCookie "a=b; Max-Age=0" = Some (-1)%Z /\
  MaxAge <$> CookieLib.readSetCookie "a=b; Max-Age=12x" = Some 0%Z /\
  MaxAge <$> CookieLib.readSetCookie "a=b; Max-Age=99999999999999999999" = Some 0%Z.
Proof. repeat split; reflexivity. Qed.

(** Case folding: letters in either case; the Kelvin sign in the wanted
    name goes with [k], the long s with [s]; other bytes must be equal. *)
Example EqualFold_examples :
  Strings.EqualFold "PhpSessId" "PHPSESSID" = true /\
  Strings.EqualFold "sid_k" ("sid_" +:+ Strings.kelvin_sign) = true /\
  Strings.EqualFold "PHPSESSID" ("PHP" +:+ Strings.long_s +:+ "ESSID") = true /\
  Strings.EqualFold "sid_a" ("sid_" +:+ Strings.kelvin_sign) = false /\
  Strings.EqualFold "a@" "a`" = false /\
  Strings.EqualFold "abc" "abcd" = false.
Proof. repeat split; reflexivity. Qed.

Example FindCookie_kelvin :
  Value <$> FindCookie (mkResponse 200 {["Set-Cookie" := ["K=1; Path=/"]]} (connBody 0))
              Strings.kelvin_sign
  = Some "1".
Proof. reflexivity. Qed.

Example Sprint_int_examples :
  Fmt.Sprint_int 99 = "99" /\ Fmt.Sprint_int 0 = "0" /\ Fmt.Sprint_int (-7) = "-7".
Proof. repeat split; reflexivity. Qed.

Example canonical_examples :
  Textproto.CanonicalMIMEHeaderKey "cookie" = "Cookie" /\
  Textproto.CanonicalMIMEHeaderKey "set-COOKIE" = "Set-Cookie" /\
  Textproto.CanonicalMIMEHeaderKey "bad key" = "bad key".
Proof. repeat split; reflexivity. Qed.

Example sanitize_examples :
  CookieLib.sanitizeCookieValue "q q;q" = String Strings.dquote ("q qq" +:+ String Strings.dquote EmptyString) /\
  CookieLib.sanitizeCookieValue "qqq" = "qqq".
Proof. split; reflexivity. Qed.

Example DuplicateRequest_sample :
  let '((r1, r2), h) := DuplicateRequest Sample.request0 (Sample.heap0 "PHPSESSID=abc; lang=en" None) in
  Mem.header_view h (Header r1) = Mem.header_view h (Header r2) /\
  Mem.header_view h (Header r1) !! "Cookie" = Some ["PHPSESSID=abc; lang=en"] /\
  IO.body_bytes h (Body r1) = Sample.body /\ IO.body_bytes h (Body r2) = Sample.body /\
  Header r1 <> Header r2 /\ Proto r1 = "HTTP/1.1".
Proof. vm_compute. repeat split; congruence. Qed.

(** A change of the URL path made through one copy is read through the
    other copy and through the request. *)
Example url_update_is_shared :
  let h := Sample.heap0 "PHPSESSID=abc" None in
  let '((copyA, copyB), h') := DuplicateRequest Sample.request0 h in
  let moved := fun u => mkUrl (url_Scheme u) (url_Host u) "/moved" (url_RawQuery u) in
  let h'' := Mem.set_urls (alter moved (URL copyA)) h' in
  url_Path <$> urls h'' !! URL copyB = Some "/moved" /\
  url_Path <$> urls h'' !! URL Sample.request0 = Some "/moved" /\
  Mem.header_view
    (mutate (Header copyA) [OpSet "Cookie" "x=1"; OpStore "Accept" 0 "*/*"] h') (Header copyB)
  = Mem.header_view h (Header Sample.request0).
Proof. vm_compute. repeat split. Qed.

(** End-to-end scenario 1: no mapping yet; production sets [xyz], the
    alternative target sets [qqq]; the caller gets the production
    response and the cache learns [xyz -> qqq]. *)
Example scenario_new_session :
  let '(r, rs, σ) :=
    request_cycle Scenario.flags (Scenario.answers "PHPSESSID=xyz") (Scenario.answers "PHPSESSID=qqq")
      Scenario.proxy Sample.request0 2000
      (Scenario.world "PHPSESSID=abc" None Scenario.empty_cache) in
  r = Done tt /\ rs = [Done tt] /\
  rw_status (writer σ) = Some 200%Z /\
  rw_sent_header (writer σ) !! "Set-Cookie" = Some ["PHPSESSID=xyz"] /\
  stdout σ = ["lookup MISS abc" +:+ Fmt.nl] /\
  GoCache.Get (session_cache σ) 2000 "xyz" = Some "qqq" /\
  dials (trace σ) = ["prod:8080"; "alt:8081"].
Proof. vm_compute. repeat split. Qed.

(** End-to-end scenario 2: the cache maps [abc -> qqq]; production is
    sent [abc], the alternative target [qqq]. *)
Example scenario_known_session :
  let '(r, rs, σ) :=
    request_cycle Scenario.flags (Scenario.answers "a=b") (Scenario.answers "a=b")
      Scenario.proxy Sample.request0 2000
      (Scenario.world "PHPSESSID=abc; lang=en" None Scenario.known_session) in
  omap (fun e => match e with
                 | EvWrite addr rv => Some (addr, v_Header rv !! "Cookie")
                 | _ => None
                 end) (trace σ)
  = [("prod:8080", Some ["PHPSESSID=abc; lang=en"]); ("alt:8081", Some ["PHPSESSID=qqq"])].
Proof. vm_compute. reflexivity. Qed.

(** End-to-end scenario 3: the alternative target is unreachable, or
    panics; the caller gets the production response, the cache is not
    written and the goroutine returns. *)
Example scenario_shadow_down :
  let σ0 := Scenario.world "PHPSESSID=abc" None Scenario.empty_cache in
  let '(r, rs, σ) :=
    request_cycle Scenario.flags (Scenario.answers "PHPSESSID=xyz") Scenario.unreachable
      Scenario.proxy Sample.request0 2000 σ0 in
  let '(r', rs', σ') :=
    request_cycle Scenario.flags (Scenario.answers "PHPSESSID=xyz") Scenario.faulty
      Scenario.proxy Sample.request0 2000 σ0 in
  r = Done tt /\ rs = [Done tt] /\ rs' = [Done tt] /\
  rw_status (writer σ) = Some 200%Z /\ rw_body (writer σ) = [x6f; x6b]%byte /\
  writer σ' = writer σ /\
  session_cache σ = Scenario.empty_cache /\ session_cache σ' = Scenario.empty_cache /\
  stdout σ = ["lookup MISS abc" +:+ Fmt.nl; "Failed to connect to alt:8081" +:+ Fmt.nl] /\
  stdout σ' = ["lookup MISS abc" +:+ Fmt.nl; "Recovered in f runtime error" +:+ Fmt.nl].
Proof. vm_compute. repeat split. Qed.

(** End-to-end scenario 4: the production target is unreachable; nothing
    is written to the caller and the alternative target is not dialled. *)
Example scenario_primary_down :
  let '(r, rs, σ) :=
    request_cycle Scenario.flags Scenario.unreachable (Scenario.answers "PHPSESSID=qqq")
      Scenario.proxy Sample.request0 2000
      (Scenario.world "PHPSESSID=abc" None Scenario.empty_cache) in
  r = Done tt /\ rs = [] /\ writer σ = Writer.fresh /\ dials (trace σ) = ["prod:8080"].
Proof. vm_compute. repeat split. Qed.

(** End-to-end scenario 5: the production target answers with status
    code 099.  [WriteHeader] panics: the handler ends in the panic with
    the headers assigned and nothing sent, the connection is closed, the
    alternative target is not contacted and the cache learns nothing. *)
Example scenario_status_below_100 :
  let '(r, rs, σ) :=
    request_cycle Scenario.flags (Scenario.answers_with 99 "PHPSESSID=xyz")
      (Scenario.answers "PHPSESSID=qqq") Scenario.proxy Sample.request0 2000
      (Scenario.world "PHPSESSID=abc" None Scenario.empty_cache) in
  r = Panicking "invalid WriteHeader code 99" /\ rs = [] /\
  rw_status (writer σ) = None /\ rw_body (writer σ) = [] /\
  rw_header (writer σ) !! "Set-Cookie" = Some ["PHPSESSID=xyz"] /\
  GoCache.Get (session_cache σ) 2000 "xyz" = None /\
  dials (trace σ) = ["prod:8080"] /\
  closes (trace σ) = ["prod:8080"].
Proof. vm_compute. repeat split. Qed.
